(** * 3D Chess Master: the rules engine of js/chess.js

    A shallow embedding of the game core of [js/chess.js] (board, pseudo-legal
    moves, legality by check detection, move execution with undo, end-of-game
    evaluation and the depth-2 material search) and of its view controls,
    followed by the properties the specification states about it and by
    further properties of the code.

    Conventions of the embedding.
    - [boardState[z][x]] is an array of eight rows.  The outer array always
      has exactly the rows 0..7 (it is only ever built by
      [Array(8).fill().map(...)] and never resized), so reading or writing
      [bs[z][x]] with [z] outside 0..7 dereferences [undefined] and raises a
      TypeError.  A row is a JavaScript array object: reading an index that
      holds nothing yields [undefined], writing any integer index stores a
      property.  The code only ever tests cells for truthiness, so [null],
      [undefined] and a hole are one case here: the key is absent.  A board
      is therefore a finite map from [(z, x)] to pieces.
    - Every function that can raise returns a [result]; loops of the source
      that are not bounded by a literal take fuel, and running out of it is a
      third outcome, separate from a value and from a TypeError.  A call
      that raises is just [Throw]: the half-updated globals it would leave
      behind are not described.
    - A piece is the value [{ type, color }] of the object in the cell.  The
      one place where an object is written after it has been stored, the
      promotion inside [applyMoveOnClone], is also modelled with objects
      behind references (section "Piece objects and references"), to check
      that the copy shares nothing with the live board.
    - The Three.js handles ([mesh], [piecesGroup], toasts, timers) are
      rendering state: they never flow into a type, a color or a coordinate
      read by the rules, and are left out.  [statusBox] is kept, since it is
      the only place where checkmate and stalemate are told apart.  The view
      state behind the camera controls is a state machine of its own
      (section "The camera"). *)

From stdpp Require Import gmap strings list.
From Stdlib Require Import ZArith Lia Ascii QArith.

Open Scope Z_scope.

(** ** Outcomes of a call *)

Inductive result (A : Type) : Type :=
  | Ret (a : A)
  | Throw
  | OutOfFuel.
Arguments Ret {A} a.
Arguments Throw {A}.
Arguments OutOfFuel {A}.

Definition bind {A B : Type} (r : result A) (k : A -> result B) : result B :=
  match r with
  | Ret a => k a
  | Throw => Throw
  | OutOfFuel => OutOfFuel
  end.

Notation "'let*' x := e 'in' k" := (bind e (fun x => k))
  (at level 10, x name, e at level 100, k at level 200).
Notation "'let*' ' p := e 'in' k" := (bind e (fun p => k))
  (at level 10, p pattern, e at level 100, k at level 200).

(** [for (const a of l) s = f(s, a)] with a fallible body. *)
Fixpoint foldM {A S : Type} (f : S -> A -> result S) (l : list A) (s : S)
  : result S :=
  match l with
  | [] => Ret s
  | a :: l' => let* s' := f s a in foldM f l' s'
  end.

(** A loop whose body may [return true]; falling through returns [false]. *)
Fixpoint anyM {A : Type} (f : A -> result bool) (l : list A) : result bool :=
  match l with
  | [] => Ret false
  | a :: l' => let* b := f a in if b then Ret true else anyM f l'
  end.

(** ** Data model *)

Inductive PieceType := pawn | knight | bishop | rook | queen | king.
Inductive Color := white | black.

Record Piece := mkPiece { type : PieceType; color : Color }.

#[global] Instance PieceType_eq_dec : EqDecision PieceType.
Proof. solve_decision. Defined.
#[global] Instance Color_eq_dec : EqDecision Color.
Proof. solve_decision. Defined.
#[global] Instance Piece_eq_dec : EqDecision Piece.
Proof. solve_decision. Defined.

(** [const SIZE = 8], [PIECE_VALUES]. *)
Definition SIZE : Z := 8.

Definition PIECE_VALUES (t : PieceType) : Z :=
  match t with
  | pawn => 100 | knight => 320 | bishop => 330
  | rook => 500 | queen => 900 | king => 20000
  end.

(** Key [(z, x)] holds [bs[z][x]]. *)
Abbreviation board := (gmap (Z * Z) Piece).

Definition hasRow (z : Z) : bool := (0 <=? z) && (z <? 8).

(** [bs[z][x]] *)
Definition cell (bs : board) (z x : Z) : result (option Piece) :=
  if hasRow z then Ret (bs !! (z, x)) else Throw.

(** [bs[z] && bs[z][x]] *)
Definition cellGuarded (bs : board) (z x : Z) : option Piece :=
  if hasRow z then bs !! (z, x) else None.

(** [bs[z][x] = v], where [None] is [null]. *)
Definition setCell (bs : board) (z x : Z) (v : option Piece) : result board :=
  if hasRow z then Ret (partial_alter (fun _ => v) (z, x) bs) else Throw.

Record Move := mkMove { fromX : Z; fromZ : Z; toX : Z; toZ : Z }.

#[global] Instance Move_eq_dec : EqDecision Move.
Proof. solve_decision. Defined.

Definition range8 : list Z := [0; 1; 2; 3; 4; 5; 6; 7].

(** The order of [for (let z = 0; z < 8; z++) for (let x = 0; x < 8; x++)],
    as pairs [(z, x)]. *)
Definition squares : list (Z * Z) :=
  flat_map (fun z => map (fun x => (z, x)) range8) range8.

Definition isInside (x z : Z) : bool :=
  (0 <=? x) && (x <? 8) && (0 <=? z) && (z <? 8).

Definition opposite (c : Color) : Color :=
  match c with white => black | black => white end.

Definition isSome {A : Type} (o : option A) : bool :=
  match o with Some _ => true | None => false end.

(** ** Board copies and simulation *)

Definition cloneBoard (bs : board) : result board :=
  foldM (fun c '(z, x) =>
           let* p := cell bs z x in
           match p with
           | Some p => setCell c z x (Some (mkPiece (type p) (color p)))
           | None => Ret c
           end)
        squares ∅.

Definition applyMoveOnClone (bs : board) (move : Move) : result board :=
  let* piece := cell bs (fromZ move) (fromX move) in
  let* bs := setCell bs (toZ move) (toX move) piece in
  let* bs := setCell bs (fromZ move) (fromX move) None in
  match piece with
  | Some p =>
      if bool_decide (type p = pawn) && ((toZ move =? 0) || (toZ move =? 7))
      then
        let* q := cell bs (toZ move) (toX move) in
        match q with
        | Some q => setCell bs (toZ move) (toX move) (Some (mkPiece queen (color q)))
        | None => Throw
        end
      else Ret bs
  | None => Ret bs
  end.

(** ** Pseudo-legal moves: the predicate *)

Fixpoint isPathClear_loop (fuel : nat) (bs : board) (sx sz tX tZ x z : Z)
  : result bool :=
  if negb ((x =? tX) && (z =? tZ)) then
    match fuel with
    | O => OutOfFuel
    | S fuel' =>
        let* c := cell bs z x in
        if isSome c then Ret false
        else isPathClear_loop fuel' bs sx sz tX tZ (x + sx) (z + sz)
    end
  else Ret true.

(** Along a row the loop runs [|tX - fX| - 1] times; off a row it reads at
    most eight existing rows before it leaves the board and raises. *)
Definition pathFuel (fX tX : Z) : nat := Z.to_nat (Z.abs (tX - fX)) + 9.

Definition isPathClear (bs : board) (fX fZ tX tZ : Z) : result bool :=
  let sx := Z.sgn (tX - fX) in
  let sz := Z.sgn (tZ - fZ) in
  isPathClear_loop (pathFuel fX tX) bs sx sz tX tZ (fX + sx) (fZ + sz).

Definition sameColor (target : option Piece) (piece : Piece) : bool :=
  match target with
  | Some t => bool_decide (color t = color piece)
  | None => false
  end.

Definition otherColor (target : option Piece) (c : Color) : bool :=
  match target with
  | Some t => bool_decide (color t <> c)
  | None => false
  end.

Definition isPseudoLegal (move : Move) (bs : board) (forCheck : bool)
  : result bool :=
  match cellGuarded bs (fromZ move) (fromX move) with
  | None => Ret false
  | Some piece =>
      let dx := toX move - fromX move in
      let dz := toZ move - fromZ move in
      let adx := Z.abs dx in
      let adz := Z.abs dz in
      let target := cellGuarded bs (toZ move) (toX move) in
      if negb forCheck && sameColor target piece then Ret false
      else
        match type piece with
        | pawn =>
            let dir := if bool_decide (color piece = white) then -1 else 1 in
            let start := if bool_decide (color piece = white) then 6 else 1 in
            if dx =? 0 then
              if (dz =? dir) && negb (isSome target) then Ret true
              else if (dz =? 2 * dir) && (fromZ move =? start)
                      && negb (isSome target)
              then
                let* c := cell bs (fromZ move + dir) (fromX move) in
                if negb (isSome c) then Ret true else Ret false
              else Ret false
            else if (Z.abs dx =? 1) && (dz =? dir) then
              if otherColor target (color piece) then Ret true else Ret false
            else Ret false
        | rook =>
            if negb (dx =? 0) && negb (dz =? 0) then Ret false
            else isPathClear bs (fromX move) (fromZ move) (toX move) (toZ move)
        | bishop =>
            if negb (adx =? adz) then Ret false
            else isPathClear bs (fromX move) (fromZ move) (toX move) (toZ move)
        | queen =>
            if (dx =? 0) || (dz =? 0) || (adx =? adz)
            then isPathClear bs (fromX move) (fromZ move) (toX move) (toZ move)
            else Ret false
        | knight =>
            Ret (((adx =? 1) && (adz =? 2)) || ((adx =? 2) && (adz =? 1)))
        | king =>
            Ret (Z.max adx adz =? 1)
        end
  end.

(** ** Check detection and legality *)

Definition isKingInCheck (bs : board) (player : Color) : result bool :=
  let* ' (kx, kz) :=
    foldM (fun '(kx, kz) '(z, x) =>
             let* c := cell bs z x in
             match c with
             | Some p =>
                 if bool_decide (type p = king) && bool_decide (color p = player)
                 then Ret (x, z) else Ret (kx, kz)
             | None => Ret (kx, kz)
             end)
          squares (-1, -1) in
  if kx =? -1 then Ret true
  else
    let opponent := if bool_decide (player = white) then black else white in
    anyM (fun '(z, x) =>
            let* c := cell bs z x in
            match c with
            | Some p =>
                if bool_decide (color p = opponent)
                then isPseudoLegal (mkMove x z kx kz) bs true
                else Ret false
            | None => Ret false
            end)
         squares.

(** [isLegalMove] reads the global [boardState]; it is the first argument. *)
Definition isLegalMove (boardState : board) (move : Move) (player : Color)
  : result bool :=
  let* from := cell boardState (fromZ move) (fromX move) in
  match from with
  | None => Ret false
  | Some from =>
      if bool_decide (color from <> player) then Ret false
      else
        let* pl := isPseudoLegal move boardState false in
        if negb pl then Ret false
        else
          let* bsClone := cloneBoard boardState in
          let* bsClone := applyMoveOnClone bsClone move in
          let* chk := isKingInCheck bsClone player in
          Ret (negb chk)
  end.

(** ** Pseudo-legal moves: the generator

    The source declares [generatePseudoMoves] twice with the same body (the
    second omits one pair of braces); the later declaration is the one in
    force.  A generated [{ toX, toZ }] is the pair [(toX, toZ)], and the
    successive [moves.push] calls are list concatenation in program order. *)

(** [for (const a of l) body(a)], each body pushing a few moves. *)
Fixpoint collectM {A B : Type} (f : A -> result (list B)) (l : list A)
  : result (list B) :=
  match l with
  | [] => Ret []
  | a :: l' =>
      let* ms := f a in
      let* rest := collectM f l' in
      Ret (ms ++ rest)
  end.

(** [if (isInside(nx, nz) && (!bs[nz][nx] || bs[nz][nx].color !== color))
    moves.push({ toX: nx, toZ: nz })] *)
Definition pushIfFree (bs : board) (c : Color) (nx nz : Z)
  : result (list (Z * Z)) :=
  if isInside nx nz then
    let* q := cell bs nz nx in
    if negb (isSome q) || otherColor q c then Ret [(nx, nz)] else Ret []
  else Ret [].

(** The [while (isInside(nx, nz))] walk along one direction. *)
Fixpoint slide (fuel : nat) (bs : board) (c : Color) (dx dz nx nz : Z)
  : result (list (Z * Z)) :=
  if isInside nx nz then
    match fuel with
    | O => OutOfFuel
    | S fuel' =>
        let* q := cell bs nz nx in
        if negb (isSome q) then
          let* rest := slide fuel' bs c dx dz (nx + dx) (nz + dz) in
          Ret ((nx, nz) :: rest)
        else if otherColor q c then Ret [(nx, nz)] else Ret []
    end
  else Ret [].

Definition rookDirs : list (Z * Z) := [(1, 0); (-1, 0); (0, 1); (0, -1)].
Definition bishopDirs : list (Z * Z) := [(1, 1); (1, -1); (-1, 1); (-1, -1)].
Definition queenDirs : list (Z * Z) :=
  [(1, 0); (-1, 0); (0, 1); (0, -1); (1, 1); (1, -1); (-1, 1); (-1, -1)].
Definition knightJumps : list (Z * Z) :=
  [(1, 2); (2, 1); (-1, 2); (-2, 1); (1, -2); (2, -1); (-1, -2); (-2, -1)].

Definition generatePseudoMoves (x z : Z) (bs : board)
  : result (list (Z * Z)) :=
  let* p := cell bs z x in
  match p with
  | None => Ret []
  | Some p =>
      let t := type p in
      let color := color p in
      let dir := if bool_decide (color = white) then -1 else 1 in
      match t with
      | pawn =>
          let* m1 :=
            (if isInside x (z + dir) then
               let* q := cell bs (z + dir) x in
               if negb (isSome q) then Ret [(x, z + dir)] else Ret []
             else Ret []) in
          let start := if bool_decide (color = white) then 6 else 1 in
          let* m2 :=
            (if z =? start then
               let* q1 := cell bs (z + dir) x in
               if negb (isSome q1) then
                 let* q2 := cell bs (z + 2 * dir) x in
                 if negb (isSome q2) then Ret [(x, z + 2 * dir)] else Ret []
               else Ret []
             else Ret []) in
          let* m3 :=
            collectM (fun '(nx, nz) =>
                        if isInside nx nz then
                          let* q := cell bs nz nx in
                          if otherColor q color then Ret [(nx, nz)] else Ret []
                        else Ret [])
                     [(x - 1, z + dir); (x + 1, z + dir)] in
          Ret (m1 ++ m2 ++ m3)
      | knight =>
          collectM (fun '(dx, dz) => pushIfFree bs color (x + dx) (z + dz))
                   knightJumps
      | rook | bishop | queen =>
          let dirs :=
            if bool_decide (t = rook) then rookDirs
            else if bool_decide (t = bishop) then bishopDirs
            else queenDirs in
          collectM (fun '(dx, dz) => slide 8 bs color dx dz (x + dx) (z + dz))
                   dirs
      | king =>
          collectM (fun dx =>
            collectM (fun dz =>
                        if (dx =? 0) && (dz =? 0) then Ret []
                        else pushIfFree bs color (x + dx) (z + dz))
                     [-1; 0; 1])
            [-1; 0; 1]
      end
  end.

(** ** Game state *)

Inductive GameState := playing | ended.

#[global] Instance GameState_eq_dec : EqDecision GameState.
Proof. solve_decision. Defined.

(** An entry [{ move, captured, mover }] of [moveHistory]. *)
Record HistoryEntry := mkEntry {
  h_move : Move;
  h_captured : option Piece;
  h_mover : Color
}.

(** [captured = { white: [...], black: [...] }] *)
Record Captured := mkCaptured {
  byWhite : list PieceType;
  byBlack : list PieceType
}.

Definition capturedBy (c : Captured) (mover : Color) : list PieceType :=
  match mover with white => byWhite c | black => byBlack c end.

Definition setCapturedBy (c : Captured) (mover : Color) (l : list PieceType)
  : Captured :=
  match mover with
  | white => mkCaptured l (byBlack c)
  | black => mkCaptured (byWhite c) l
  end.

(** [push] appends at the end of a list and [pop] removes its last element. *)
Record State := mkState {
  boardState : board;
  currentPlayer : Color;
  gameState : GameState;
  moveHistory : list HistoryEntry;
  captured : Captured;
  statusBox : string
}.

Definition colorName (c : Color) : string :=
  match c with white => "white" | black => "black" end.

Definition toUpperCase (a : ascii) : ascii :=
  let n := nat_of_ascii a in
  if ((97 <=? n) && (n <=? 122))%nat then ascii_of_nat (n - 32) else a.

(** [s.charAt(0).toUpperCase() + s.slice(1)] *)
Definition capitalize (s : string) : string :=
  match s with
  | EmptyString => EmptyString
  | String a rest => String (toUpperCase a) rest
  end.

(** ** Enumerating legal moves and classifying the position *)

Definition allLegalMovesFor (boardState : board) (player : Color)
  : result (list Move) :=
  foldM (fun moves '(z, x) =>
           let* p := cell boardState z x in
           match p with
           | None => Ret moves
           | Some p =>
               if bool_decide (color p <> player) then Ret moves
               else
                 let* pseudo := generatePseudoMoves x z boardState in
                 foldM (fun moves '(mtoX, mtoZ) =>
                          let m := mkMove x z mtoX mtoZ in
                          let* ok := isLegalMove boardState m player in
                          if ok then Ret (moves ++ [m]) else Ret moves)
                       pseudo moves
           end)
        squares [].

Definition evaluateGameState (s : State) : result State :=
  let opponent := currentPlayer s in
  let* legal := allLegalMovesFor (boardState s) opponent in
  let* inCheck := isKingInCheck (boardState s) opponent in
  if (length legal =? 0)%nat then
    Ret (mkState (boardState s) (currentPlayer s) ended (moveHistory s)
           (captured s)
           (if inCheck
            then capitalize (colorName opponent) +:+ " is checkmated!"
            else "Stalemate"))
  else
    Ret (mkState (boardState s) (currentPlayer s) (gameState s) (moveHistory s)
           (captured s) "Game in Progress").

(** ** Executing and undoing a move *)

Definition performMove (s : State) (move : Move) : result State :=
  let* from := cell (boardState s) (fromZ move) (fromX move) in
  let* target := cell (boardState s) (toZ move) (toX move) in
  let mover := currentPlayer s in
  let history :=
    moveHistory s ++
      [mkEntry move
         (match target with
          | Some t => Some (mkPiece (type t) (color t))
          | None => None
          end)
         mover] in
  let* ' (capt, bs) :=
    (match target with
     | Some t =>
         let* bs := setCell (boardState s) (toZ move) (toX move) None in
         Ret (setCapturedBy (captured s) mover
                (capturedBy (captured s) mover ++ [type t]), bs)
     | None => Ret (captured s, boardState s)
     end) in
  match from with
  | None => Throw
  | Some from =>
      let* bs := setCell bs (toZ move) (toX move)
                   (Some (mkPiece (type from) (color from))) in
      let* bs := setCell bs (fromZ move) (fromX move) None in
      let* bs :=
        (if bool_decide (type from = pawn)
            && ((toZ move =? 0) || (toZ move =? 7))
         then
           let* q := cell bs (toZ move) (toX move) in
           match q with
           | Some q =>
               setCell bs (toZ move) (toX move) (Some (mkPiece queen (color q)))
           | None => Throw
           end
         else Ret bs) in
      let player := if bool_decide (currentPlayer s = white) then black else white in
      evaluateGameState
        (mkState bs player (gameState s) history capt (statusBox s))
  end.

(** [spawnPiece(type, color, x, z)], the board part. *)
Definition spawnPiece (bs : board) (t : PieceType) (c : Color) (x z : Z)
  : result board :=
  setCell bs z x (Some (mkPiece t c)).

Definition undoMove (s : State) : result State :=
  match last (moveHistory s) with
  | None => Ret s
  | Some entry =>
      let history := removelast (moveHistory s) in
      let m := h_move entry in
      let cap := h_captured entry in
      let mover := h_mover entry in
      let* moved := cell (boardState s) (toZ m) (toX m) in
      let* bs := setCell (boardState s) (fromZ m) (fromX m) moved in
      let* bs := setCell bs (toZ m) (toX m) None in
      let* ' (bs, capt) :=
        (match cap with
         | Some cap =>
             let* bs := spawnPiece bs (type cap) (color cap) (toX m) (toZ m) in
             Ret (bs, setCapturedBy (captured s) mover
                        (removelast (capturedBy (captured s) mover)))
         | None => Ret (bs, captured s)
         end) in
      Ret (mkState bs mover playing history capt "Game in Progress")
  end.

(** ** The automated opponent *)

(** JavaScript numbers as the search uses them: material sums are small
    integers, and the two running extrema start at [-Infinity] and
    [Infinity]. *)
Inductive Num := MinusInfinity | Finite (v : Z) | Infinity.

#[global] Instance Num_eq_dec : EqDecision Num.
Proof. solve_decision. Defined.

(** [a < b] *)
Definition num_lt (a b : Num) : bool :=
  match a, b with
  | MinusInfinity, MinusInfinity => false
  | MinusInfinity, _ => true
  | Finite _, MinusInfinity => false
  | Finite x, Finite y => x <? y
  | Finite _, Infinity => true
  | Infinity, _ => false
  end.

(** [Math.max(a, b)] *)
Definition num_max (a b : Num) : Num :=
  match a, b with
  | Infinity, _ | _, Infinity => Infinity
  | MinusInfinity, b => b
  | a, MinusInfinity => a
  | Finite x, Finite y => Finite (Z.max x y)
  end.

Definition evaluateMaterial (bs : board) : result Z :=
  foldM (fun score '(z, x) =>
           let* p := cell bs z x in
           match p with
           | Some p =>
               Ret (score
                    + (if bool_decide (color p = white) then 1 else -1)
                      * PIECE_VALUES (type p))
           | None => Ret score
           end)
        squares 0.

(** The replies collected into [oppMoves] for the simulated position
    [clone]; the legality test is the source's call [isLegalMove(cand,
    'white')], which reads the global [boardState]. *)
Definition collectOppMoves (boardState clone : board) : result (list Move) :=
  foldM (fun oppMoves '(z, x) =>
           let* p := cell clone z x in
           match p with
           | Some p =>
               if bool_decide (color p = white) then
                 let* pms := generatePseudoMoves x z clone in
                 foldM (fun oppMoves '(pmX, pmZ) =>
                          let cand := mkMove x z pmX pmZ in
                          let* ok := isLegalMove boardState cand white in
                          if ok then Ret (oppMoves ++ [cand]) else Ret oppMoves)
                       pms oppMoves
               else Ret oppMoves
           | None => Ret oppMoves
           end)
        squares [].

(** The value [worst] that the body of [moves.forEach] computes for [m]. *)
Definition worstAfter (boardState : board) (m : Move) : result Num :=
  let* clone := cloneBoard boardState in
  let* clone := applyMoveOnClone clone m in
  let* oppMoves := collectOppMoves boardState clone in
  if (length oppMoves =? 0)%nat then
    let* v := evaluateMaterial clone in Ret (Finite v)
  else
    foldM (fun worst om =>
             let* c2 := cloneBoard clone in
             let* c2 := applyMoveOnClone c2 om in
             let* v := evaluateMaterial c2 in
             Ret (num_max worst (Finite v)))
          oppMoves MinusInfinity.

(** The pair [(best, bestScore)] after [moves.forEach]. *)
Definition searchBest (boardState : board) (moves : list Move)
  : result (option Move * Num) :=
  foldM (fun '(best, bestScore) m =>
           let* worst := worstAfter boardState m in
           if num_lt worst bestScore then Ret (Some m, worst)
           else Ret (best, bestScore))
        moves (None, Infinity).

(** The move that [makeBestAIMove] hands to [performMove], if any. *)
Definition bestAIMove (s : State) : result (option Move) :=
  let* moves := allLegalMovesFor (boardState s) black in
  if (length moves =? 0)%nat then Ret None
  else
    let* ' (best, _) := searchBest (boardState s) moves in
    Ret best.

Definition makeBestAIMove (s : State) : result State :=
  let* best := bestAIMove s in
  match best with
  | Some best => performMove s best
  | None => Ret s
  end.

(** ** Input: the move attempt of [onPointerDown]

    The branch taken when a square is clicked while a piece is selected;
    the boolean tells whether the move was accepted (otherwise the caller
    shows the toast 'Invalid move'). *)
Definition attemptMove (s : State) (move : Move) : result (State * bool) :=
  if bool_decide (gameState s <> playing) then Ret (s, false)
  else
    let* ok := isLegalMove (boardState s) move (currentPlayer s) in
    if ok then
      let* s' := performMove s move in Ret (s', true)
    else Ret (s, false).

(** ** A new game *)

Definition back : list PieceType :=
  [rook; knight; bishop; queen; king; bishop; knight; rook].

(** [back[i]] exists for each [i] of the loop; the [Throw] arm only makes
    the match total. *)
Definition createPieces (bs : board) : result board :=
  foldM (fun bs i =>
           match back !! Z.to_nat i with
           | Some t =>
               let* bs := spawnPiece bs t black i 0 in
               let* bs := spawnPiece bs pawn black i 1 in
               let* bs := spawnPiece bs pawn white i 6 in
               spawnPiece bs t white i 7
           | None => Throw
           end)
        range8 bs.

(** [initBoardState]: eight rows of eight [null]s. *)
Definition initBoardState : board := ∅.

Definition resetGame : result State :=
  let* bs := createPieces initBoardState in
  Ret (mkState bs white playing [] (mkCaptured [] []) "Game in Progress").

(** ** Notions used in the statements *)

(** The first loop of [isKingInCheck]: the last king of [player] in scan
    order, or [(-1, -1)]. *)
Definition findKing (bs : board) (player : Color) : result (Z * Z) :=
  foldM (fun '(kx, kz) '(z, x) =>
           let* c := cell bs z x in
           match c with
           | Some p =>
               if bool_decide (type p = king) && bool_decide (color p = player)
               then Ret (x, z) else Ret (kx, kz)
           | None => Ret (kx, kz)
           end)
        squares (-1, -1).

(** A move between two squares of the board. *)
Definition onBoard (m : Move) : Prop :=
  isInside (fromX m) (fromZ m) = true /\ isInside (toX m) (toZ m) = true.

(** The piece that stands on the destination after the move: a pawn that
    lands on rank 0 or 7 has become a queen. *)
Definition promoted (p : Piece) (tz : Z) : Piece :=
  if bool_decide (type p = pawn) && ((tz =? 0) || (tz =? 7))
  then mkPiece queen (color p) else p.

(** The three conditions under which [isLegalMove] answers [true]. *)
Definition legalConditions (bs : board) (mv : Move) (player : Color) : Prop :=
  (exists p, bs !! (fromZ mv, fromX mv) = Some p /\ color p = player)
  /\ isPseudoLegal mv bs false = Ret true
  /\ exists c c', cloneBoard bs = Ret c
                  /\ applyMoveOnClone c mv = Ret c'
                  /\ isKingInCheck c' player = Ret false.

Definition unitStep (d : Z) : Prop := d = -1 \/ d = 0 \/ d = 1.

(** The squares strictly between [(fX, fZ)] and the [k]-th square in
    direction [(sx, sz)] are empty. *)
Definition pathEmpty (bs : board) (fX fZ sx sz k : Z) : Prop :=
  forall j, 1 <= j < k -> bs !! (fZ + j * sz, fX + j * sx) = None.

(** A destination is free for a piece of color [c] when it is empty or holds
    a piece of the other color. *)
Definition freeFor (q : option Piece) (c : Color) : bool :=
  negb (isSome q) || otherColor q c.

(** The number of steps after which a walk in direction [(dx, dz)] from an
    inside square has left the board. *)
Definition stepsLeft (dx dz nx nz : Z) : Z :=
  if dx =? 1 then 8 - nx
  else if dx =? -1 then nx + 1
  else if dz =? 1 then 8 - nz
  else nz + 1.

(** What one [while] walk pushes: the squares reached over empty squares,
    the last of which may hold a piece of the other color. *)
Definition reached (bs : board) (c : Color) (dx dz nx nz : Z) (t : Z * Z)
  : Prop :=
  exists k, 0 <= k
            /\ t = (nx + k * dx, nz + k * dz)
            /\ isInside nx nz = true
            /\ isInside (nx + k * dx) (nz + k * dz) = true
            /\ (forall j, 0 <= j < k ->
                          bs !! (nz + j * dz, nx + j * dx) = None)
            /\ freeFor (bs !! (nz + k * dz, nx + k * dx)) c = true.

(** The state that [evaluateGameState] leaves, given the legal moves and the
    check status of the side to move. *)
Definition classified (s : State) (legal : list Move) (inCheck : bool) : State :=
  match legal with
  | [] =>
      mkState (boardState s) (currentPlayer s) ended (moveHistory s) (captured s)
        (if inCheck
         then capitalize (colorName (currentPlayer s)) +:+ " is checkmated!"
         else "Stalemate")
  | _ :: _ =>
      mkState (boardState s) (currentPlayer s) (gameState s) (moveHistory s)
        (captured s) "Game in Progress"
  end.

(** The captured lists once [move] has been carried out: the type of the
    piece on its destination, if any, is pushed on the mover's list. *)
Definition capturedAfter (s : State) (move : Move) : Captured :=
  match boardState s !! (toZ move, toX move) with
  | Some t =>
      setCapturedBy (captured s) (currentPlayer s)
        (capturedBy (captured s) (currentPlayer s) ++ [type t])
  | None => captured s
  end.

(** The rank on which a pawn of color [c] promotes. *)
Definition terminalRank (c : Color) : Z :=
  match c with white => 0 | black => 7 end.

(** [performMove] followed by [undoMove] gives back the board, the side to
    move, the captured lists and the phase. *)
Definition roundTrip (s : State) (m : Move) : Prop :=
  exists s1 s2,
    performMove s m = Ret s1 /\ undoMove s1 = Ret s2
    /\ boardState s2 = boardState s
    /\ currentPlayer s2 = currentPlayer s
    /\ captured s2 = captured s
    /\ gameState s2 = gameState s.

#[global] Instance Captured_eq_dec : EqDecision Captured.
Proof. solve_decision. Defined.

Definition roundTripb (s : State) (m : Move) : bool :=
  match performMove s m with
  | Ret s1 =>
      match undoMove s1 with
      | Ret s2 =>
          bool_decide (boardState s2 = boardState s)
          && bool_decide (currentPlayer s2 = currentPlayer s)
          && bool_decide (captured s2 = captured s)
          && bool_decide (gameState s2 = gameState s)
      | _ => false
      end
  | _ => false
  end.

(** Every move that [allLegalMovesFor] lists for the side to move makes a
    round trip. *)
Definition allRoundTripb (r : result State) : bool :=
  match r with
  | Ret s =>
      match allLegalMovesFor (boardState s) (currentPlayer s) with
      | Ret l => forallb (roundTripb s) l
      | _ => false
      end
  | _ => false
  end.

(** A capture is available to the side to move. *)
Definition pendingCapture (s : State) : Prop :=
  exists m, onBoard m
            /\ isLegalMove (boardState s) m (currentPlayer s) = Ret true
            /\ is_Some (boardState s !! (toZ m, toX m)).

(** A reply that [collectOppMoves] keeps: between squares of the board,
    accepted by [isLegalMove] on the live board, and starting from an
    occupied square of the simulated one. *)
Definition keptReply (live clone : board) (m : Move) : Prop :=
  onBoard m /\ isLegalMove live m white = Ret true
  /\ is_Some (clone !! (fromZ m, fromX m)).

(** The material after the reply [om] to the simulated position [clone]. *)
Definition replyValue (clone : board) (om : Move) : result Z :=
  let* c2 := cloneBoard clone in
  let* c2 := applyMoveOnClone c2 om in
  evaluateMaterial c2.

(** [w] is a number and [v <= w]. *)
Definition atLeast (w : Num) (v : Z) : Prop :=
  match w with
  | MinusInfinity => False
  | Finite x => v <= x
  | Infinity => True
  end.

(** ** The search as the specification words it

    Section 4.7: simulate the move, enumerate the opponent's legal moves on
    the resulting position, score that position by material when there are
    none, otherwise take the maximum material over the simulated replies;
    pick the first move of minimal score. *)

Definition spec_simulate (bs : board) (m : Move) : result board :=
  let* copy := cloneBoard bs in
  applyMoveOnClone copy m.

Fixpoint spec_replyScores (after : board) (replies : list Move)
  : result (list Z) :=
  match replies with
  | [] => Ret []
  | om :: rest =>
      let* c2 := spec_simulate after om in
      let* v := evaluateMaterial c2 in
      let* vs := spec_replyScores after rest in
      Ret (v :: vs)
  end.

Definition spec_score (bs : board) (m : Move) : result Z :=
  let* after := spec_simulate bs m in
  let* replies := allLegalMovesFor after white in
  let* scores := spec_replyScores after replies in
  match scores with
  | [] => evaluateMaterial after
  | v :: vs => Ret (foldl Z.max v vs)
  end.

Fixpoint spec_pick (bs : board) (moves : list Move) (best : option (Move * Z))
  : result (option (Move * Z)) :=
  match moves with
  | [] => Ret best
  | m :: rest =>
      let* v := spec_score bs m in
      match best with
      | Some (_, bv) =>
          if v <? bv then spec_pick bs rest (Some (m, v))
          else spec_pick bs rest best
      | None => spec_pick bs rest (Some (m, v))
      end
  end.

Definition spec_bestMove (bs : board) : result (option Move) :=
  let* moves := allLegalMovesFor bs black in
  let* best := spec_pick bs moves None in
  Ret (fst <$> best).

(** ** Positions *)

Definition play (r : result State) (m : Move) : result State :=
  let* s := r in performMove s m.

(** 1. e4 d5 2. exd5: black to move, the queen can retake on d5. *)
Definition midGame : result State :=
  play (play (play resetGame (mkMove 4 6 4 4)) (mkMove 3 1 3 3))
       (mkMove 4 4 3 3).

(** 1. e4 d5 2. Nc3: black to move. *)
Definition opening : result State :=
  play (play (play resetGame (mkMove 4 6 4 4)) (mkMove 3 1 3 3))
       (mkMove 1 7 2 5).

(** 1. f3 e5 2. g4: black to move and mate with the queen on h4. *)
Definition beforeMate : result State :=
  play (play (play resetGame (mkMove 5 6 5 5)) (mkMove 4 1 4 3))
       (mkMove 6 6 6 4).

(** A board given by its pieces [(x, z, piece)]. *)
Definition place (l : list (Z * Z * Piece)) : board :=
  foldl (fun b '(x, z, p) => <[(z, x) := p]> b) ∅ l.

(** Black queen d8 facing a white pawn on d4 that the pawn on c3 protects. *)
Definition hangingQueen : board :=
  place [ (6, 7, mkPiece king white); (3, 4, mkPiece pawn white);
          (2, 5, mkPiece pawn white); (4, 0, mkPiece king black);
          (3, 0, mkPiece queen black) ].

(** [hangingQueen] with one more property on row 0, outside the squares:
    [bs[0][8]]. *)
Definition hangingQueenBeside : board :=
  <[(0, 8) := mkPiece rook white]> hangingQueen.

(** A white pawn on a7 about to promote. *)
Definition promotion : board :=
  place [ (4, 7, mkPiece king white); (0, 1, mkPiece pawn white);
          (7, 0, mkPiece king black) ].

(** White to move; after Qg3-g6 the black king on h8 has no move and is not
    attacked. *)
Definition beforeStalemate : State :=
  mkState
    (place [ (7, 0, mkPiece king black); (5, 1, mkPiece king white);
             (6, 5, mkPiece queen white) ])
    white playing [] (mkCaptured [] []) "Game in Progress".

(** A hand-made state: the position of the fool's mate with the white a-pawn
    on a3 and the entry a2-a3 on top of the history, so that undoing it
    leaves white to move and checkmated. *)
Definition afterMate : State :=
  mkState
    (place [ (0, 0, mkPiece rook black); (1, 0, mkPiece knight black);
             (2, 0, mkPiece bishop black); (4, 0, mkPiece king black);
             (5, 0, mkPiece bishop black); (6, 0, mkPiece knight black);
             (7, 0, mkPiece rook black);
             (0, 1, mkPiece pawn black); (1, 1, mkPiece pawn black);
             (2, 1, mkPiece pawn black); (3, 1, mkPiece pawn black);
             (5, 1, mkPiece pawn black); (6, 1, mkPiece pawn black);
             (7, 1, mkPiece pawn black); (4, 3, mkPiece pawn black);
             (7, 4, mkPiece queen black);
             (6, 4, mkPiece pawn white); (5, 5, mkPiece pawn white);
             (0, 5, mkPiece pawn white);
             (1, 6, mkPiece pawn white); (2, 6, mkPiece pawn white);
             (3, 6, mkPiece pawn white); (4, 6, mkPiece pawn white);
             (7, 6, mkPiece pawn white);
             (0, 7, mkPiece rook white); (1, 7, mkPiece knight white);
             (2, 7, mkPiece bishop white); (3, 7, mkPiece queen white);
             (4, 7, mkPiece king white); (5, 7, mkPiece bishop white);
             (6, 7, mkPiece knight white); (7, 7, mkPiece rook white) ])
    black ended
    [mkEntry (mkMove 0 6 0 5) None white]
    (mkCaptured [] []) "Stalemate".

(** ** Piece objects and references

    In the source a cell holds a reference to a piece object, and
    [applyMoveOnClone] promotes by assigning to the [type] field of the
    object found on the destination.  This section keeps the objects in a
    store and the references in the cells, to check that the simulation
    run by [isLegalMove] only ever writes to objects that [cloneBoard]
    allocated, so that the contents of the live board are those of before
    and the board-valued functions above compute the same answer. *)

Abbreviation store := (gmap positive Piece).
Abbreviation refBoard := (gmap (Z * Z) positive).

(** The contents of a board of references. *)
Definition view (st : store) (rb : refBoard) : board :=
  omap (fun l => st !! l) rb.

Definition refCell (rb : refBoard) (z x : Z) : result (option positive) :=
  if hasRow z then Ret (rb !! (z, x)) else Throw.

Definition setRefCell (rb : refBoard) (z x : Z) (v : option positive)
  : result refBoard :=
  if hasRow z then Ret (partial_alter (fun _ => v) (z, x) rb) else Throw.

(** [{ type: ..., color: ... }]: a new object at an unused address. *)
Definition allocPiece (st : store) (p : Piece) : store * positive :=
  let l := fresh (dom st) in (<[l := p]> st, l).

(** A reference always leads to an object; the [Throw] on a missing object
    only makes the functions total. *)
Definition ref_cloneBoard (st : store) (bs : refBoard)
  : result (store * refBoard) :=
  foldM (fun '(st, c) '(z, x) =>
           let* r := refCell bs z x in
           match r with
           | Some l =>
               match st !! l with
               | Some p =>
                   let '(st', l') :=
                     allocPiece st (mkPiece (type p) (color p)) in
                   let* c' := setRefCell c z x (Some l') in
                   Ret (st', c')
               | None => Throw
               end
           | None => Ret (st, c)
           end)
        squares (st, ∅).

Definition ref_applyMoveOnClone (st : store) (bs : refBoard) (move : Move)
  : result (store * refBoard) :=
  let* piece := refCell bs (fromZ move) (fromX move) in
  let* bs := setRefCell bs (toZ move) (toX move) piece in
  let* bs := setRefCell bs (fromZ move) (fromX move) None in
  match piece with
  | Some l =>
      match st !! l with
      | Some p =>
          if bool_decide (type p = pawn)
             && ((toZ move =? 0) || (toZ move =? 7))
          then
            let* r := refCell bs (toZ move) (toX move) in
            match r with
            | Some l' =>
                match st !! l' with
                | Some q => Ret (<[l' := mkPiece queen (color q)]> st, bs)
                | None => Throw
                end
            | None => Throw
            end
          else Ret (st, bs)
      | None => Throw
      end
  | None => Ret (st, bs)
  end.

Definition ref_isLegalMove (st : store) (live : refBoard) (move : Move)
           (player : Color) : result (store * bool) :=
  let* from := cell (view st live) (fromZ move) (fromX move) in
  match from with
  | None => Ret (st, false)
  | Some from =>
      if bool_decide (color from <> player) then Ret (st, false)
      else
        let* pl := isPseudoLegal move (view st live) false in
        if negb pl then Ret (st, false)
        else
          let* ' (st1, bsClone) := ref_cloneBoard st live in
          let* ' (st2, bsClone) := ref_applyMoveOnClone st1 bsClone move in
          let* chk := isKingInCheck (view st2 bsClone) player in
          Ret (st2, negb chk)
  end.

(** Every reference of the board leads to an object. *)
Definition noDangling (st : store) (rb : refBoard) : Prop :=
  forall k l, rb !! k = Some l -> is_Some (st !! l).

(** What the fold of [ref_cloneBoard] maintains with respect to the store
    [st0] it started from: old objects are untouched, the copy refers to new
    objects only, and no two cells of the copy share an object. *)
Definition cloneInv (st0 st : store) (c : refBoard) : Prop :=
  (forall l, is_Some (st0 !! l) -> st !! l = st0 !! l)
  /\ (forall k l, c !! k = Some l -> st0 !! l = None /\ is_Some (st !! l))
  /\ (forall k1 k2 l, c !! k1 = Some l -> c !! k2 = Some l -> k1 = k2).

(** ** Notions used in the further properties *)

(** Two boards that hold the same piece on each of the 64 squares. *)
Definition sameSquares (b1 b2 : board) : Prop :=
  forall x z, isInside x z = true -> b1 !! (z, x) = b2 !! (z, x).

(** The test of the first loop of [isKingInCheck]. *)
Definition isKingOf (player : Color) (q : option Piece) : bool :=
  match q with
  | Some p => bool_decide (type p = king) && bool_decide (color p = player)
  | None => false
  end.

(** The squares that hold a king of [player], in scan order, as keys
    [(z, x)]. *)
Definition kingSquares (bs : board) (player : Color) : list (Z * Z) :=
  List.filter (fun k => isKingOf player (bs !! k)) squares.

(** A piece of the other color stands on a square from which
    [generatePseudoMoves] yields the square [(kx, kz)]. *)
Definition attacked (bs : board) (player : Color) (kx kz : Z) : Prop :=
  exists x z p l,
    isInside x z = true /\ bs !! (z, x) = Some p /\ color p <> player
    /\ generatePseudoMoves x z bs = Ret l /\ In (kx, kz) l.

(** Exactly one king of color [c] stands on the 64 squares. *)
Definition oneKing (bs : board) (c : Color) : Prop :=
  exists k, kingSquares bs c = [k].

(** A position of regular play: each side has exactly one king, and the
    side that is not to move is not in check. *)
Definition regular (s : State) : Prop :=
  oneKing (boardState s) white /\ oneKing (boardState s) black
  /\ isKingInCheck (boardState s) (opposite (currentPlayer s)) = Ret false.

(** The term that a square adds to the sum of [evaluateMaterial]. *)
Definition pieceValue (q : option Piece) : Z :=
  match q with
  | Some p =>
      (if bool_decide (color p = white) then 1 else -1) * PIECE_VALUES (type p)
  | None => 0
  end.

(** The sum of the values on a list of squares. *)
Definition material (bs : board) (l : list (Z * Z)) : Z :=
  foldr (fun k acc => pieceValue (bs !! k) + acc) 0 l.

(** A run of move attempts, each made on the state the one before left. *)
Definition playAttempts (s : State) (moves : list Move) : result State :=
  foldM (fun s m => let* ' (s', _) := attemptMove s m in Ret s') moves s.

(** ** The camera

    The view state of the page and the four presets.  A vector is the
    triple of its coordinates.  Whether a click hit a square or a piece is
    decided by the ray caster and is an input here. *)

Abbreviation Vector3 := (Q * Q * Q)%type.

Record Camera := mkCamera {
  is3D : bool;
  autoRotate : bool;
  orientationIndex : Z;
  cameraTarget : Vector3;
  cameraLookTarget : Vector3
}.

Definition setTopCameraTarget (c : Camera) : Camera :=
  mkCamera false false 0 (0, 30, 0.001)%Q (0, 0, 0)%Q.

Definition setNeutral3DTarget (c : Camera) : Camera :=
  mkCamera true (autoRotate c) 0 (8, 12, 8)%Q (0, 0, 0)%Q.

Definition setWhiteFrontTarget (c : Camera) : Camera :=
  mkCamera (is3D c) (autoRotate c) 1 (0, 10, 12)%Q (0, 0, 0)%Q.

Definition setBlackFrontTarget (c : Camera) : Camera :=
  mkCamera (is3D c) (autoRotate c) 2 (0, 10, -12)%Q (0, 0, 0)%Q.

Definition onCanvasDblClick (c : Camera) : Camera :=
  if negb (is3D c) then setNeutral3DTarget c
  else mkCamera (is3D c) (negb (autoRotate c)) (orientationIndex c)
         (cameraTarget c) (cameraLookTarget c).

(** [onObject]: the first hit carries [userData] of a square or of a piece.
    The returned string is the label handed to [showToast], if any. *)
Definition onCanvasClick (c : Camera) (onObject : bool)
  : Camera * option string :=
  if negb (is3D c) then (c, None)
  else if onObject then (c, None)
  else
    let i := Z.rem (orientationIndex c + 1) 3 in
    let c := mkCamera (is3D c) (autoRotate c) i (cameraTarget c)
               (cameraLookTarget c) in
    let c :=
      if i =? 0 then setNeutral3DTarget c
      else if i =? 1 then setWhiteFrontTarget c
      else setBlackFrontTarget c in
    (c,
     Some (if orientationIndex c =? 1 then "White side"
           else if orientationIndex c =? 2 then "Black side"
           else "Neutral")).

(** The preset that belongs to a view. *)
Definition presetOf (c : Camera) : Vector3 :=
  if negb (is3D c) then (0, 30, 0.001)%Q
  else if orientationIndex c =? 0 then (8, 12, 8)%Q
  else if orientationIndex c =? 1 then (0, 10, 12)%Q
  else (0, 10, -12)%Q.

(** The views the page can be in: the board only spins in the 3D view, the
    top view has orientation 0, and the camera heads for the preset of the
    orientation. *)
Definition coherent (c : Camera) : Prop :=
  (autoRotate c = true -> is3D c = true)
  /\ (is3D c = false -> orientationIndex c = 0)
  /\ 0 <= orientationIndex c < 3
  /\ cameraTarget c = presetOf c
  /\ cameraLookTarget c = (0, 0, 0)%Q.

(** * Proofs *)

#[local] Arguments squares : simpl never.

(** ** Outcomes *)

Lemma bind_Ret_inv {A B} (r : result A) (k : A -> result B) (b : B) :
  bind r k = Ret b -> exists a, r = Ret a /\ k a = Ret b.
Proof. destruct r; simpl; intros H; try discriminate. eauto. Qed.

Lemma foldM_app {A S} (f : S -> A -> result S) (l1 l2 : list A) (s : S) :
  foldM f (l1 ++ l2) s = bind (foldM f l1 s) (foldM f l2).
Proof.
  revert s. induction l1 as [|a l1 IH]; intros s; simpl; [reflexivity|].
  destruct (f s a); simpl; auto.
Qed.

(** A loop whose body never fails and keeps an invariant returns, and the
    invariant holds at the end. *)
Lemma foldM_invariant {A S} (P : A -> Prop) (I : S -> Prop)
      (f : S -> A -> result S) (l : list A) (s : S) :
  Forall P l ->
  (forall s a, I s -> P a -> exists s', f s a = Ret s' /\ I s') ->
  I s ->
  exists s', foldM f l s = Ret s' /\ I s'.
Proof.
  intros HP Hf. revert s. induction HP as [|a l Ha _ IH]; intros s Hs; simpl.
  - eauto.
  - destruct (Hf s a Hs Ha) as (s1 & -> & Hs1). simpl. auto.
Qed.

Lemma anyM_total {A} (P : A -> Prop) (f : A -> result bool) (l : list A) :
  Forall P l ->
  (forall a, P a -> exists b, f a = Ret b) ->
  exists b, anyM f l = Ret b.
Proof.
  intros HP Hf. induction HP as [|a l Ha _ IH]; simpl; [eauto|].
  destruct (Hf a Ha) as (b & ->). simpl. destruct b; eauto.
Qed.

(** ** Squares *)

Lemma isInside_spec x z :
  isInside x z = true <-> 0 <= x < 8 /\ 0 <= z < 8.
Proof. unfold isInside. rewrite !andb_true_iff. lia. Qed.

Lemma hasRow_spec z : hasRow z = true <-> 0 <= z < 8.
Proof. unfold hasRow. rewrite andb_true_iff. lia. Qed.

Lemma isInside_hasRow x z : isInside x z = true -> hasRow z = true.
Proof. rewrite isInside_spec, hasRow_spec. lia. Qed.

Lemma In_range8 v : In v range8 <-> 0 <= v < 8.
Proof.
  unfold range8. simpl. split; [intuition lia|]. intros H.
  assert (v = 0 \/ v = 1 \/ v = 2 \/ v = 3 \/ v = 4 \/ v = 5 \/ v = 6 \/ v = 7)
    by lia.
  intuition auto.
Qed.

Lemma In_squares z x : In (z, x) squares <-> isInside x z = true.
Proof.
  unfold squares. rewrite in_flat_map, isInside_spec. split.
  - intros (z' & Hz & Hin). apply in_map_iff in Hin as (x' & Heq & Hx).
    inversion Heq; subst. apply In_range8 in Hz, Hx. lia.
  - intros [Hx Hz]. exists z. split; [apply In_range8; lia|].
    apply in_map_iff. exists x. split; [reflexivity|apply In_range8; lia].
Qed.

Lemma squares_inside :
  Forall (fun '(z, x) => isInside x z = true) squares.
Proof.
  apply List.Forall_forall. intros [z x] H. now apply In_squares.
Qed.

Lemma cell_row (bs : board) z x :
  hasRow z = true -> cell bs z x = Ret (bs !! (z, x)).
Proof. unfold cell. now intros ->. Qed.

Lemma cell_inside (bs : board) z x :
  isInside x z = true -> cell bs z x = Ret (bs !! (z, x)).
Proof. intros H. apply cell_row. eauto using isInside_hasRow. Qed.

Lemma cellGuarded_row (bs : board) z x :
  hasRow z = true -> cellGuarded bs z x = bs !! (z, x).
Proof. unfold cellGuarded. now intros ->. Qed.

Lemma setCell_row (bs : board) z x v :
  hasRow z = true -> setCell bs z x v = Ret (partial_alter (fun _ => v) (z, x) bs).
Proof. unfold setCell. now intros ->. Qed.

Lemma piece_eta (p : Piece) : mkPiece (type p) (color p) = p.
Proof. now destruct p. Qed.

Lemma lookup_put (bs : board) (k j : Z * Z) (v : option Piece) :
  partial_alter (fun _ => v) k bs !! j = if decide (k = j) then v else bs !! j.
Proof. apply lookup_partial_alter. Qed.

(** ** cloneBoard *)

Lemma cloneBoard_fold (bs : board) (l : list (Z * Z)) (acc : board) :
  Forall (fun '(z, x) => isInside x z = true) l ->
  (forall k, acc !! k = None \/ acc !! k = bs !! k) ->
  exists c : board,
    foldM (fun c '(z, x) =>
             let* p := cell bs z x in
             match p with
             | Some p => setCell c z x (Some (mkPiece (type p) (color p)))
             | None => Ret c
             end) l acc = Ret c
    /\ (forall k, In k l -> c !! k = bs !! k)
    /\ (forall k, ~ In k l -> c !! k = acc !! k).
Proof.
  intros Hl. revert acc.
  induction Hl as [|[z x] l Hin _ IH]; intros acc Hacc; simpl.
  - exists acc. intuition.
  - rewrite (cell_inside _ _ _ Hin). simpl.
    set (acc' := match bs !! (z, x) with
                 | Some p => partial_alter (fun _ => Some p) (z, x) acc
                 | None => acc
                 end).
    assert (Hstep : match bs !! (z, x) with
                    | Some p => setCell acc z x (Some (mkPiece (type p) (color p)))
                    | None => Ret acc
                    end = Ret acc').
    { subst acc'. destruct (bs !! (z, x)) as [p|]; [|reflexivity].
      rewrite piece_eta. apply setCell_row. eauto using isInside_hasRow. }
    rewrite Hstep.
    assert (Ha : acc' !! (z, x) = bs !! (z, x)).
    { subst acc'. destruct (bs !! (z, x)) as [p|] eqn:E.
      - rewrite lookup_put. now rewrite decide_True.
      - destruct (Hacc (z, x)) as [H|H]; congruence. }
    assert (Hne : forall k, k <> (z, x) -> acc' !! k = acc !! k).
    { intros k Hk. subst acc'. destruct (bs !! (z, x)); [|reflexivity].
      rewrite lookup_put. now rewrite decide_False by congruence. }
    destruct (IH acc') as (c & Hc & Hin' & Hout').
    { intros k. destruct (decide (k = (z, x))) as [->|Hk].
      - now right.
      - rewrite (Hne k Hk). apply Hacc. }
    exists c. split; [exact Hc|]. split.
    + intros k [<-|Hk].
      * destruct (In_dec (decide_rel (=)) (z, x) l) as [Hi|Hi]; auto.
        rewrite (Hout' _ Hi). exact Ha.
      * auto.
    + intros k Hk. rewrite Hout' by tauto. apply Hne. intros ->. tauto.
Qed.

(** A copy agrees with the original on the 64 squares and holds nothing
    elsewhere. *)
Lemma cloneBoard_ret (bs : board) :
  exists c : board,
    cloneBoard bs = Ret c
    /\ forall z x, c !! (z, x) = if isInside x z then bs !! (z, x) else None.
Proof.
  destruct (cloneBoard_fold bs squares ∅ squares_inside) as (c & Hc & Hin & Hout).
  { intros k. left. apply lookup_empty. }
  exists c. split; [exact Hc|]. intros z x.
  destruct (isInside x z) eqn:E.
  - apply Hin. now apply In_squares.
  - rewrite Hout; [apply lookup_empty|]. rewrite In_squares. congruence.
Qed.

(** ** applyMoveOnClone *)

Lemma applyMoveOnClone_ret (bs : board) (mv : Move) (p : Piece) :
  hasRow (fromZ mv) = true -> hasRow (toZ mv) = true ->
  (fromZ mv, fromX mv) <> (toZ mv, toX mv) ->
  bs !! (fromZ mv, fromX mv) = Some p ->
  exists c : board,
    applyMoveOnClone bs mv = Ret c
    /\ c !! (toZ mv, toX mv) = Some (promoted p (toZ mv))
    /\ c !! (fromZ mv, fromX mv) = None
    /\ forall k, k <> (toZ mv, toX mv) -> k <> (fromZ mv, fromX mv) ->
                 c !! k = bs !! k.
Proof.
  intros Hf Ht Hne Hp. unfold applyMoveOnClone.
  rewrite (cell_row _ _ _ Hf), Hp. simpl.
  rewrite (setCell_row _ _ _ _ Ht). simpl.
  rewrite (setCell_row _ _ _ _ Hf). simpl.
  unfold promoted.
  destruct (bool_decide (type p = pawn) && ((toZ mv =? 0) || (toZ mv =? 7))).
  - rewrite (cell_row _ _ _ Ht). simpl.
    rewrite lookup_put, decide_False by congruence.
    rewrite lookup_put, decide_True by reflexivity.
    rewrite (setCell_row _ _ _ _ Ht).
    eexists. split; [reflexivity|]. split; [|split].
    + now rewrite lookup_put, decide_True.
    + rewrite lookup_put, decide_False by congruence.
      now rewrite lookup_put, decide_True.
    + intros k H1 H2. now rewrite !lookup_put, !decide_False by congruence.
  - eexists. split; [reflexivity|]. split; [|split].
    + rewrite lookup_put, decide_False by congruence.
      now rewrite lookup_put, decide_True.
    + now rewrite lookup_put, decide_True.
    + intros k H1 H2. now rewrite !lookup_put, !decide_False by congruence.
Qed.

(** ** isPathClear *)

Lemma isPathClear_loop_aligned (bs : board) (sx sz tX tZ : Z) :
  unitStep sx -> unitStep sz -> (sx <> 0 \/ sz <> 0) ->
  forall (k fuel : nat) (x z : Z),
    tX = x + Z.of_nat k * sx -> tZ = z + Z.of_nat k * sz ->
    (forall j, 0 <= j < Z.of_nat k -> hasRow (z + j * sz) = true) ->
    (k <= fuel)%nat ->
    exists b, isPathClear_loop fuel bs sx sz tX tZ x z = Ret b
              /\ (b = true <->
                  forall j, 0 <= j < Z.of_nat k ->
                            bs !! (z + j * sz, x + j * sx) = None).
Proof.
  intros Hsx Hsz Hnz. induction k as [|k IH]; intros fuel x z HX HZ Hrows Hfuel.
  - assert (x = tX /\ z = tZ) as [-> ->] by lia.
    destruct fuel; simpl; rewrite !Z.eqb_refl; simpl;
      (exists true; split; [reflexivity|]; split; [intros _ j Hj; lia|auto]).
  - destruct fuel as [|fuel]; [lia|].
    assert (Hcond : (x =? tX) && (z =? tZ) = false).
    { apply andb_false_iff. rewrite !Z.eqb_neq.
      destruct Hsx as [->|[->| ->]], Hsz as [->|[->| ->]]; lia. }
    simpl. rewrite Hcond. simpl.
    assert (Hrow0 : hasRow z = true).
    { specialize (Hrows 0). rewrite Z.mul_0_l, Z.add_0_r in Hrows.
      apply Hrows. lia. }
    rewrite (cell_row _ _ _ Hrow0). simpl.
    destruct (bs !! (z, x)) as [q|] eqn:Hq; simpl.
    + exists false. split; [reflexivity|]. split; [discriminate|].
      intros H. specialize (H 0). rewrite !Z.mul_0_l, !Z.add_0_r in H.
      rewrite Hq in H. discriminate H. lia.
    + destruct (IH fuel (x + sx) (z + sz)) as (b & Hb & Hiff); try lia.
      { intros j Hj. replace (z + sz + j * sz) with (z + (j + 1) * sz) by lia.
        apply Hrows. lia. }
      exists b. split; [exact Hb|]. rewrite Hiff. split.
      * intros H j Hj. destruct (decide (j = 0)) as [->|Hj0].
        -- now rewrite !Z.mul_0_l, !Z.add_0_r.
        -- specialize (H (j - 1)).
           replace (z + sz + (j - 1) * sz) with (z + j * sz) in H by lia.
           replace (x + sx + (j - 1) * sx) with (x + j * sx) in H by lia.
           apply H. lia.
      * intros H j Hj. specialize (H (j + 1)).
        replace (z + (j + 1) * sz) with (z + sz + j * sz) in H by lia.
        replace (x + (j + 1) * sx) with (x + sx + j * sx) in H by lia.
        apply H. lia.
Qed.

(** Between two squares on existing rows that share a row, a column or a
    diagonal, [isPathClear] returns, and tells whether every square strictly
    between them is empty. *)
Lemma isPathClear_aligned (bs : board) (fX fZ tX tZ : Z) :
  hasRow fZ = true -> hasRow tZ = true ->
  (tX - fX = 0 \/ tZ - fZ = 0 \/ Z.abs (tX - fX) = Z.abs (tZ - fZ)) ->
  exists b, isPathClear bs fX fZ tX tZ = Ret b
            /\ (b = true <->
                pathEmpty bs fX fZ (Z.sgn (tX - fX)) (Z.sgn (tZ - fZ))
                          (Z.max (Z.abs (tX - fX)) (Z.abs (tZ - fZ)))).
Proof.
  intros Hf Ht Hal. apply hasRow_spec in Hf, Ht. unfold isPathClear, pathEmpty.
  set (sx := Z.sgn (tX - fX)). set (sz := Z.sgn (tZ - fZ)).
  set (k := Z.max (Z.abs (tX - fX)) (Z.abs (tZ - fZ))).
  destruct (decide (k = 0)) as [Hk0|Hk0].
  - assert (tX = fX /\ tZ = fZ) as [-> ->] by lia.
    subst sx sz. rewrite !Z.sub_diag. simpl. rewrite !Z.add_0_r.
    unfold pathFuel. rewrite Z.sub_diag. simpl. rewrite !Z.eqb_refl. simpl.
    exists true. split; [reflexivity|]. split; [intros _ j Hj; lia|auto].
  - assert (Hsx : unitStep sx) by (unfold unitStep; lia).
    assert (Hsz : unitStep sz) by (unfold unitStep; lia).
    assert (HtX : tX = fX + k * sx) by lia.
    assert (HtZ : tZ = fZ + k * sz) by lia.
    destruct (isPathClear_loop_aligned bs sx sz tX tZ Hsx Hsz ltac:(lia)
                (Z.to_nat (k - 1)) (pathFuel fX tX) (fX + sx) (fZ + sz))
      as (b & Hb & Hiff).
    + rewrite Z2Nat.id by lia. lia.
    + rewrite Z2Nat.id by lia. lia.
    + rewrite Z2Nat.id by lia. intros j Hj. apply hasRow_spec.
      destruct Hsz as [E|[E|E]]; rewrite E in *; lia.
    + unfold pathFuel. lia.
    + exists b. split; [exact Hb|]. rewrite Hiff, Z2Nat.id by lia. split.
      * intros H j Hj. specialize (H (j - 1)).
        replace (fZ + sz + (j - 1) * sz) with (fZ + j * sz) in H by lia.
        replace (fX + sx + (j - 1) * sx) with (fX + j * sx) in H by lia.
        apply H. lia.
      * intros H j Hj. specialize (H (j + 1)).
        replace (fZ + (j + 1) * sz) with (fZ + sz + j * sz) in H by lia.
        replace (fX + (j + 1) * sx) with (fX + sx + j * sx) in H by lia.
        apply H. lia.
Qed.

(** ** isPseudoLegal returns on the board *)

Lemma isPseudoLegal_total (bs : board) (mv : Move) (forCheck : bool) :
  hasRow (fromZ mv) = true -> hasRow (toZ mv) = true ->
  exists b, isPseudoLegal mv bs forCheck = Ret b.
Proof.
  intros Hf Ht. unfold isPseudoLegal.
  destruct (cellGuarded bs (fromZ mv) (fromX mv)) as [p|]; [|eauto].
  cbv zeta.
  destruct (negb forCheck && sameColor _ p); [eauto|].
  assert (Hpath : forall (c : bool),
             c = true ->
             (toX mv - fromX mv = 0 \/ toZ mv - fromZ mv = 0
              \/ Z.abs (toX mv - fromX mv) = Z.abs (toZ mv - fromZ mv)) ->
             exists b, isPathClear bs (fromX mv) (fromZ mv) (toX mv) (toZ mv)
                       = Ret b).
  { intros c _ Hal.
    destruct (isPathClear_aligned bs _ _ _ _ Hf Ht Hal) as (b & Hb & _). eauto. }
  destruct (type p).
  - (* pawn *)
    destruct (toX mv - fromX mv =? 0).
    + destruct ((toZ mv - fromZ mv =? _) && negb _); [eauto|].
      destruct ((toZ mv - fromZ mv =? _) && (fromZ mv =? _) && negb _) eqn:E;
        [|eauto].
      apply andb_true_iff in E as [E _]. apply andb_true_iff in E as [_ E].
      apply Z.eqb_eq in E.
      rewrite cell_row.
      * simpl. destruct (negb _); eauto.
      * apply hasRow_spec. destruct (bool_decide (color p = white)); lia.
    + destruct (_ && _); [|eauto]. destruct (otherColor _ _); eauto.
  - eauto.
  - (* bishop *)
    destruct (negb _) eqn:E; [eauto|]. apply negb_false_iff, Z.eqb_eq in E.
    apply (Hpath true); auto.
  - (* rook *)
    destruct (negb _ && negb _) eqn:E; [eauto|].
    apply (Hpath true); auto. apply andb_false_iff in E.
    rewrite !negb_false_iff, !Z.eqb_eq in E. tauto.
  - (* queen *)
    destruct (_ || _ || _) eqn:E; [|eauto].
    apply (Hpath true); auto. rewrite !orb_true_iff, !Z.eqb_eq in E. tauto.
  - eauto.
Qed.

(** ** isKingInCheck *)

Lemma findKing_ret (bs : board) (player : Color) :
  exists kx kz, findKing bs player = Ret (kx, kz)
                /\ (kx = -1 \/ isInside kx kz = true).
Proof.
  destruct (foldM_invariant
              (fun '(z, x) => isInside x z = true)
              (fun '(kx, kz) => kx = -1 \/ isInside kx kz = true)
              (fun '(kx, kz) '(z, x) =>
                 let* c := cell bs z x in
                 match c with
                 | Some p =>
                     if bool_decide (type p = king)
                        && bool_decide (color p = player)
                     then Ret (x, z) else Ret (kx, kz)
                 | None => Ret (kx, kz)
                 end)
              squares (-1, -1) squares_inside)
    as ([kx kz] & H & HI).
  - intros [kx kz] [z x] HI Hin. rewrite (cell_inside _ _ _ Hin). simpl.
    destruct (bs !! (z, x)) as [p|];
      [destruct (_ && _)|]; (eexists; split; [reflexivity|]; simpl; auto).
  - now left.
  - exists kx, kz. split; [exact H|exact HI].
Qed.

Lemma findKing_absent (bs : board) (player : Color) :
  (forall x z p, isInside x z = true -> bs !! (z, x) = Some p ->
                 ~ (type p = king /\ color p = player)) ->
  findKing bs player = Ret (-1, -1).
Proof.
  intros Hno.
  destruct (foldM_invariant
              (fun '(z, x) => isInside x z = true)
              (fun k => k = (-1, -1))
              (fun '(kx, kz) '(z, x) =>
                 let* c := cell bs z x in
                 match c with
                 | Some p =>
                     if bool_decide (type p = king)
                        && bool_decide (color p = player)
                     then Ret (x, z) else Ret (kx, kz)
                 | None => Ret (kx, kz)
                 end)
              squares (-1, -1) squares_inside)
    as (k & H & ->); [| reflexivity | exact H].
  intros [kx kz] [z x] HI Hin. rewrite (cell_inside _ _ _ Hin). simpl.
  destruct (bs !! (z, x)) as [p|] eqn:Hp; [|eauto].
  destruct (bool_decide (type p = king) && bool_decide (color p = player)) eqn:E;
    [|eauto].
  apply andb_true_iff in E as [E1 E2].
  apply bool_decide_eq_true in E1, E2.
  exfalso. exact (Hno x z p Hin Hp (conj E1 E2)).
Qed.

Lemma isKingInCheck_unfold (bs : board) (player : Color) :
  isKingInCheck bs player =
  let* ' (kx, kz) := findKing bs player in
  if kx =? -1 then Ret true
  else
    let opponent := if bool_decide (player = white) then black else white in
    anyM (fun '(z, x) =>
            let* c := cell bs z x in
            match c with
            | Some p =>
                if bool_decide (color p = opponent)
                then isPseudoLegal (mkMove x z kx kz) bs true
                else Ret false
            | None => Ret false
            end)
         squares.
Proof. reflexivity. Qed.

Lemma isKingInCheck_total (bs : board) (player : Color) :
  exists b, isKingInCheck bs player = Ret b.
Proof.
  rewrite isKingInCheck_unfold.
  destruct (findKing_ret bs player) as (kx & kz & -> & HI). cbn [bind].
  destruct (kx =? -1) eqn:E; [eauto|].
  apply Z.eqb_neq in E. destruct HI as [HI|HI]; [contradiction|].
  apply (anyM_total (fun '(z, x) => isInside x z = true)); [apply squares_inside|].
  intros [z x] Hin. rewrite (cell_inside _ _ _ Hin). simpl.
  destruct (bs !! (z, x)) as [p|]; [|eauto].
  destruct (bool_decide _); [|eauto].
  apply isPseudoLegal_total; simpl; eauto using isInside_hasRow.
Qed.

(** ** isLegalMove *)

Lemma isPseudoLegal_true_moves (bs : board) (mv : Move) :
  isPseudoLegal mv bs false = Ret true ->
  (fromZ mv, fromX mv) <> (toZ mv, toX mv).
Proof.
  unfold isPseudoLegal. intros H Heq. inversion Heq as [[Hz Hx]].
  rewrite <- Hz, <- Hx in H.
  destruct (cellGuarded bs (fromZ mv) (fromX mv)) as [p|]; [|discriminate].
  cbv zeta in H. simpl in H. rewrite bool_decide_eq_true_2 in H by reflexivity.
  discriminate.
Qed.

Lemma isLegalMove_on_board (bs : board) (mv : Move) (player : Color) :
  isInside (fromX mv) (fromZ mv) = true ->
  isInside (toX mv) (toZ mv) = true ->
  exists b, isLegalMove bs mv player = Ret b
            /\ (b = true <-> legalConditions bs mv player).
Proof.
  intros Hf Ht. unfold isLegalMove, legalConditions.
  rewrite (cell_inside _ _ _ Hf). simpl.
  destruct (bs !! (fromZ mv, fromX mv)) as [p|] eqn:Hp.
  2:{ exists false. split; [reflexivity|]. split; [discriminate|].
      intros ((q & Hq & _) & _). discriminate. }
  destruct (bool_decide (color p <> player)) eqn:Hc.
  { exists false. split; [reflexivity|]. split; [discriminate|].
    intros ((q & Hq & Hcol) & _). apply bool_decide_eq_true in Hc. congruence. }
  apply bool_decide_eq_false in Hc. apply dec_stable in Hc.
  destruct (isPseudoLegal_total bs mv false) as (pl & Hpl);
    eauto using isInside_hasRow.
  rewrite Hpl. simpl. destruct pl; simpl.
  2:{ exists false. split; [reflexivity|]. split; [discriminate|].
      intros (_ & H & _). discriminate. }
  destruct (cloneBoard_ret bs) as (c & Hclone & Hcl). rewrite Hclone. simpl.
  destruct (applyMoveOnClone_ret c mv p) as (c' & Happ & _);
    eauto using isInside_hasRow, isPseudoLegal_true_moves.
  { rewrite Hcl, Hf. exact Hp. }
  rewrite Happ. simpl.
  destruct (isKingInCheck_total c' player) as (chk & Hchk). rewrite Hchk. simpl.
  exists (negb chk). split; [reflexivity|]. split.
  - intros E. apply negb_true_iff in E. subst chk.
    split; [eauto|]. split; [reflexivity|]. eauto.
  - intros (_ & _ & (c1 & c1' & H1 & H2 & H3)).
    assert (c1 = c) by congruence. subst c1.
    assert (c1' = c') by congruence. subst c1'.
    assert (chk = false) by congruence. now subst chk.
Qed.

(** ** The generator, piece by piece *)

Lemma collectM_In {A B} (f : A -> result (list B)) (Q : A -> B -> Prop)
      (l : list A) :
  (forall a, In a l -> exists r, f a = Ret r /\ forall b, In b r <-> Q a b) ->
  exists r, collectM f l = Ret r
            /\ forall b, In b r <-> exists a, In a l /\ Q a b.
Proof.
  induction l as [|a l IH]; intros Hf; simpl.
  - exists []. split; [reflexivity|]. intros b. simpl. split; [tauto|].
    intros (a & [] & _).
  - destruct (Hf a (or_introl eq_refl)) as (ra & -> & Ha). simpl.
    destruct IH as (rl & -> & Hl); [intros a' Ha'; apply Hf; now right|].
    simpl. exists (ra ++ rl). split; [reflexivity|]. intros b.
    rewrite in_app_iff, Ha, Hl. split.
    + intros [H|(a' & Hin & H)]; eauto.
    + intros (a' & [<-|Hin] & H); eauto.
Qed.

Lemma freeFor_sameColor (q : option Piece) (p : Piece) :
  freeFor q (color p) = negb (sameColor q p).
Proof.
  unfold freeFor, sameColor, otherColor. destruct q as [t|]; simpl; [|reflexivity].
  repeat case_bool_decide; simpl; congruence.
Qed.

Lemma pushIfFree_spec (bs : board) (c : Color) (nx nz : Z) :
  exists r, pushIfFree bs c nx nz = Ret r
            /\ forall t, In t r <->
                         t = (nx, nz) /\ isInside nx nz = true
                         /\ freeFor (bs !! (nz, nx)) c = true.
Proof.
  unfold pushIfFree. destruct (isInside nx nz) eqn:Hin.
  - rewrite (cell_inside _ _ _ Hin). simpl. fold (freeFor (bs !! (nz, nx)) c).
    destruct (freeFor _ c); eexists; (split; [reflexivity|]); intros t; simpl;
      intuition (try discriminate; auto).
  - eexists. split; [reflexivity|]. intros t. simpl.
    intuition (try discriminate; auto).
Qed.

(** One walk of a sliding piece of color [c] over [bs], in a fixed direction
    that is one of the eight unit steps. *)
Section Walk.
Context (bs : board) (c : Color) (dx dz : Z).
Context (Hdx : unitStep dx) (Hdz : unitStep dz) (Hnz : dx <> 0 \/ dz <> 0).

Lemma slide_spec (fuel : nat) :
  forall nx nz : Z,
    (isInside nx nz = true -> stepsLeft dx dz nx nz <= Z.of_nat fuel) ->
    exists r, slide fuel bs c dx dz nx nz = Ret r
              /\ forall t, In t r <-> reached bs c dx dz nx nz t.
Proof.
  induction fuel as [|fuel IH]; intros nx nz Hfuel.
  - destruct (isInside nx nz) eqn:Hin.
    + exfalso. specialize (Hfuel eq_refl). apply isInside_spec in Hin.
      unfold stepsLeft in Hfuel.
      destruct Hdx as [->|[->| ->]], Hdz as [->|[->| ->]]; simpl in Hfuel; lia.
    + exists []. simpl. rewrite Hin. split; [reflexivity|]. intros t. simpl.
      split; [tauto|]. intros (k & _ & _ & H & _). congruence.
  - simpl. destruct (isInside nx nz) eqn:Hin.
    2:{ exists []. split; [reflexivity|]. intros t. simpl.
        split; [tauto|]. intros (k & _ & _ & H & _). congruence. }
    rewrite (cell_inside _ _ _ Hin). simpl.
    destruct (bs !! (nz, nx)) as [q|] eqn:Hq; cbn [bind isSome negb].
    + (* blocked: the square is pushed only for the other color *)
      assert (Hk0 : forall t, reached bs c dx dz nx nz t <->
                              t = (nx, nz) /\ otherColor (Some q) c = true).
      { intros t. split.
        - intros (k & Hk & -> & _ & _ & Hemp & Hfree).
          destruct (decide (k = 0)) as [->|Hne].
          + rewrite !Z.mul_0_l, !Z.add_0_r in *. rewrite Hq in Hfree.
            unfold freeFor in Hfree. simpl in Hfree. auto.
          + specialize (Hemp 0). rewrite !Z.mul_0_l, !Z.add_0_r in Hemp.
            rewrite Hq in Hemp. discriminate Hemp. lia.
        - intros [-> Ho]. exists 0. rewrite !Z.mul_0_l, !Z.add_0_r.
          repeat split; auto; try lia.
          rewrite Hq. unfold freeFor. now rewrite Ho. }
      destruct (otherColor (Some q) c) eqn:Ho.
      * exists [(nx, nz)]. split; [reflexivity|]. intros t. rewrite Hk0. simpl.
        intuition auto.
      * exists []. split; [reflexivity|]. intros t. rewrite Hk0. simpl.
        intuition discriminate.
    + destruct (IH (nx + dx) (nz + dz)) as (r & -> & Hr).
      { intros Hin'. specialize (Hfuel eq_refl). unfold stepsLeft in *.
        destruct Hdx as [->|[->| ->]], Hdz as [->|[->| ->]]; simpl in *; lia. }
      simpl. exists ((nx, nz) :: r). split; [reflexivity|]. intros t. simpl.
      rewrite Hr. split.
      * intros [<-|(k & Hk & -> & Hin1 & Hin2 & Hemp & Hfree)].
        -- exists 0. rewrite !Z.mul_0_l, !Z.add_0_r.
           repeat split; auto; try lia. now rewrite Hq.
        -- exists (k + 1).
           replace (nx + (k + 1) * dx) with (nx + dx + k * dx) by lia.
           replace (nz + (k + 1) * dz) with (nz + dz + k * dz) by lia.
           repeat split; auto; try lia.
           intros j Hj. destruct (decide (j = 0)) as [->|Hj0].
           ++ now rewrite !Z.mul_0_l, !Z.add_0_r.
           ++ specialize (Hemp (j - 1)).
              replace (nz + dz + (j - 1) * dz) with (nz + j * dz) in Hemp by lia.
              replace (nx + dx + (j - 1) * dx) with (nx + j * dx) in Hemp by lia.
              apply Hemp. lia.
      * intros (k & Hk & -> & _ & Hin2 & Hemp & Hfree).
        destruct (decide (k = 0)) as [->|Hne].
        -- left. now rewrite !Z.mul_0_l, !Z.add_0_r.
        -- right. exists (k - 1).
           replace (nx + dx + (k - 1) * dx) with (nx + k * dx) by lia.
           replace (nz + dz + (k - 1) * dz) with (nz + k * dz) by lia.
           repeat split; auto; try lia.
           ++ apply isInside_spec in Hin, Hin2. apply isInside_spec.
              destruct Hdx as [->|[->| ->]], Hdz as [->|[->| ->]]; lia.
           ++ intros j Hj. specialize (Hemp (j + 1)).
              replace (nz + (j + 1) * dz) with (nz + dz + j * dz) in Hemp by lia.
              replace (nx + (j + 1) * dx) with (nx + dx + j * dx) in Hemp by lia.
              apply Hemp. lia.
Qed.

Lemma reached_from_source (x z tx tz : Z) :
  isInside x z = true -> isInside tx tz = true ->
  reached bs c dx dz (x + dx) (z + dz) (tx, tz) <->
  (exists m, 1 <= m /\ tx = x + m * dx /\ tz = z + m * dz
             /\ pathEmpty bs x z dx dz m)
  /\ freeFor (bs !! (tz, tx)) c = true.
Proof.
  intros Hs Ht. unfold reached, pathEmpty. split.
  - intros (k & Hk & Heq & _ & _ & Hemp & Hfree). inversion Heq; subst tx tz.
    split; [|exact Hfree]. exists (k + 1). repeat split; try lia.
    intros j Hj. specialize (Hemp (j - 1)).
    replace (z + dz + (j - 1) * dz) with (z + j * dz) in Hemp by lia.
    replace (x + dx + (j - 1) * dx) with (x + j * dx) in Hemp by lia.
    apply Hemp. lia.
  - intros ((m & Hm & -> & -> & Hemp) & Hfree). exists (m - 1).
    replace (x + dx + (m - 1) * dx) with (x + m * dx) by lia.
    replace (z + dz + (m - 1) * dz) with (z + m * dz) by lia.
    repeat split; auto; try lia.
    + apply isInside_spec in Hs, Ht. apply isInside_spec.
      destruct Hdx as [->|[->| ->]], Hdz as [->|[->| ->]]; lia.
    + intros j Hj. specialize (Hemp (j + 1)).
      replace (z + (j + 1) * dz) with (z + dz + j * dz) in Hemp by lia.
      replace (x + (j + 1) * dx) with (x + dx + j * dx) in Hemp by lia.
      apply Hemp. lia.
Qed.

End Walk.

Lemma delta_of_steps (dx dz m D E : Z) :
  unitStep dx -> unitStep dz -> (dx <> 0 \/ dz <> 0) -> 1 <= m ->
  D = m * dx -> E = m * dz ->
  Z.sgn D = dx /\ Z.sgn E = dz /\ Z.max (Z.abs D) (Z.abs E) = m
  /\ (D <> 0 \/ E <> 0) /\ (D = 0 \/ E = 0 \/ Z.abs D = Z.abs E).
Proof.
  intros Hdx Hdz Hnz Hm -> ->.
  destruct Hdx as [->|[->| ->]], Hdz as [->|[->| ->]]; lia.
Qed.

Lemma steps_of_delta (D E : Z) :
  (D = 0 \/ E = 0 \/ Z.abs D = Z.abs E) -> (D <> 0 \/ E <> 0) ->
  let m := Z.max (Z.abs D) (Z.abs E) in
  1 <= m /\ D = m * Z.sgn D /\ E = m * Z.sgn E
  /\ unitStep (Z.sgn D) /\ unitStep (Z.sgn E)
  /\ (Z.sgn D <> 0 \/ Z.sgn E <> 0).
Proof.
  intros Hal Hnz. unfold unitStep.
  destruct (Z.sgn_spec D) as [[? ->]|[[? ->]|[? ->]]],
           (Z.sgn_spec E) as [[? ->]|[[? ->]|[? ->]]]; lia.
Qed.

(** The squares pushed by the walks along [dirs] from an inside square. *)
Lemma slides_reach (bs : board) (c : Color) (dirs : list (Z * Z))
      (al : Z -> Z -> Prop) (x z tx tz : Z) :
  (forall dx dz, In (dx, dz) dirs ->
                 unitStep dx /\ unitStep dz /\ (dx <> 0 \/ dz <> 0)) ->
  (forall D E, D <> 0 \/ E <> 0 ->
               (al D E <-> (D = 0 \/ E = 0 \/ Z.abs D = Z.abs E)
                           /\ In (Z.sgn D, Z.sgn E) dirs)) ->
  isInside x z = true -> isInside tx tz = true ->
  (exists d, In d dirs
             /\ (let '(dx, dz) := d in
                 reached bs c dx dz (x + dx) (z + dz)) (tx, tz)) <->
  (tx - x <> 0 \/ tz - z <> 0) /\ al (tx - x) (tz - z)
  /\ pathEmpty bs x z (Z.sgn (tx - x)) (Z.sgn (tz - z))
               (Z.max (Z.abs (tx - x)) (Z.abs (tz - z)))
  /\ freeFor (bs !! (tz, tx)) c = true.
Proof.
  intros Hunit Hal Hs Ht. split.
  - intros ([dx dz] & Hin & Hr).
    destruct (Hunit _ _ Hin) as (Hdx & Hdz & Hnz).
    apply reached_from_source in Hr as ((m & Hm & HX & HZ & Hemp) & Hfree); auto.
    destruct (delta_of_steps dx dz m (tx - x) (tz - z))
      as (Hsx & Hsz & Hmax & Hne & Hali); auto; try lia.
    rewrite Hsx, Hsz, Hmax. repeat split; auto.
    apply Hal; auto. now rewrite Hsx, Hsz.
  - intros (Hne & Ha & Hemp & Hfree). apply Hal in Ha as [Hali Hin]; auto.
    destruct (steps_of_delta _ _ Hali Hne) as (Hm & HD & HE & Hdx & Hdz & Hnz).
    exists (Z.sgn (tx - x), Z.sgn (tz - z)). split; [exact Hin|].
    apply reached_from_source; auto. split; [|exact Hfree].
    eexists. split; [exact Hm|]. repeat split; [lia|lia|exact Hemp].
Qed.

Lemma rookDirs_unit dx dz :
  In (dx, dz) rookDirs -> unitStep dx /\ unitStep dz /\ (dx <> 0 \/ dz <> 0).
Proof.
  unfold rookDirs, unitStep. simpl.
  intros [H|[H|[H|[H|[]]]]]; inversion H; lia.
Qed.

Lemma bishopDirs_unit dx dz :
  In (dx, dz) bishopDirs -> unitStep dx /\ unitStep dz /\ (dx <> 0 \/ dz <> 0).
Proof.
  unfold bishopDirs, unitStep. simpl.
  intros [H|[H|[H|[H|[]]]]]; inversion H; lia.
Qed.

Lemma queenDirs_unit dx dz :
  In (dx, dz) queenDirs -> unitStep dx /\ unitStep dz /\ (dx <> 0 \/ dz <> 0).
Proof.
  unfold queenDirs, unitStep. simpl.
  intros [H|[H|[H|[H|[H|[H|[H|[H|[]]]]]]]]]; inversion H; lia.
Qed.

Ltac sign_cases D E :=
  destruct (Z.sgn_spec D) as [[? ->]|[[? ->]|[? ->]]],
           (Z.sgn_spec E) as [[? ->]|[[? ->]|[? ->]]].

Lemma rookDirs_aligned D E :
  D <> 0 \/ E <> 0 ->
  (D = 0 \/ E = 0) <->
  (D = 0 \/ E = 0 \/ Z.abs D = Z.abs E) /\ In (Z.sgn D, Z.sgn E) rookDirs.
Proof.
  intros Hne. unfold rookDirs. simpl.
  sign_cases D E; split; intros Hyp; try lia;
    try (split; [lia|tauto]);
    try (destruct Hyp as [_ Hyp]; repeat destruct Hyp as [Hyp|Hyp];
         try discriminate Hyp; try contradiction; lia).
Qed.

Lemma bishopDirs_aligned D E :
  D <> 0 \/ E <> 0 ->
  Z.abs D = Z.abs E <->
  (D = 0 \/ E = 0 \/ Z.abs D = Z.abs E) /\ In (Z.sgn D, Z.sgn E) bishopDirs.
Proof.
  intros Hne. unfold bishopDirs. simpl.
  sign_cases D E; split; intros Hyp; try lia;
    try (split; [lia|tauto]);
    try (destruct Hyp as [_ Hyp]; repeat destruct Hyp as [Hyp|Hyp];
         try discriminate Hyp; try contradiction; lia).
Qed.

Lemma queenDirs_aligned D E :
  D <> 0 \/ E <> 0 ->
  (D = 0 \/ E = 0 \/ Z.abs D = Z.abs E) <->
  (D = 0 \/ E = 0 \/ Z.abs D = Z.abs E) /\ In (Z.sgn D, Z.sgn E) queenDirs.
Proof.
  intros Hne. unfold queenDirs. simpl.
  sign_cases D E; split; intros Hyp; try lia; try tauto;
    try (split; [lia|tauto]).
Qed.

Lemma stepsLeft_bound dx dz nx nz :
  unitStep dx -> unitStep dz -> isInside nx nz = true ->
  stepsLeft dx dz nx nz <= 8.
Proof.
  intros Hdx Hdz Hin. apply isInside_spec in Hin. unfold stepsLeft.
  destruct Hdx as [->|[->| ->]], Hdz as [->|[->| ->]]; simpl; lia.
Qed.

Lemma sameColor_self_moved (bs : board) (x z tx tz : Z) (p : Piece) :
  bs !! (z, x) = Some p -> sameColor (bs !! (tz, tx)) p = false ->
  tx - x <> 0 \/ tz - z <> 0.
Proof.
  intros Hp Hs. destruct (decide (tx = x)) as [->|]; [|lia].
  destruct (decide (tz = z)) as [->|]; [|lia].
  rewrite Hp in Hs. simpl in Hs.
  now rewrite bool_decide_eq_true_2 in Hs.
Qed.

Lemma slides_ret (bs : board) (c : Color) (dirs : list (Z * Z)) (x z : Z) :
  (forall dx dz, In (dx, dz) dirs ->
                 unitStep dx /\ unitStep dz /\ (dx <> 0 \/ dz <> 0)) ->
  exists l,
    collectM (fun '(dx, dz) => slide 8 bs c dx dz (x + dx) (z + dz)) dirs = Ret l
    /\ forall t, In t l <->
                 exists d, In d dirs
                           /\ (let '(dx, dz) := d in
                               reached bs c dx dz (x + dx) (z + dz)) t.
Proof.
  intros Hunit.
  apply (collectM_In
           (fun '(dx, dz) => slide 8 bs c dx dz (x + dx) (z + dz))
           (fun '(dx, dz) => reached bs c dx dz (x + dx) (z + dz))).
  intros [dx dz] Hd. destruct (Hunit _ _ Hd) as (Hdx & Hdz & Hnz).
  apply slide_spec; auto. intros Hin. simpl.
  now apply stepsLeft_bound.
Qed.

(** The sliding pieces: the walks along [dirs] push a square exactly when
    the predicate accepts it. *)
Lemma slider_case (bs : board) (dirs : list (Z * Z)) (al : Z -> Z -> Prop)
      (alb : bool) (x z tx tz : Z) (p : Piece) :
  (forall dx dz, In (dx, dz) dirs ->
                 unitStep dx /\ unitStep dz /\ (dx <> 0 \/ dz <> 0)) ->
  (forall D E, D <> 0 \/ E <> 0 ->
               (al D E <-> (D = 0 \/ E = 0 \/ Z.abs D = Z.abs E)
                           /\ In (Z.sgn D, Z.sgn E) dirs)) ->
  isInside x z = true -> isInside tx tz = true ->
  bs !! (z, x) = Some p ->
  (alb = true <-> al (tx - x) (tz - z)) ->
  (alb = true ->
   tx - x = 0 \/ tz - z = 0 \/ Z.abs (tx - x) = Z.abs (tz - z)) ->
  exists l,
    collectM (fun '(dx, dz) => slide 8 bs (color p) dx dz (x + dx) (z + dz)) dirs
    = Ret l
    /\ (In (tx, tz) l <->
        (if sameColor (bs !! (tz, tx)) p then Ret false
         else if alb then isPathClear bs x z tx tz else Ret false) = Ret true).
Proof.
  intros Hunit Hal Hs Ht Hp Halb Hali.
  destruct (slides_ret bs (color p) dirs x z Hunit) as (l & Hl & HIn).
  exists l. split; [exact Hl|]. rewrite HIn.
  rewrite (slides_reach bs (color p) dirs al x z tx tz Hunit Hal Hs Ht).
  rewrite freeFor_sameColor.
  destruct (sameColor (bs !! (tz, tx)) p) eqn:Hsame.
  { simpl. split; [intros (_ & _ & _ & H); discriminate|discriminate]. }
  pose proof (sameColor_self_moved bs x z tx tz p Hp Hsame) as Hne.
  destruct alb.
  - destruct (isPathClear_aligned bs x z tx tz) as (b & -> & Hb);
      eauto using isInside_hasRow.
    split.
    + intros (_ & _ & Hemp & _). f_equal. now apply Hb.
    + intros E. inversion E; subst b. repeat split; auto.
      * now apply Halb.
      * now apply Hb.
  - split; [|discriminate]. intros (_ & Ha & _). apply Halb in Ha. discriminate.
Qed.

Lemma knightJumps_spec d1 d2 :
  In (d1, d2) knightJumps <->
  (Z.abs d1 = 1 /\ Z.abs d2 = 2) \/ (Z.abs d1 = 2 /\ Z.abs d2 = 1).
Proof.
  unfold knightJumps. simpl. split.
  - intros H. repeat destruct H as [H|H]; try contradiction; inversion H; lia.
  - intros [[H1 H2]|[H1 H2]].
    + assert (d1 = 1 \/ d1 = -1) as [-> | ->] by lia;
        assert (d2 = 2 \/ d2 = -2) as [-> | ->] by lia; tauto.
    + assert (d1 = 2 \/ d1 = -2) as [-> | ->] by lia;
        assert (d2 = 1 \/ d2 = -1) as [-> | ->] by lia; tauto.
Qed.

Lemma knight_moves (bs : board) (c : Color) (x z : Z) :
  exists l,
    collectM (fun '(dx, dz) => pushIfFree bs c (x + dx) (z + dz)) knightJumps
    = Ret l
    /\ forall t, In t l <->
                 exists d, In d knightJumps
                           /\ (let '(dx, dz) := d in
                               fun t => t = (x + dx, z + dz)
                                        /\ isInside (x + dx) (z + dz) = true
                                        /\ freeFor (bs !! (z + dz, x + dx)) c = true)
                                t.
Proof.
  apply (collectM_In
           (fun '(dx, dz) => pushIfFree bs c (x + dx) (z + dz))
           (fun '(dx, dz) t =>
              t = (x + dx, z + dz) /\ isInside (x + dx) (z + dz) = true
              /\ freeFor (bs !! (z + dz, x + dx)) c = true)).
  intros [dx dz] _. apply pushIfFree_spec.
Qed.

Lemma knight_case (bs : board) (x z tx tz : Z) (p : Piece) :
  isInside tx tz = true ->
  exists l,
    collectM (fun '(dx, dz) => pushIfFree bs (color p) (x + dx) (z + dz))
             knightJumps = Ret l
    /\ (In (tx, tz) l <->
        (if sameColor (bs !! (tz, tx)) p then Ret false
         else Ret (((Z.abs (tx - x) =? 1) && (Z.abs (tz - z) =? 2))
                   || ((Z.abs (tx - x) =? 2) && (Z.abs (tz - z) =? 1))))
        = Ret true).
Proof.
  intros Ht.
  destruct (knight_moves bs (color p) x z) as (l & Hl & HIn).
  exists l. split; [exact Hl|]. rewrite HIn. split.
  - intros ([dx dz] & Hd & Heq & _ & Hfree). inversion Heq; subst tx tz.
    rewrite freeFor_sameColor in Hfree. apply negb_true_iff in Hfree.
    rewrite Hfree. f_equal. apply knightJumps_spec in Hd.
    replace (x + dx - x) with dx by lia. replace (z + dz - z) with dz by lia.
    rewrite orb_true_iff, !andb_true_iff, !Z.eqb_eq. exact Hd.
  - destruct (sameColor (bs !! (tz, tx)) p) eqn:Hsame; [discriminate|].
    intros E. injection E as E'.
    rewrite orb_true_iff, !andb_true_iff, !Z.eqb_eq in E'.
    exists (tx - x, tz - z). split; [now apply knightJumps_spec|].
    replace (x + (tx - x)) with tx by lia. replace (z + (tz - z)) with tz by lia.
    split; [reflexivity|]. split; [exact Ht|].
    rewrite freeFor_sameColor, Hsame. reflexivity.
Qed.

Lemma In_steps3 d : In d [-1; 0; 1] <-> unitStep d.
Proof. unfold unitStep. simpl. intuition lia. Qed.

Lemma king_moves (bs : board) (c : Color) (x z : Z) :
  exists l,
    collectM (fun dx =>
      collectM (fun dz =>
                  if (dx =? 0) && (dz =? 0) then Ret []
                  else pushIfFree bs c (x + dx) (z + dz))
               [-1; 0; 1])
      [-1; 0; 1] = Ret l
    /\ forall t, In t l <->
                 exists dx, In dx [-1; 0; 1]
                   /\ exists dz, In dz [-1; 0; 1]
                        /\ (dx <> 0 \/ dz <> 0)
                        /\ t = (x + dx, z + dz)
                        /\ isInside (x + dx) (z + dz) = true
                        /\ freeFor (bs !! (z + dz, x + dx)) c = true.
Proof.
  apply (collectM_In _
           (fun dx t =>
              exists dz, In dz [-1; 0; 1]
                         /\ (dx <> 0 \/ dz <> 0)
                         /\ t = (x + dx, z + dz)
                         /\ isInside (x + dx) (z + dz) = true
                         /\ freeFor (bs !! (z + dz, x + dx)) c = true)).
  intros dx _.
  apply (collectM_In _ (fun dz t =>
               (dx <> 0 \/ dz <> 0)
               /\ t = (x + dx, z + dz)
               /\ isInside (x + dx) (z + dz) = true
               /\ freeFor (bs !! (z + dz, x + dx)) c = true)).
  intros dz _. destruct ((dx =? 0) && (dz =? 0)) eqn:E.
  - apply andb_true_iff in E as [E1 E2]. apply Z.eqb_eq in E1, E2.
    exists []. split; [reflexivity|]. intros t. simpl. split; [tauto|]. lia.
  - apply andb_false_iff in E. rewrite !Z.eqb_neq in E.
    destruct (pushIfFree_spec bs c (x + dx) (z + dz)) as (r & -> & Hr).
    exists r. split; [reflexivity|]. intros t. rewrite Hr. tauto.
Qed.

Lemma king_case (bs : board) (x z tx tz : Z) (p : Piece) :
  bs !! (z, x) = Some p -> isInside tx tz = true ->
  exists l,
    collectM (fun dx =>
      collectM (fun dz =>
                  if (dx =? 0) && (dz =? 0) then Ret []
                  else pushIfFree bs (color p) (x + dx) (z + dz))
               [-1; 0; 1])
      [-1; 0; 1] = Ret l
    /\ (In (tx, tz) l <->
        (if sameColor (bs !! (tz, tx)) p then Ret false
         else Ret (Z.max (Z.abs (tx - x)) (Z.abs (tz - z)) =? 1)) = Ret true).
Proof.
  intros Hp Ht.
  destruct (king_moves bs (color p) x z) as (l & Hl & HIn).
  exists l. split; [exact Hl|]. rewrite HIn. split.
  - intros (dx & Hdx & dz & Hdz & Hnz & Heq & _ & Hfree).
    inversion Heq; subst tx tz.
    rewrite freeFor_sameColor in Hfree. apply negb_true_iff in Hfree.
    rewrite Hfree. f_equal. apply Z.eqb_eq.
    apply In_steps3 in Hdx, Hdz. unfold unitStep in *. lia.
  - destruct (sameColor (bs !! (tz, tx)) p) eqn:Hsame; [discriminate|].
    intros E. injection E as E'. apply Z.eqb_eq in E'.
    exists (tx - x). split; [apply In_steps3; unfold unitStep; lia|].
    exists (tz - z). split; [apply In_steps3; unfold unitStep; lia|].
    replace (x + (tx - x)) with tx by lia. replace (z + (tz - z)) with tz by lia.
    split; [lia|]. split; [reflexivity|]. split; [exact Ht|].
    rewrite freeFor_sameColor, Hsame. reflexivity.
Qed.

Ltac bprop :=
  repeat match goal with
    | H : _ && _ = true |- _ => apply andb_true_iff in H as [? ?]
    | H : _ && _ = false |- _ => apply andb_false_iff in H
    | H : _ || _ = true |- _ => apply orb_true_iff in H
    | H : _ || _ = false |- _ => apply orb_false_iff in H as [? ?]
    | H : negb _ = true |- _ => apply negb_true_iff in H
    | H : negb _ = false |- _ => apply negb_false_iff in H
    | H : (_ =? _) = true |- _ => apply Z.eqb_eq in H
    | H : (_ =? _) = false |- _ => apply Z.eqb_neq in H
    end.

Lemma pawn_moves (bs : board) (c : Color) (x z d s : Z) :
  (d = -1 /\ s = 6) \/ (d = 1 /\ s = 1) ->
  isInside x z = true ->
  exists l,
    (let* m1 :=
       (if isInside x (z + d) then
          let* q := cell bs (z + d) x in
          if negb (isSome q) then Ret [(x, z + d)] else Ret []
        else Ret []) in
     let* m2 :=
       (if z =? s then
          let* q1 := cell bs (z + d) x in
          if negb (isSome q1) then
            let* q2 := cell bs (z + 2 * d) x in
            if negb (isSome q2) then Ret [(x, z + 2 * d)] else Ret []
          else Ret []
        else Ret []) in
     let* m3 :=
       collectM (fun '(nx, nz) =>
                   if isInside nx nz then
                     let* q := cell bs nz nx in
                     if otherColor q c then Ret [(nx, nz)] else Ret []
                   else Ret [])
                [(x - 1, z + d); (x + 1, z + d)] in
     Ret (m1 ++ m2 ++ m3)) = Ret l
    /\ forall t,
         In t l <->
         (t = (x, z + d) /\ isInside x (z + d) = true
          /\ bs !! (z + d, x) = None)
         \/ (t = (x, z + 2 * d) /\ z = s
             /\ bs !! (z + d, x) = None /\ bs !! (z + 2 * d, x) = None)
         \/ (exists a, In a [(x - 1, z + d); (x + 1, z + d)]
                       /\ (let '(nx, nz) := a in
                           fun t => t = (nx, nz) /\ isInside nx nz = true
                                    /\ otherColor (bs !! (nz, nx)) c = true) t).
Proof.
  intros Hd Hs. pose proof Hs as Hs'. apply isInside_spec in Hs'.
  (* forward one *)
  assert (H1 : exists r1,
             (if isInside x (z + d) then
                let* q := cell bs (z + d) x in
                if negb (isSome q) then Ret [(x, z + d)] else Ret []
              else Ret []) = Ret r1
             /\ forall t, In t r1 <->
                          t = (x, z + d) /\ isInside x (z + d) = true
                          /\ bs !! (z + d, x) = None).
  { destruct (isInside x (z + d)) eqn:E.
    - rewrite (cell_inside _ _ _ E). simpl.
      destruct (bs !! (z + d, x)); simpl; eexists; (split; [reflexivity|]);
        intros t; simpl; intuition (try discriminate; auto).
    - eexists. split; [reflexivity|]. intros t. simpl.
      intuition (try discriminate; auto). }
  destruct H1 as (r1 & -> & Hr1).
  (* forward two *)
  assert (H2 : exists r2,
             (if z =? s then
                let* q1 := cell bs (z + d) x in
                if negb (isSome q1) then
                  let* q2 := cell bs (z + 2 * d) x in
                  if negb (isSome q2) then Ret [(x, z + 2 * d)] else Ret []
                else Ret []
              else Ret []) = Ret r2
             /\ forall t, In t r2 <->
                          t = (x, z + 2 * d) /\ z = s
                          /\ bs !! (z + d, x) = None
                          /\ bs !! (z + 2 * d, x) = None).
  { destruct (z =? s) eqn:E.
    - apply Z.eqb_eq in E.
      rewrite (cell_row bs (z + d) x) by (apply hasRow_spec; lia). simpl.
      destruct (bs !! (z + d, x)); simpl.
      + eexists. split; [reflexivity|]. intros t. simpl.
        intuition (try discriminate; auto).
      + rewrite (cell_row bs (z + 2 * d) x) by (apply hasRow_spec; lia). simpl.
        destruct (bs !! (z + 2 * d, x)); simpl; eexists;
          (split; [reflexivity|]); intros t; simpl;
          intuition (try discriminate; auto).
    - apply Z.eqb_neq in E. eexists. split; [reflexivity|]. intros t. simpl.
      intuition (try discriminate; auto). }
  destruct H2 as (r2 & -> & Hr2).
  (* the two captures *)
  destruct (collectM_In
              (fun '(nx, nz) =>
                 if isInside nx nz then
                   let* q := cell bs nz nx in
                   if otherColor q c then Ret [(nx, nz)] else Ret []
                 else Ret [])
              (fun '(nx, nz) t =>
                 t = (nx, nz) /\ isInside nx nz = true
                 /\ otherColor (bs !! (nz, nx)) c = true)
              [(x - 1, z + d); (x + 1, z + d)]) as (r3 & -> & Hr3).
  { intros [nx nz] _. destruct (isInside nx nz) eqn:E.
    - rewrite (cell_inside _ _ _ E). cbn [bind].
      destruct (otherColor (bs !! (nz, nx)) c) eqn:Ho; eexists;
        (split; [reflexivity|]); intros t; simpl;
        intuition (try congruence; auto).
    - eexists. split; [reflexivity|]. intros t. simpl.
      intuition (try discriminate; auto). }
  cbn [bind]. eexists. split; [reflexivity|]. intros t.
  rewrite !in_app_iff, Hr1, Hr2, Hr3. tauto.
Qed.

Lemma pawn_case (bs : board) (x z tx tz d s : Z) (p : Piece) :
  (d = -1 /\ s = 6) \/ (d = 1 /\ s = 1) ->
  isInside x z = true -> isInside tx tz = true ->
  bs !! (z, x) = Some p ->
  exists l,
    (let* m1 :=
       (if isInside x (z + d) then
          let* q := cell bs (z + d) x in
          if negb (isSome q) then Ret [(x, z + d)] else Ret []
        else Ret []) in
     let* m2 :=
       (if z =? s then
          let* q1 := cell bs (z + d) x in
          if negb (isSome q1) then
            let* q2 := cell bs (z + 2 * d) x in
            if negb (isSome q2) then Ret [(x, z + 2 * d)] else Ret []
          else Ret []
        else Ret []) in
     let* m3 :=
       collectM (fun '(nx, nz) =>
                   if isInside nx nz then
                     let* q := cell bs nz nx in
                     if otherColor q (color p) then Ret [(nx, nz)] else Ret []
                   else Ret [])
                [(x - 1, z + d); (x + 1, z + d)] in
     Ret (m1 ++ m2 ++ m3)) = Ret l
    /\ (In (tx, tz) l <->
        (if sameColor (bs !! (tz, tx)) p then Ret false
         else
           if tx - x =? 0 then
             if (tz - z =? d) && negb (isSome (bs !! (tz, tx))) then Ret true
             else if (tz - z =? 2 * d) && (z =? s)
                     && negb (isSome (bs !! (tz, tx)))
             then
               let* c := cell bs (z + d) x in
               if negb (isSome c) then Ret true else Ret false
             else Ret false
           else if (Z.abs (tx - x) =? 1) && (tz - z =? d) then
             if otherColor (bs !! (tz, tx)) (color p) then Ret true
             else Ret false
           else Ret false) = Ret true).
Proof.
  intros Hd Hs Ht Hp.
  pose proof Hs as Hs'. pose proof Ht as Ht'.
  apply isInside_spec in Hs', Ht'.
  destruct (pawn_moves bs (color p) x z d s Hd Hs) as (l & Hl & HIn).
  exists l. split; [exact Hl|]. rewrite HIn. clear HIn Hl l.
  assert (Hcapt :
            (exists a, In a [(x - 1, z + d); (x + 1, z + d)]
                       /\ (let '(nx, nz) := a in
                           fun t => t = (nx, nz) /\ isInside nx nz = true
                                    /\ otherColor (bs !! (nz, nx)) (color p) = true)
                            (tx, tz)) <->
            (Z.abs (tx - x) = 1 /\ tz - z = d
             /\ otherColor (bs !! (tz, tx)) (color p) = true)).
  { split.
    - intros ([nx nz] & Hin & Heq & _ & Ho). inversion Heq; subst nx nz.
      simpl in Hin. destruct Hin as [E|[E|E]]; [| |contradiction];
        inversion E; subst; repeat split; auto; lia.
    - intros (Hx & Hz & Ho).
      assert (tx = x - 1 \/ tx = x + 1) as [E|E] by lia.
      + exists (x - 1, z + d). split; [simpl; auto|].
        replace tx with (x - 1) in *. replace tz with (z + d) in * by lia.
        repeat split; auto.
      + exists (x + 1, z + d). split; [simpl; auto|].
        replace tx with (x + 1) in *. replace tz with (z + d) in * by lia.
        repeat split; auto. }
  rewrite Hcapt. clear Hcapt.
  assert (Hpair1 : (tx, tz) = (x, z + d) <-> tx - x = 0 /\ tz - z = d).
  { split; [intros E; inversion E; lia|intros [? ?]; f_equal; lia]. }
  assert (Hpair2 : (tx, tz) = (x, z + 2 * d) <-> tx - x = 0 /\ tz - z = 2 * d).
  { split; [intros E; inversion E; lia|intros [? ?]; f_equal; lia]. }
  rewrite Hpair1, Hpair2. clear Hpair1 Hpair2.
  destruct (bs !! (tz, tx)) as [q|] eqn:Hq.
  - (* an occupied destination *)
    unfold sameColor, otherColor. cbn [isSome negb].
    rewrite !andb_false_r.
    destruct (decide (color q = color p)) as [Hc|Hc].
    + rewrite (bool_decide_eq_true_2 _ Hc).
      rewrite (bool_decide_eq_false_2 (color q <> color p)) by tauto.
      split; [|discriminate].
      intros [((K1 & K2) & _ & K3)|[((K1 & K2) & _ & _ & K3)|(_ & _ & K3)]];
        try discriminate.
      * replace (z + d) with tz in K3 by lia. replace x with tx in K3 by lia.
        congruence.
      * replace (z + 2 * d) with tz in K3 by lia. replace x with tx in K3 by lia.
        congruence.
    + rewrite (bool_decide_eq_false_2 _ Hc).
      rewrite (bool_decide_eq_true_2 (color q <> color p)) by exact Hc.
      destruct (tx - x =? 0) eqn:E0; bprop.
      * split; [|discriminate].
        intros [((K1 & K2) & _ & K3)|[((K1 & K2) & _ & _ & K3)|(K3 & _)]]; try lia.
        -- replace (z + d) with tz in K3 by lia. replace x with tx in K3 by lia.
           congruence.
        -- replace (z + 2 * d) with tz in K3 by lia.
           replace x with tx in K3 by lia. congruence.
      * destruct ((Z.abs (tx - x) =? 1) && (tz - z =? d)) eqn:E1; bprop.
        -- split; [reflexivity|]. intros _. right. right. tauto.
        -- split; [|discriminate]. intros [K|[K|K]]; lia.
  - (* an empty destination *)
    unfold sameColor, otherColor. cbn [isSome negb]. rewrite !andb_true_r.
    destruct (tx - x =? 0) eqn:E0; bprop.
    + destruct (tz - z =? d) eqn:E1; bprop.
      * split; [reflexivity|]. intros _. left. repeat split; auto.
        -- apply isInside_spec. lia.
        -- replace (z + d) with tz by lia. replace x with tx by lia. exact Hq.
      * destruct ((tz - z =? 2 * d) && (z =? s)) eqn:E2; bprop.
        -- rewrite (cell_row bs (z + d) x) by (apply hasRow_spec; lia).
           cbn [bind]. destruct (bs !! (z + d, x)) eqn:Hmid; cbn [isSome negb].
           ++ split; [|discriminate].
              intros [K|[(_ & _ & K & _)|K]]; [lia|discriminate|lia].
           ++ split; [reflexivity|]. intros _. right. left.
              repeat split; auto.
              replace (z + 2 * d) with tz by lia. replace x with tx by lia.
              exact Hq.
        -- split; [|discriminate]. intros [K|[K|K]]; lia.
    + destruct ((Z.abs (tx - x) =? 1) && (tz - z =? d)) eqn:E1; bprop.
      * split; [|discriminate].
        intros [K|[K|(_ & _ & K)]]; [lia|lia|discriminate].
      * split; [|discriminate].
        intros [K|[K|(_ & _ & K)]]; [lia|lia|discriminate].
Qed.

Lemma generate_iff_predicate (bs : board) (x z tx tz : Z) (p : Piece) :
  isInside x z = true -> isInside tx tz = true ->
  bs !! (z, x) = Some p ->
  exists l, generatePseudoMoves x z bs = Ret l
            /\ (In (tx, tz) l <->
                isPseudoLegal (mkMove x z tx tz) bs false = Ret true).
Proof.
  intros Hs Ht Hp. unfold generatePseudoMoves, isPseudoLegal.
  cbn [fromX fromZ toX toZ].
  rewrite (cell_inside _ _ _ Hs), Hp. cbn [bind].
  rewrite (cellGuarded_row bs z x), Hp by eauto using isInside_hasRow.
  rewrite (cellGuarded_row bs tz tx) by eauto using isInside_hasRow.
  cbv zeta. cbn [negb andb].
  destruct p as [t c]. cbn [type color] in *. destruct t.
  - (* pawn *)
    apply (pawn_case bs x z tx tz _ _ (mkPiece pawn c)); auto.
    destruct c; [left|right]; split; reflexivity.
  - apply (knight_case bs x z tx tz (mkPiece knight c)); auto.
  - (* bishop *)
    destruct (slider_case bs bishopDirs
                (fun D E => Z.abs D = Z.abs E)
                (Z.abs (tx - x) =? Z.abs (tz - z))
                x z tx tz (mkPiece bishop c)) as (l & Hl & Hiff); auto.
    + apply bishopDirs_unit.
    + apply bishopDirs_aligned.
    + apply Z.eqb_eq.
    + rewrite Z.eqb_eq. auto.
    + exists l. split; [exact Hl|]. rewrite Hiff.
      destruct (sameColor _ _); [reflexivity|].
      destruct (Z.abs (tx - x) =? Z.abs (tz - z)); reflexivity.
  - (* rook *)
    destruct (slider_case bs rookDirs
                (fun D E => D = 0 \/ E = 0)
                (negb (negb (tx - x =? 0) && negb (tz - z =? 0)))
                x z tx tz (mkPiece rook c)) as (l & Hl & Hiff); auto.
    + apply rookDirs_unit.
    + apply rookDirs_aligned.
    + rewrite negb_true_iff, andb_false_iff, !negb_false_iff, !Z.eqb_eq. tauto.
    + rewrite negb_true_iff, andb_false_iff, !negb_false_iff, !Z.eqb_eq. tauto.
    + exists l. split; [exact Hl|]. rewrite Hiff.
      destruct (sameColor _ _); [reflexivity|].
      destruct (negb (tx - x =? 0) && negb (tz - z =? 0)); reflexivity.
  - (* queen *)
    destruct (slider_case bs queenDirs
                (fun D E => D = 0 \/ E = 0 \/ Z.abs D = Z.abs E)
                ((tx - x =? 0) || (tz - z =? 0)
                 || (Z.abs (tx - x) =? Z.abs (tz - z)))
                x z tx tz (mkPiece queen c)) as (l & Hl & Hiff); auto.
    + apply queenDirs_unit.
    + apply queenDirs_aligned.
    + rewrite !orb_true_iff, !Z.eqb_eq. tauto.
    + rewrite !orb_true_iff, !Z.eqb_eq. tauto.
    + exists l. split; [exact Hl|exact Hiff].
  - apply (king_case bs x z tx tz (mkPiece king c)); auto.
Qed.

(** From a square of the board the generator returns, and every destination
    it pushes is on the board. *)
Lemma generate_ret (bs : board) (x z : Z) :
  isInside x z = true ->
  exists l, generatePseudoMoves x z bs = Ret l
            /\ forall tx tz, In (tx, tz) l -> isInside tx tz = true.
Proof.
  intros Hs. unfold generatePseudoMoves.
  rewrite (cell_inside _ _ _ Hs). cbn [bind].
  destruct (bs !! (z, x)) as [[t c]|]; [|exists []; split; [reflexivity|intros ? ? []]].
  cbv zeta. cbn [type color].
  assert (Hslides : forall dirs,
             (forall dx dz, In (dx, dz) dirs ->
                            unitStep dx /\ unitStep dz /\ (dx <> 0 \/ dz <> 0)) ->
             exists l,
               collectM (fun '(dx, dz) => slide 8 bs c dx dz (x + dx) (z + dz))
                        dirs = Ret l
               /\ forall tx tz, In (tx, tz) l -> isInside tx tz = true).
  { intros dirs Hunit.
    destruct (slides_ret bs c dirs x z Hunit) as (l & Hl & HIn).
    exists l. split; [exact Hl|]. intros tx tz Hin.
    apply HIn in Hin as ([dx dz] & _ & (k & _ & Heq & _ & Hi & _)).
    injection Heq as -> ->; exact Hi. }
  destruct t.
  - destruct (pawn_moves bs c x z
                (if bool_decide (c = white) then -1 else 1)
                (if bool_decide (c = white) then 6 else 1)) as (l & Hl & HIn);
      auto.
    { destruct c; [left|right]; split; reflexivity. }
    exists l. split; [exact Hl|]. intros tx tz Hin.
    apply HIn in Hin as [(Heq & Hi & _)|[(Heq & Hz & _)|([nx nz] & _ & Heq & Hi & _)]].
    + injection Heq as -> ->; exact Hi.
    + inversion Heq; subst. apply isInside_spec in Hs. apply isInside_spec.
      destruct c; simpl; lia.
    + injection Heq as -> ->; exact Hi.
  - destruct (knight_moves bs c x z) as (l & Hl & HIn).
    exists l. split; [exact Hl|]. intros tx tz Hin.
    apply HIn in Hin as ([dx dz] & _ & Heq & Hi & _). injection Heq as -> ->; exact Hi.
  - apply Hslides, bishopDirs_unit.
  - apply Hslides, rookDirs_unit.
  - apply Hslides, queenDirs_unit.
  - destruct (king_moves bs c x z) as (l & Hl & HIn).
    exists l. split; [exact Hl|]. intros tx tz Hin.
    apply HIn in Hin as (dx & _ & dz & _ & _ & Heq & Hi & _). injection Heq as -> ->; exact Hi.
Qed.

(** ** allLegalMovesFor *)

Lemma isLegalMove_total (bs : board) (m : Move) (player : Color) :
  onBoard m -> exists b, isLegalMove bs m player = Ret b.
Proof.
  intros [Hf Ht]. destruct (isLegalMove_on_board bs m player Hf Ht) as (b & Hb & _).
  eauto.
Qed.

Lemma legal_from_square (bs : board) (m : Move) (player : Color) :
  isLegalMove bs m player = Ret true -> hasRow (fromZ m) = true ->
  exists p, bs !! (fromZ m, fromX m) = Some p /\ color p = player.
Proof.
  unfold isLegalMove. intros H Hrow. rewrite (cell_row _ _ _ Hrow) in H.
  cbn [bind] in H. destruct (bs !! (fromZ m, fromX m)) as [p|]; [|discriminate].
  exists p. split; [reflexivity|].
  destruct (bool_decide (color p <> player)) eqn:E; [discriminate|].
  apply bool_decide_eq_false in E. now apply dec_stable in E.
Qed.

Lemma legal_moves_from (bs : board) (player : Color) (x z : Z)
      (pseudo : list (Z * Z)) :
  isInside x z = true ->
  (forall tx tz, In (tx, tz) pseudo -> isInside tx tz = true) ->
  forall moves,
  exists r,
    foldM (fun moves '(mtoX, mtoZ) =>
             let m := mkMove x z mtoX mtoZ in
             let* ok := isLegalMove bs m player in
             if ok then Ret (moves ++ [m]) else Ret moves)
          pseudo moves = Ret r
    /\ forall m, In m r <->
                 In m moves
                 \/ (fromX m = x /\ fromZ m = z
                     /\ In (toX m, toZ m) pseudo
                     /\ isLegalMove bs m player = Ret true).
Proof.
  intros Hs. induction pseudo as [|[tx tz] pseudo IH]; intros Hin moves.
  - exists moves. split; [reflexivity|]. intros m. simpl. tauto.
  - cbn [foldM]. cbv zeta.
    destruct (isLegalMove_total bs (mkMove x z tx tz) player) as (ok & Hok).
    { split; simpl; auto. apply Hin. now left. }
    rewrite Hok. cbn [bind].
    destruct (IH (fun a b H => Hin a b (or_intror H))
                 (if ok then moves ++ [mkMove x z tx tz] else moves))
      as (r & Hr & HIn).
    exists r. split.
    { destruct ok; exact Hr. }
    intros m. rewrite HIn. clear HIn Hr. simpl. split.
    + intros [H|(Hx & Hz & Hp & Hl)].
      * destruct ok; [|tauto]. apply in_app_iff in H as [H|[<-|[]]]; [tauto|].
        right. simpl. tauto.
      * right. tauto.
    + intros [H|(Hx & Hz & [Heq|Hp] & Hl)].
      * left. destruct ok; [apply in_app_iff|]; tauto.
      * left. assert (m = mkMove x z tx tz) as ->.
        { destruct m; simpl in *. inversion Heq. congruence. }
        rewrite Hok in Hl. injection Hl as ->. apply in_app_iff. simpl. tauto.
      * right. tauto.
Qed.

Lemma allLegalMovesFor_fold (bs : board) (player : Color) (l : list (Z * Z)) :
  Forall (fun '(z, x) => isInside x z = true) l ->
  forall moves,
  exists r,
    foldM (fun moves '(z, x) =>
             let* p := cell bs z x in
             match p with
             | None => Ret moves
             | Some p =>
                 if bool_decide (color p <> player) then Ret moves
                 else
                   let* pseudo := generatePseudoMoves x z bs in
                   foldM (fun moves '(mtoX, mtoZ) =>
                            let m := mkMove x z mtoX mtoZ in
                            let* ok := isLegalMove bs m player in
                            if ok then Ret (moves ++ [m]) else Ret moves)
                         pseudo moves
             end)
          l moves = Ret r
    /\ forall m, In m r <->
                 In m moves
                 \/ (In (fromZ m, fromX m) l
                     /\ isInside (toX m) (toZ m) = true
                     /\ isLegalMove bs m player = Ret true).
Proof.
  induction 1 as [|[z x] l Hs _ IH]; intros moves.
  - exists moves. split; [reflexivity|]. intros m. simpl. tauto.
  - cbn [foldM]. rewrite (cell_inside _ _ _ Hs). cbn [bind].
    assert (Hstep : exists moves',
               match bs !! (z, x) with
               | None => Ret moves
               | Some p =>
                   if bool_decide (color p <> player) then Ret moves
                   else
                     let* pseudo := generatePseudoMoves x z bs in
                     foldM (fun moves '(mtoX, mtoZ) =>
                              let m := mkMove x z mtoX mtoZ in
                              let* ok := isLegalMove bs m player in
                              if ok then Ret (moves ++ [m]) else Ret moves)
                           pseudo moves
               end = Ret moves'
               /\ forall m, In m moves' <->
                            In m moves
                            \/ (fromX m = x /\ fromZ m = z
                                /\ isInside (toX m) (toZ m) = true
                                /\ isLegalMove bs m player = Ret true)).
    { assert (Hnone : forall m, fromX m = x -> fromZ m = z ->
                                isLegalMove bs m player = Ret true ->
                                exists p, bs !! (z, x) = Some p /\ color p = player).
      { intros m <- <- Hl. apply legal_from_square; auto.
        eauto using isInside_hasRow. }
      destruct (bs !! (z, x)) as [p|] eqn:Hp.
      2:{ exists moves. split; [reflexivity|]. intros m. split; [tauto|].
          intros [H|(Hx & Hz & _ & Hl)]; [exact H|].
          destruct (Hnone m Hx Hz Hl) as (q & Hq & _). discriminate. }
      destruct (bool_decide (color p <> player)) eqn:Hc.
      { exists moves. split; [reflexivity|]. intros m. split; [tauto|].
        intros [H|(Hx & Hz & _ & Hl)]; [exact H|].
        destruct (Hnone m Hx Hz Hl) as (q & Hq & Hq').
        apply bool_decide_eq_true in Hc. congruence. }
      destruct (generate_ret bs x z Hs) as (pseudo & Hgen & Hinside).
      rewrite Hgen. cbn [bind].
      destruct (legal_moves_from bs player x z pseudo Hs Hinside moves)
        as (r & Hr & HIn).
      exists r. split; [exact Hr|]. intros m. rewrite HIn. split.
      - intros [H|(Hx & Hz & Hin & Hl)]; [tauto|]. right.
        repeat split; eauto.
      - intros [H|(Hx & Hz & Hin & Hl)]; [tauto|]. right.
        repeat split; auto.
        destruct (generate_iff_predicate bs x z (toX m) (toZ m) p Hs Hin Hp)
          as (pseudo' & Hgen' & Hiff).
        assert (pseudo' = pseudo) by congruence. subst pseudo'.
        apply Hiff.
        destruct (isLegalMove_on_board bs m player) as (b & Hb & Hcond);
          [rewrite Hx, Hz; exact Hs|exact Hin|].
        assert (b = true) by congruence. subst b.
        destruct Hcond as [Hcond _]. destruct (Hcond eq_refl) as (_ & Hpl & _).
        destruct m; simpl in *; subst; exact Hpl. }
    destruct Hstep as (moves' & Hstep & Hm'). cbv zeta in Hstep.
    rewrite Hstep. cbn [bind].
    destruct (IH moves') as (r & Hr & HIn).
    exists r. split; [exact Hr|]. intros m. rewrite HIn, Hm'. simpl. split.
    + intros [[H|(Hx & Hz & Hin & Hl)]|(Hin & Ht & Hl)]; try tauto.
      right. rewrite Hx, Hz. tauto.
    + intros [H|([Heq|Hin] & Ht & Hl)]; try tauto.
      inversion Heq. left. right. tauto.
Qed.

(** [allLegalMovesFor] returns on every board, and collects exactly the
    moves between squares of the board that [isLegalMove] accepts. *)
Lemma allLegalMovesFor_spec (bs : board) (player : Color) :
  exists l, allLegalMovesFor bs player = Ret l
            /\ forall m, In m l <->
                         onBoard m /\ isLegalMove bs m player = Ret true.
Proof.
  destruct (allLegalMovesFor_fold bs player squares squares_inside [])
    as (l & Hl & HIn).
  exists l. split; [exact Hl|]. intros m. rewrite HIn. unfold onBoard.
  rewrite In_squares. simpl. tauto.
Qed.

(** ** evaluateGameState *)

Lemma evaluateGameState_spec (s : State) :
  exists legal inCheck,
    allLegalMovesFor (boardState s) (currentPlayer s) = Ret legal
    /\ isKingInCheck (boardState s) (currentPlayer s) = Ret inCheck
    /\ evaluateGameState s = Ret (classified s legal inCheck).
Proof.
  destruct (allLegalMovesFor_spec (boardState s) (currentPlayer s))
    as (legal & Hlegal & _).
  destruct (isKingInCheck_total (boardState s) (currentPlayer s))
    as (inCheck & Hchk).
  exists legal, inCheck. split; [exact Hlegal|]. split; [exact Hchk|].
  unfold evaluateGameState. rewrite Hlegal. cbn [bind]. rewrite Hchk.
  cbn [bind]. destruct legal; reflexivity.
Qed.

Lemma captured_piece_eta (o : option Piece) :
  match o with
  | Some t => Some (mkPiece (type t) (color t))
  | None => None
  end = o.
Proof. destruct o as [[t c]|]; reflexivity. Qed.

Lemma flip_opposite (c : Color) :
  (if bool_decide (c = white) then black else white) = opposite c.
Proof. now destruct c. Qed.

(** ** performMove *)

(** [performMove] ends with [evaluateGameState] on the position with the
    turn flipped. *)
Lemma performMove_evaluates (s : State) (mv : Move) (s' : State) :
  performMove s mv = Ret s' ->
  exists s1, evaluateGameState s1 = Ret s'
             /\ currentPlayer s1 = opposite (currentPlayer s)
             /\ gameState s1 = gameState s.
Proof.
  unfold performMove. intros H.
  apply bind_Ret_inv in H as (from & _ & H).
  apply bind_Ret_inv in H as (target & _ & H).
  apply bind_Ret_inv in H as ([capt bs] & _ & H).
  destruct from as [from|]; [|discriminate].
  apply bind_Ret_inv in H as (bs1 & _ & H).
  apply bind_Ret_inv in H as (bs2 & _ & H).
  apply bind_Ret_inv in H as (bs3 & _ & H).
  eexists. split; [exact H|]. split; [apply flip_opposite|reflexivity].
Qed.

Lemma performMove_ret (s : State) (mv : Move) (p : Piece) :
  hasRow (fromZ mv) = true -> hasRow (toZ mv) = true ->
  (fromZ mv, fromX mv) <> (toZ mv, toX mv) ->
  boardState s !! (fromZ mv, fromX mv) = Some p ->
  exists s',
    performMove s mv = Ret s'
    /\ boardState s' !! (toZ mv, toX mv) = Some (promoted p (toZ mv))
    /\ boardState s' !! (fromZ mv, fromX mv) = None
    /\ (forall k, k <> (toZ mv, toX mv) -> k <> (fromZ mv, fromX mv) ->
                  boardState s' !! k = boardState s !! k)
    /\ currentPlayer s' = opposite (currentPlayer s)
    /\ moveHistory s'
       = moveHistory s
           ++ [mkEntry mv (boardState s !! (toZ mv, toX mv)) (currentPlayer s)]
    /\ captured s' = capturedAfter s mv.
Proof.
  intros Hf Ht Hne Hp. unfold performMove.
  rewrite (cell_row _ _ _ Hf), Hp. cbn [bind].
  rewrite (cell_row _ _ _ Ht). cbn [bind].
  rewrite (captured_piece_eta (boardState s !! (toZ mv, toX mv))).
  assert (Hcap : exists bs,
             match boardState s !! (toZ mv, toX mv) with
             | Some t =>
                 let* bs := setCell (boardState s) (toZ mv) (toX mv) None in
                 Ret (setCapturedBy (captured s) (currentPlayer s)
                        (capturedBy (captured s) (currentPlayer s) ++ [type t]),
                      bs)
             | None => Ret (captured s, boardState s)
             end = Ret (capturedAfter s mv, bs)
             /\ forall k, k <> (toZ mv, toX mv) -> bs !! k = boardState s !! k).
  { unfold capturedAfter. destruct (boardState s !! (toZ mv, toX mv)).
    - rewrite (setCell_row _ _ _ _ Ht). cbn [bind]. eexists.
      split; [reflexivity|]. intros k Hk.
      now rewrite lookup_put, decide_False by congruence.
    - eexists. split; [reflexivity|]. auto. }
  destruct Hcap as (bs & -> & Hbs). cbn [bind].
  rewrite (setCell_row _ _ _ _ Ht). cbn [bind].
  rewrite (setCell_row _ _ _ _ Hf). cbn [bind].
  rewrite piece_eta.
  set (bs2 := partial_alter (fun _ => None) (fromZ mv, fromX mv)
                (partial_alter (fun _ => Some p) (toZ mv, toX mv) bs)).
  assert (Hpromo : exists bs3,
             (if bool_decide (type p = pawn)
                 && ((toZ mv =? 0) || (toZ mv =? 7))
              then
                let* q := cell bs2 (toZ mv) (toX mv) in
                match q with
                | Some q =>
                    setCell bs2 (toZ mv) (toX mv) (Some (mkPiece queen (color q)))
                | None => Throw
                end
              else Ret bs2) = Ret bs3
             /\ bs3 !! (toZ mv, toX mv) = Some (promoted p (toZ mv))
             /\ bs3 !! (fromZ mv, fromX mv) = None
             /\ forall k, k <> (toZ mv, toX mv) -> k <> (fromZ mv, fromX mv) ->
                          bs3 !! k = boardState s !! k).
  { unfold promoted.
    destruct (bool_decide (type p = pawn) && ((toZ mv =? 0) || (toZ mv =? 7))).
    - rewrite (cell_row _ _ _ Ht). cbn [bind]. subst bs2.
      rewrite lookup_put, decide_False by congruence.
      rewrite lookup_put, decide_True by reflexivity.
      rewrite (setCell_row _ _ _ _ Ht). eexists. split; [reflexivity|].
      split; [|split].
      + now rewrite lookup_put, decide_True.
      + rewrite lookup_put, decide_False by congruence.
        now rewrite lookup_put, decide_True.
      + intros k H1 H2. rewrite !lookup_put, !decide_False by congruence.
        now apply Hbs.
    - exists bs2. split; [reflexivity|]. subst bs2. split; [|split].
      + rewrite lookup_put, decide_False by congruence.
        now rewrite lookup_put, decide_True.
      + now rewrite lookup_put, decide_True.
      + intros k H1 H2. rewrite !lookup_put, !decide_False by congruence.
        now apply Hbs. }
  destruct Hpromo as (bs3 & -> & H1 & H2 & H3). cbn [bind].
  match goal with
  | |- exists s', evaluateGameState ?s1 = _ /\ _ =>
      destruct (evaluateGameState_spec s1) as (legal & inCheck & _ & _ & Hev);
      rewrite Hev
  end.
  eexists. split; [reflexivity|].
  destruct legal;
    cbn [classified boardState currentPlayer moveHistory captured];
    (repeat split; auto using flip_opposite).
Qed.

(** A legal move between squares of the board is carried out. *)
Lemma legal_move_shape (bs : board) (mv : Move) (player : Color) :
  onBoard mv -> isLegalMove bs mv player = Ret true ->
  (fromZ mv, fromX mv) <> (toZ mv, toX mv)
  /\ exists p, bs !! (fromZ mv, fromX mv) = Some p /\ color p = player.
Proof.
  intros [Hf Ht] Hl.
  destruct (isLegalMove_on_board bs mv player Hf Ht) as (b & Hb & Hcond).
  assert (b = true) by congruence. subst b.
  destruct Hcond as [Hcond _]. destruct (Hcond eq_refl) as (Hp & Hpl & _).
  split; [now apply (isPseudoLegal_true_moves bs)|exact Hp].
Qed.

(** ** The search returns *)

Lemma evaluateMaterial_total (bs : board) : exists v, evaluateMaterial bs = Ret v.
Proof.
  destruct (foldM_invariant
              (fun '(z, x) => isInside x z = true) (fun _ : Z => True)
              (fun score '(z, x) =>
                 let* p := cell bs z x in
                 match p with
                 | Some p =>
                     Ret (score
                          + (if bool_decide (color p = white) then 1 else -1)
                            * PIECE_VALUES (type p))
                 | None => Ret score
                 end)
              squares 0 squares_inside) as (v & Hv & _); [|exact I|eauto].
  intros score [z x] _ Hin. rewrite (cell_inside _ _ _ Hin). cbn [bind].
  destruct (bs !! (z, x)); eauto.
Qed.

Lemma collectOppMoves_ret (live clone : board) :
  exists l, collectOppMoves live clone = Ret l
            /\ Forall (keptReply live clone) l.
Proof.
  apply (foldM_invariant (fun '(z, x) => isInside x z = true)
                         (Forall (keptReply live clone)));
    [apply squares_inside| |constructor].
  intros acc [z x] Hacc Hs. rewrite (cell_inside _ _ _ Hs). cbn [bind].
  destruct (clone !! (z, x)) as [p|] eqn:Hp; [|eauto].
  destruct (bool_decide (color p = white)); [|eauto].
  destruct (generate_ret clone x z Hs) as (pms & -> & Hinside). cbn [bind].
  apply (foldM_invariant (fun '(tx, tz) => isInside tx tz = true)
                         (Forall (keptReply live clone))); [| |exact Hacc].
  { apply List.Forall_forall. intros [tx tz]. apply Hinside. }
  intros acc' [tx tz] Hacc' Ht. cbv zeta.
  destruct (isLegalMove_total live (mkMove x z tx tz) white) as (ok & Hok).
  { split; assumption. }
  rewrite Hok. cbn [bind]. destruct ok; [|eauto].
  eexists. split; [reflexivity|]. apply Forall_app. split; [exact Hacc'|].
  constructor; [|constructor]. repeat split; eauto.
Qed.

Lemma simulate_ret (bs : board) (m : Move) (p : Piece) :
  onBoard m -> (fromZ m, fromX m) <> (toZ m, toX m) ->
  bs !! (fromZ m, fromX m) = Some p ->
  exists c c', cloneBoard bs = Ret c /\ applyMoveOnClone c m = Ret c'
               /\ c' !! (toZ m, toX m) = Some (promoted p (toZ m)).
Proof.
  intros [Hf Ht] Hne Hp.
  destruct (cloneBoard_ret bs) as (c & Hc & Hcl).
  destruct (applyMoveOnClone_ret c m p (isInside_hasRow _ _ Hf)
              (isInside_hasRow _ _ Ht) Hne) as (c' & Hc' & Hto & _).
  { rewrite Hcl, Hf. exact Hp. }
  eauto.
Qed.

Lemma worstAfter_total (live : board) (m : Move) :
  onBoard m -> isLegalMove live m black = Ret true ->
  exists w, worstAfter live m = Ret w.
Proof.
  intros Hm Hl. destruct (legal_move_shape live m black Hm Hl) as (Hne & p & Hp & _).
  destruct (simulate_ret live m p Hm Hne Hp) as (c & clone & Hc & Hclone & _).
  unfold worstAfter. rewrite Hc. cbn [bind]. rewrite Hclone. cbn [bind].
  destruct (collectOppMoves_ret live clone) as (opp & -> & Hopp). cbn [bind].
  destruct (length opp =? 0)%nat.
  - destruct (evaluateMaterial_total clone) as (v & ->). cbn [bind]. eauto.
  - destruct (foldM_invariant (keptReply live clone) (fun _ : Num => True)
                (fun worst om =>
                   let* c2 := cloneBoard clone in
                   let* c2 := applyMoveOnClone c2 om in
                   let* v := evaluateMaterial c2 in
                   Ret (num_max worst (Finite v)))
                opp MinusInfinity Hopp) as (w & Hw & _); [|exact I|eauto].
    intros worst om _ (Hom & Hlegal & q & Hq).
    destruct (legal_move_shape live om white Hom Hlegal) as (Hne' & _).
    destruct (simulate_ret clone om q Hom Hne' Hq) as (c2 & c2' & -> & H2 & _).
    cbn [bind]. rewrite H2. cbn [bind].
    destruct (evaluateMaterial_total c2') as (v & ->). cbn [bind]. eauto.
Qed.

Lemma searchBest_total (live : board) (moves : list Move) :
  Forall (fun m => onBoard m /\ isLegalMove live m black = Ret true) moves ->
  exists r, searchBest live moves = Ret r.
Proof.
  intros Hmoves.
  destruct (foldM_invariant
              (fun m => onBoard m /\ isLegalMove live m black = Ret true)
              (fun _ : option Move * Num => True)
              (fun '(best, bestScore) m =>
                 let* worst := worstAfter live m in
                 if num_lt worst bestScore then Ret (Some m, worst)
                 else Ret (best, bestScore))
              moves (None, Infinity) Hmoves) as (r & Hr & _); [|exact I|eauto].
  intros [best bestScore] m _ [Hm Hl].
  destruct (worstAfter_total live m Hm Hl) as (w & ->). cbn [bind].
  destruct (num_lt w bestScore); eauto.
Qed.

Lemma bestAIMove_total (s : State) : exists r, bestAIMove s = Ret r.
Proof.
  unfold bestAIMove.
  destruct (allLegalMovesFor_spec (boardState s) black) as (moves & -> & Hin).
  cbn [bind]. destruct (length moves =? 0)%nat; [eauto|].
  destruct (searchBest_total (boardState s) moves) as ([best sc] & ->).
  { apply List.Forall_forall. intros m Hm. now apply Hin. }
  cbn [bind]. eauto.
Qed.

(** ** What the search computes from the replies it keeps *)

Lemma worst_fold (clone : board) (opp : list Move) :
  forall acc r,
    foldM (fun worst om =>
             let* c2 := cloneBoard clone in
             let* c2 := applyMoveOnClone c2 om in
             let* v := evaluateMaterial c2 in
             Ret (num_max worst (Finite v))) opp acc = Ret r ->
    (forall om, In om opp ->
                exists v, replyValue clone om = Ret v /\ atLeast r v)
    /\ (forall a, atLeast acc a -> atLeast r a)
    /\ (r = acc
        \/ exists om v, In om opp /\ replyValue clone om = Ret v
                        /\ r = Finite v).
Proof.
  induction opp as [|om opp IH]; intros acc r H.
  - injection H as <-. split; [intros ? []|]. split; auto.
  - cbn [foldM] in H.
    apply bind_Ret_inv in H as (w & Hw & H).
    apply bind_Ret_inv in Hw as (c2 & Hc2 & Hw).
    apply bind_Ret_inv in Hw as (c2' & Hc2' & Hw).
    apply bind_Ret_inv in Hw as (v & Hv & Hw). injection Hw as <-.
    assert (Hval : replyValue clone om = Ret v).
    { unfold replyValue. rewrite Hc2. cbn [bind]. rewrite Hc2'. exact Hv. }
    destruct (IH _ _ H) as (Hall & Hmono & Hach).
    assert (Hstep : atLeast (num_max acc (Finite v)) v).
    { destruct acc; simpl; [lia|lia|exact I]. }
    split; [|split].
    + intros om' [<-|Hin]; [|auto]. exists v. split; [exact Hval|]. auto.
    + intros a Ha. apply Hmono. destruct acc; simpl in *; [contradiction|lia|exact I].
    + destruct Hach as [->|(om' & v' & Hin & Hv' & ->)].
      * destruct acc as [|a|]; simpl.
        -- right. exists om, v. split; [now left|]. auto.
        -- destruct (Z.max_spec a v) as [[_ ->]|[_ ->]].
           ++ right. exists om, v. split; [now left|]. auto.
           ++ now left.
        -- now left.
      * right. exists om', v'. split; [now right|]. auto.
Qed.

(** The score of a move: the material of the simulated position when no
    reply is kept, otherwise the largest material any kept reply leads to. *)
Lemma worstAfter_spec (live : board) (m : Move) (w : Num) :
  worstAfter live m = Ret w ->
  exists copy clone opp,
    cloneBoard live = Ret copy /\ applyMoveOnClone copy m = Ret clone
    /\ collectOppMoves live clone = Ret opp
    /\ match opp with
       | [] => exists v, evaluateMaterial clone = Ret v /\ w = Finite v
       | _ :: _ =>
           exists om v, In om opp /\ replyValue clone om = Ret v
                        /\ w = Finite v
                        /\ forall om', In om' opp ->
                             exists v', replyValue clone om' = Ret v'
                                        /\ v' <= v
       end.
Proof.
  unfold worstAfter. intros H.
  apply bind_Ret_inv in H as (copy & Hcopy & H).
  apply bind_Ret_inv in H as (clone & Hclone & H).
  apply bind_Ret_inv in H as (opp & Hopp & H).
  exists copy, clone, opp. repeat split; auto.
  destruct opp as [|om0 opp].
  - cbn in H. apply bind_Ret_inv in H as (v & Hv & H). injection H as <-. eauto.
  - cbn [length Nat.eqb] in H.
    destruct (worst_fold clone (om0 :: opp) _ _ H) as (Hall & _ & Hach).
    destruct Hach as [->|(om & v & Hin & Hv & ->)].
    + destruct (Hall om0 (or_introl eq_refl)) as (v & _ & []).
    + exists om, v. repeat split; auto.
Qed.

Lemma worstAfter_finite (live : board) (m : Move) (w : Num) :
  worstAfter live m = Ret w -> exists v, w = Finite v.
Proof.
  intros H.
  destruct (worstAfter_spec live m w H) as (copy & clone & opp & _ & _ & _ & Hw).
  destruct opp; [destruct Hw as (v & _ & E)|destruct Hw as (_ & v & _ & _ & E & _)];
    eauto.
Qed.

(** The move the loop over [moves] settles on.  Started from [(best0, sc0)],
    either no move scores below [sc0] and the pair is unchanged, or the pair
    is the first move of least score, which is below [sc0]. *)
Lemma searchBest_fold (live : board) (moves : list Move) :
  forall best0 sc0 best sc,
    foldM (fun '(best, bestScore) m =>
             let* worst := worstAfter live m in
             if num_lt worst bestScore then Ret (Some m, worst)
             else Ret (best, bestScore))
          moves (best0, sc0) = Ret (best, sc) ->
    (forall (j : nat) m', moves !! j = Some m' ->
       exists w, worstAfter live m' = Ret (Finite w)
                 /\ num_lt (Finite w) sc = false)
    /\ ((best = best0 /\ sc = sc0)
        \/ exists (i : nat) m v,
             moves !! i = Some m /\ best = Some m /\ sc = Finite v
             /\ worstAfter live m = Ret (Finite v)
             /\ num_lt (Finite v) sc0 = true
             /\ forall (j : nat) m' w,
                  (j < i)%nat -> moves !! j = Some m' ->
                  worstAfter live m' = Ret (Finite w) -> v < w).
Proof.
  induction moves as [|m moves IH]; intros best0 sc0 best sc H.
  - injection H as <- <-. split; [intros j m' Hj; discriminate Hj|]. now left.
  - cbn [foldM] in H. apply bind_Ret_inv in H as ([b1 s1] & Hstep & H).
    apply bind_Ret_inv in Hstep as (w & Hw & Hstep).
    destruct (worstAfter_finite _ _ _ Hw) as (v & ->).
    destruct (IH _ _ _ _ H) as (Hall & Hbest).
    (* the final score never exceeds the running one *)
    assert (Hle : forall x, num_lt (Finite x) sc = true ->
                            num_lt (Finite x) s1 = true).
    { intros x Hx. destruct Hbest as [[_ ->]|(i & mi & vi & _ & _ & -> & _ & Hlt & _)];
        [exact Hx|].
      destruct s1; simpl in *; try reflexivity; try discriminate; lia. }
    destruct (num_lt (Finite v) sc0) eqn:Hcmp; injection Hstep as <- <-.
    + (* the head is taken *)
      split.
      * intros [|j] m' Hj.
        -- injection Hj as <-. exists v. split; [exact Hw|].
           destruct (num_lt (Finite v) sc) eqn:E; [|reflexivity].
           apply Hle in E. simpl in E. lia.
        -- apply (Hall j m' Hj).
      * right. destruct Hbest as [[-> ->]|(i & mi & vi & Hi & -> & -> & Hwi & Hlt & Hearlier)].
        -- exists 0%nat, m, v. repeat split; auto. intros j m' w' Hj. lia.
        -- exists (S i), mi, vi. repeat split; auto.
           ++ destruct sc0; simpl in *; try discriminate; try reflexivity; lia.
           ++ intros [|j] m' w' Hj Hm' Hw'.
              ** injection Hm' as <-. rewrite Hw in Hw'. injection Hw' as <-.
                 simpl in Hlt. lia.
              ** apply (Hearlier j m' w'); auto. lia.
    + (* the head is passed over *)
      split.
      * intros [|j] m' Hj.
        -- injection Hj as <-. exists v. split; [exact Hw|].
           destruct (num_lt (Finite v) sc) eqn:E; [|reflexivity].
           apply Hle in E. congruence.
        -- apply (Hall j m' Hj).
      * destruct Hbest as [[-> ->]|(i & mi & vi & Hi & -> & -> & Hwi & Hlt & Hearlier)].
        -- now left.
        -- right. exists (S i), mi, vi. repeat split; auto.
           intros [|j] m' w' Hj Hm' Hw'.
           ++ injection Hm' as <-. rewrite Hw in Hw'. injection Hw' as <-.
              destruct sc0; simpl in *; try discriminate; lia.
           ++ apply (Hearlier j m' w'); auto. lia.
Qed.

(** [makeBestAIMove] plays the first legal move of black whose score is the
    least, and plays nothing when black has no legal move. *)
Lemma bestAIMove_first_minimum (s : State) (best : option Move) :
  bestAIMove s = Ret best ->
  exists moves,
    allLegalMovesFor (boardState s) black = Ret moves
    /\ match best with
       | None => moves = []
       | Some m =>
           exists (i : nat) v,
             moves !! i = Some m
             /\ worstAfter (boardState s) m = Ret (Finite v)
             /\ forall (j : nat) m' w,
                  moves !! j = Some m' ->
                  worstAfter (boardState s) m' = Ret (Finite w) ->
                  v <= w /\ ((j < i)%nat -> v < w)
       end.
Proof.
  unfold bestAIMove. intros H.
  apply bind_Ret_inv in H as (moves & Hmoves & H).
  exists moves. split; [exact Hmoves|].
  destruct moves as [|m0 moves].
  - cbn in H. injection H as <-. reflexivity.
  - cbn [length Nat.eqb] in H.
    apply bind_Ret_inv in H as ([b sc] & Hsearch & H). injection H as <-.
    destruct (searchBest_fold _ _ _ _ _ _ Hsearch) as (Hall & Hbest).
    destruct Hbest as [[-> ->]|(i & m & v & Hi & -> & -> & Hw & _ & Hearlier)].
    + destruct (Hall 0%nat m0 eq_refl) as (w & _ & Hcontra). discriminate.
    + exists i, v. repeat split; auto.
      * destruct (Hall j m' H) as (w' & Hw' & Hge).
        rewrite Hw' in H0. injection H0 as <-. simpl in Hge. lia.
      * intros Hj. eapply Hearlier; eauto.
Qed.

(** ** The replies the search keeps *)

Lemma collectOppMoves_fold (live clone : board) (l : list (Z * Z)) :
  Forall (fun '(z, x) => isInside x z = true) l ->
  forall kept,
  exists r,
    foldM (fun oppMoves '(z, x) =>
             let* p := cell clone z x in
             match p with
             | Some p =>
                 if bool_decide (color p = white) then
                   let* pms := generatePseudoMoves x z clone in
                   foldM (fun oppMoves '(pmX, pmZ) =>
                            let cand := mkMove x z pmX pmZ in
                            let* ok := isLegalMove live cand white in
                            if ok then Ret (oppMoves ++ [cand])
                            else Ret oppMoves)
                         pms oppMoves
                 else Ret oppMoves
             | None => Ret oppMoves
             end)
          l kept = Ret r
    /\ forall m, In m r <->
                 In m kept
                 \/ (In (fromZ m, fromX m) l
                     /\ isInside (toX m) (toZ m) = true
                     /\ (exists p, clone !! (fromZ m, fromX m) = Some p
                                   /\ color p = white)
                     /\ isPseudoLegal m clone false = Ret true
                     /\ isLegalMove live m white = Ret true).
Proof.
  induction 1 as [|[z x] l Hs _ IH]; intros kept.
  - exists kept. split; [reflexivity|]. intros m. simpl. tauto.
  - cbn [foldM]. rewrite (cell_inside _ _ _ Hs). cbn [bind].
    assert (Hstep : exists kept',
               match clone !! (z, x) with
               | Some p =>
                   if bool_decide (color p = white) then
                     let* pms := generatePseudoMoves x z clone in
                     foldM (fun oppMoves '(pmX, pmZ) =>
                              let cand := mkMove x z pmX pmZ in
                              let* ok := isLegalMove live cand white in
                              if ok then Ret (oppMoves ++ [cand])
                              else Ret oppMoves)
                           pms kept
                   else Ret kept
               | None => Ret kept
               end = Ret kept'
               /\ forall m, In m kept' <->
                            In m kept
                            \/ (fromX m = x /\ fromZ m = z
                                /\ isInside (toX m) (toZ m) = true
                                /\ (exists p, clone !! (z, x) = Some p
                                              /\ color p = white)
                                /\ isPseudoLegal m clone false = Ret true
                                /\ isLegalMove live m white = Ret true)).
    { destruct (clone !! (z, x)) as [p|] eqn:Hp.
      2:{ exists kept. split; [reflexivity|]. intros m. split; [tauto|].
          intros [H|(_ & _ & _ & (q & Hq & _) & _)]; [exact H|discriminate]. }
      destruct (bool_decide (color p = white)) eqn:Hc.
      2:{ exists kept. split; [reflexivity|]. intros m. split; [tauto|].
          intros [H|(_ & _ & _ & (q & Hq & Hq') & _)]; [exact H|].
          apply bool_decide_eq_false in Hc. congruence. }
      apply bool_decide_eq_true in Hc.
      destruct (generate_ret clone x z Hs) as (pms & Hgen & Hinside).
      rewrite Hgen. cbn [bind].
      destruct (legal_moves_from live white x z pms Hs Hinside kept)
        as (r & Hr & HIn).
      exists r. split; [exact Hr|]. intros m. rewrite HIn.
      assert (Hpm : fromX m = x -> fromZ m = z ->
                    isInside (toX m) (toZ m) = true ->
                    (In (toX m, toZ m) pms <->
                     isPseudoLegal m clone false = Ret true)).
      { intros Hx Hz Ht.
        destruct (generate_iff_predicate clone x z (toX m) (toZ m) p Hs Ht Hp)
          as (pms' & Hgen' & Hiff).
        assert (pms' = pms) by congruence. subst pms'.
        destruct m; simpl in *; subst. exact Hiff. }
      split.
      - intros [H|(Hx & Hz & Hin & Hl)]; [tauto|]. right.
        assert (Ht : isInside (toX m) (toZ m) = true) by eauto.
        repeat split; eauto. now apply Hpm.
      - intros [H|(Hx & Hz & Ht & _ & Hpl & Hl)]; [tauto|]. right.
        repeat split; auto. now apply Hpm. }
    destruct Hstep as (kept' & Hstep & Hk'). cbv zeta in Hstep.
    rewrite Hstep. cbn [bind].
    destruct (IH kept') as (r & Hr & HIn).
    exists r. split; [exact Hr|]. intros m. rewrite HIn, Hk'. simpl. split.
    + intros [[H|(Hx & Hz & Ht & Hp & Hpl & Hl)]|(Hin & Ht & Hp & Hpl & Hl)];
        try tauto.
      right. rewrite Hx, Hz. tauto.
    + intros [H|([Heq|Hin] & Ht & Hp & Hpl & Hl)]; try tauto.
      inversion Heq; subst. left. right. tauto.
Qed.

(** The replies kept for a simulated position [clone]: the moves of the
    white pieces of [clone] that are pseudo-legal on [clone] and that
    [isLegalMove] accepts on the live board. *)
Lemma collectOppMoves_spec (live clone : board) :
  exists kept,
    collectOppMoves live clone = Ret kept
    /\ forall m, In m kept <->
                 onBoard m
                 /\ (exists p, clone !! (fromZ m, fromX m) = Some p
                               /\ color p = white)
                 /\ isPseudoLegal m clone false = Ret true
                 /\ isLegalMove live m white = Ret true.
Proof.
  destruct (collectOppMoves_fold live clone squares squares_inside [])
    as (kept & Hk & HIn).
  exists kept. split; [exact Hk|]. intros m. rewrite HIn. unfold onBoard.
  rewrite In_squares. simpl. tauto.
Qed.

(** ** The loop of isPathClear never exhausts its fuel *)




(** ** The legality check on references *)

Lemma lookup_view (st : store) (rb : refBoard) (k : Z * Z) :
  view st rb !! k = rb !! k ≫= (fun l => st !! l).
Proof. unfold view. apply lookup_omap. Qed.

Lemma lookup_putRef (rb : refBoard) (k j : Z * Z) (v : option positive) :
  partial_alter (fun _ => v) k rb !! j = if decide (k = j) then v else rb !! j.
Proof. apply lookup_partial_alter. Qed.

Lemma ref_clone_fold (st0 : store) (live : refBoard) (l : list (Z * Z)) :
  noDangling st0 live ->
  Forall (fun '(z, x) => isInside x z = true) l ->
  forall st c,
    cloneInv st0 st c ->
    exists st1 c1,
      foldM (fun '(st, c) '(z, x) =>
               let* r := refCell live z x in
               match r with
               | Some l =>
                   match st !! l with
                   | Some p =>
                       let '(st', l') :=
                         allocPiece st (mkPiece (type p) (color p)) in
                       let* c' := setRefCell c z x (Some l') in
                       Ret (st', c')
                   | None => Throw
                   end
               | None => Ret (st, c)
               end) l (st, c) = Ret (st1, c1)
      /\ cloneInv st0 st1 c1
      /\ (forall k, In k l -> view st1 c1 !! k = view st0 live !! k
                              \/ (live !! k = None /\ c1 !! k = c !! k))
      /\ (forall k, ~ In k l -> c1 !! k = c !! k)
      /\ (forall a, is_Some (st !! a) -> st1 !! a = st !! a).
Proof.
  intros Hwf Hl. induction Hl as [|[z x] l Hin _ IH]; intros st c Hinv.
  - exists st, c. split; [reflexivity|]. split; [exact Hinv|].
    split; [intros k []|]. split; auto.
  - cbn [foldM]. unfold refCell at 1.
    rewrite (isInside_hasRow _ _ Hin). cbn [bind].
    destruct Hinv as (Hold & Hnew & Hinj).
    destruct (live !! (z, x)) as [a|] eqn:Ha.
    + destruct (Hwf _ _ Ha) as [p Hp0].
      assert (Hp : st !! a = Some p) by (rewrite Hold; eauto).
      rewrite Hp. unfold allocPiece. rewrite piece_eta.
      unfold setRefCell. rewrite (isInside_hasRow _ _ Hin). cbn [bind].
      set (a' := fresh (dom st)).
      assert (Hfresh : st !! a' = None).
      { apply not_elem_of_dom. apply is_fresh. }
      destruct (IH (<[a' := p]> st)
                   (partial_alter (fun _ => Some a') (z, x) c))
        as (st1 & c1 & Hfold & Hinv1 & Hin1 & Hout1 & Hext1).
      { split; [|split].
        - intros b Hb. rewrite lookup_insert_ne; [now apply Hold|].
          intros <-. rewrite Hold in Hfresh by exact Hb.
          destruct Hb as [? Hb]. congruence.
        - intros k b. rewrite lookup_putRef. case_decide.
          + intros [= <-]. split.
            * destruct (st0 !! a') eqn:E; [|reflexivity].
              rewrite Hold in Hfresh by eauto. congruence.
            * rewrite lookup_insert_eq. eauto.
          + intros Hk. destruct (Hnew _ _ Hk) as [H1 H2]. split; [exact H1|].
            rewrite lookup_insert_ne; [exact H2|].
            intros <-. rewrite Hfresh in H2. destruct H2. discriminate.
        - intros k1 k2 b. rewrite !lookup_putRef.
          repeat case_decide; subst; auto.
          + intros [= <-] Hk. destruct (Hnew _ _ Hk) as [_ [? H2]]. congruence.
          + intros Hk [= <-]. destruct (Hnew _ _ Hk) as [_ [? H2]]. congruence.
          + apply Hinj. }
      exists st1, c1. split; [exact Hfold|]. split; [exact Hinv1|].
      split; [|split].
      * assert (Htail : forall k, In k l ->
                    view st1 c1 !! k = view st0 live !! k
                    \/ (live !! k = None /\ c1 !! k = c !! k)).
        { intros k Hk. destruct (Hin1 k Hk) as [H|[H1 H2]]; [now left|].
          right. split; [exact H1|]. rewrite H2, lookup_putRef.
          rewrite decide_False; [reflexivity|]. intros <-. congruence. }
        intros k [<-|Hk]; [|auto].
        destruct (In_dec (decide_rel (=)) (z, x) l) as [Hi|Hi]; [auto|].
        left. rewrite !lookup_view, (Hout1 _ Hi), lookup_putRef, Ha.
        rewrite decide_True by reflexivity. cbn.
        rewrite Hext1 by (rewrite lookup_insert_eq; eauto).
        now rewrite lookup_insert_eq.
      * intros k Hk. rewrite Hout1 by (intros ?; apply Hk; now right).
        rewrite lookup_putRef, decide_False; [reflexivity|].
        intros <-. apply Hk. now left.
      * intros b Hb. rewrite Hext1.
        -- rewrite lookup_insert_ne; [reflexivity|].
           intros <-. rewrite Hfresh in Hb. destruct Hb. discriminate.
        -- rewrite lookup_insert_ne; [exact Hb|].
           intros <-. rewrite Hfresh in Hb. destruct Hb. discriminate.
    + destruct (IH st c (conj Hold (conj Hnew Hinj)))
        as (st1 & c1 & Hfold & Hinv1 & Hin1 & Hout1 & Hext1).
      exists st1, c1. split; [exact Hfold|]. split; [exact Hinv1|].
      split; [|split].
      * intros k [<-|Hk]; [|auto].
        destruct (In_dec (decide_rel (=)) (z, x) l) as [Hi|Hi]; [auto|].
        right. split; [exact Ha|]. now apply Hout1.
      * intros k Hk. apply Hout1. intros ?. apply Hk. now right.
      * exact Hext1.
Qed.

Lemma ref_cloneBoard_ret (st : store) (live : refBoard) :
  noDangling st live ->
  exists st1 c,
    ref_cloneBoard st live = Ret (st1, c)
    /\ cloneInv st st1 c
    /\ forall z x, view st1 c !! (z, x)
                   = if isInside x z then view st live !! (z, x) else None.
Proof.
  intros Hwf.
  destruct (ref_clone_fold st live squares Hwf squares_inside st ∅)
    as (st1 & c & Hfold & Hinv & Hin & Hout & _).
  { split; [auto|]. split; intros *; rewrite lookup_empty; discriminate. }
  exists st1, c. split; [exact Hfold|]. split; [exact Hinv|]. intros z x.
  destruct (isInside x z) eqn:E.
  - destruct (Hin (z, x)) as [H|[H1 H2]]; [now apply In_squares|exact H|].
    rewrite !lookup_view, H1, H2, lookup_empty. reflexivity.
  - rewrite lookup_view, Hout, lookup_empty; [reflexivity|].
    rewrite In_squares. congruence.
Qed.

Lemma ref_applyMoveOnClone_ret (st0 st1 : store) (c : refBoard) (mv : Move)
      (p : Piece) :
  cloneInv st0 st1 c ->
  hasRow (fromZ mv) = true -> hasRow (toZ mv) = true ->
  (fromZ mv, fromX mv) <> (toZ mv, toX mv) ->
  view st1 c !! (fromZ mv, fromX mv) = Some p ->
  exists st2 c',
    ref_applyMoveOnClone st1 c mv = Ret (st2, c')
    /\ (forall a, is_Some (st0 !! a) -> st2 !! a = st0 !! a)
    /\ forall k, view st2 c' !! k
                 = if decide (k = (toZ mv, toX mv))
                   then Some (promoted p (toZ mv))
                   else if decide (k = (fromZ mv, fromX mv)) then None
                        else view st1 c !! k.
Proof.
  intros (Hold & Hnew & Hinj) Hf Ht Hne Hp.
  rewrite lookup_view in Hp.
  destruct (c !! (fromZ mv, fromX mv)) as [a|] eqn:Ha; [|discriminate].
  cbn in Hp. destruct (Hnew _ _ Ha) as [Ha0 _].
  unfold ref_applyMoveOnClone, refCell, setRefCell. rewrite Hf, Ht.
  cbn [bind]. rewrite Ha, Hp. unfold promoted.
  set (c2 := partial_alter (fun _ => None) (fromZ mv, fromX mv)
               (partial_alter (fun _ => Some a) (toZ mv, toX mv) c)).
  assert (Hc2 : forall k, c2 !! k
                          = if decide (k = (toZ mv, toX mv)) then Some a
                            else if decide (k = (fromZ mv, fromX mv)) then None
                                 else c !! k).
  { intros k. subst c2. rewrite !lookup_putRef.
    repeat case_decide; subst; congruence. }
  assert (Hother : forall k b, k <> (fromZ mv, fromX mv) -> c !! k = Some b ->
                               b <> a).
  { intros k b Hk Hb ->. apply Hk. eapply Hinj; eauto. }
  destruct (bool_decide (type p = pawn) && ((toZ mv =? 0) || (toZ mv =? 7))).
  - cbn [bind]. rewrite Hc2, decide_True by reflexivity. rewrite Hp.
    eexists _, _. split; [reflexivity|]. split.
    + intros b Hb. rewrite lookup_insert_ne; [now apply Hold|].
      intros <-. destruct Hb as [? Hb]. congruence.
    + intros k. rewrite lookup_view, Hc2. repeat case_decide; subst.
      * cbn. now rewrite lookup_insert_eq.
      * reflexivity.
      * rewrite lookup_view. destruct (c !! k) as [b|] eqn:Hb; [|reflexivity].
        cbn. rewrite lookup_insert_ne; [reflexivity|].
        intros <-. now apply (Hother k a).
  - eexists _, _. split; [reflexivity|]. split; [exact Hold|].
    intros k. rewrite lookup_view, Hc2. repeat case_decide; subst.
    + exact Hp.
    + reflexivity.
    + now rewrite lookup_view.
Qed.

(** The legality check on references: it returns what [isLegalMove] returns
    on the contents of the live board, and the live board has the contents
    it had. *)
Lemma ref_isLegalMove_keeps_live_board (st : store) (live : refBoard)
      (mv : Move) (player : Color) :
  noDangling st live -> onBoard mv ->
  exists st' b,
    ref_isLegalMove st live mv player = Ret (st', b)
    /\ isLegalMove (view st live) mv player = Ret b
    /\ view st' live = view st live
    /\ noDangling st' live.
Proof.
  intros Hwf [Hf Ht]. unfold ref_isLegalMove, isLegalMove.
  rewrite (cell_inside _ _ _ Hf). cbn [bind].
  destruct (view st live !! (fromZ mv, fromX mv)) as [p|] eqn:Hp;
    [|exists st, false; auto].
  destruct (bool_decide (color p <> player)); [exists st, false; auto|].
  destruct (isPseudoLegal_total (view st live) mv false) as (pl & Hpl);
    eauto using isInside_hasRow.
  rewrite Hpl. cbn [bind]. destruct pl; [|exists st, false; auto].
  cbn [negb]. pose proof (isPseudoLegal_true_moves _ _ Hpl) as Hne.
  destruct (ref_cloneBoard_ret st live Hwf) as (st1 & c & -> & Hinv & Hview).
  cbn [bind].
  destruct (cloneBoard_ret (view st live)) as (cv & -> & Hcv). cbn [bind].
  assert (cv = view st1 c) as ->.
  { apply map_eq. intros [z x]. now rewrite Hcv, Hview. }
  assert (Hp1 : view st1 c !! (fromZ mv, fromX mv) = Some p).
  { rewrite Hview, Hf. exact Hp. }
  destruct (ref_applyMoveOnClone_ret st st1 c mv p Hinv
              (isInside_hasRow _ _ Hf) (isInside_hasRow _ _ Ht) Hne Hp1)
    as (st2 & c' & -> & Hold & Hview2).
  cbn [bind].
  destruct (applyMoveOnClone_ret (view st1 c) mv p
              (isInside_hasRow _ _ Hf) (isInside_hasRow _ _ Ht) Hne Hp1)
    as (av & -> & Hto & Hfrom & Hrest).
  cbn [bind].
  assert (av = view st2 c') as ->.
  { apply map_eq. intros k. rewrite Hview2. repeat case_decide; subst; auto. }
  destruct (isKingInCheck_total (view st2 c') player) as (chk & ->).
  cbn [bind]. exists st2, (negb chk).
  assert (Hsame : forall k a, live !! k = Some a -> st2 !! a = st !! a).
  { intros k a Ha. apply Hold. eapply Hwf; eauto. }
  repeat split.
  - apply map_eq. intros k. rewrite !lookup_view.
    destruct (live !! k) as [a|] eqn:Ha; [|reflexivity]. cbn. eauto.
  - intros k a Ha. rewrite (Hsame _ _ Ha). eapply Hwf; eauto.
Qed.

(** ** Round trips by evaluation *)

Lemma roundTripb_sound (s : State) (m : Move) :
  roundTripb s m = true -> roundTrip s m.
Proof.
  unfold roundTripb, roundTrip. intros H.
  destruct (performMove s m) as [s1| |]; try discriminate.
  destruct (undoMove s1) as [s2| |] eqn:E2; try discriminate.
  repeat (apply andb_true_iff in H as [H ?]).
  exists s1, s2. split; [reflexivity|]. split; [exact E2|].
  repeat match goal with
         | K : bool_decide _ = true |- _ => apply bool_decide_eq_true in K
         end.
  repeat split; assumption.
Qed.

Lemma allRoundTripb_sound (r : result State) (s : State) :
  allRoundTripb r = true -> r = Ret s ->
  forall m, onBoard m ->
            isLegalMove (boardState s) m (currentPlayer s) = Ret true ->
            roundTrip s m.
Proof.
  intros H -> m Hm Hl. unfold allRoundTripb in H.
  destruct (allLegalMovesFor_spec (boardState s) (currentPlayer s))
    as (l & Hl' & Hin).
  rewrite Hl' in H. apply roundTripb_sound.
  apply (proj1 (forallb_forall _ _) H). apply Hin. auto.
Qed.

(** ** Round trips in general *)

Lemma setCapturedBy_pop (c : Captured) (mover : Color) (t : PieceType) :
  setCapturedBy
    (setCapturedBy c mover (capturedBy c mover ++ [t])) mover
    (removelast
       (capturedBy (setCapturedBy c mover (capturedBy c mover ++ [t])) mover))
  = c.
Proof.
  destruct c as [w b], mover; cbn [setCapturedBy capturedBy byWhite byBlack];
    now rewrite removelast_last.
Qed.

(** In any state whose phase is [playing], a move from an occupied square
    to another square, both on existing rows, that does not promote is taken
    back exactly by [undoMove]. *)
Lemma undo_inverts_perform (s : State) (mv : Move) (p : Piece) :
  hasRow (fromZ mv) = true -> hasRow (toZ mv) = true ->
  (fromZ mv, fromX mv) <> (toZ mv, toX mv) ->
  boardState s !! (fromZ mv, fromX mv) = Some p ->
  promoted p (toZ mv) = p ->
  gameState s = playing ->
  roundTrip s mv.
Proof.
  intros Hf Ht Hne Hp Hprom Hphase.
  destruct (performMove_ret s mv p Hf Ht Hne Hp)
    as (s1 & Hs1 & Hto & Hfrom & Hrest & Hturn & Hhist & Hcapt).
  rewrite Hprom in Hto. unfold roundTrip. exists s1.
  unfold undoMove. rewrite Hhist, last_snoc, removelast_last.
  cbn [h_move h_captured h_mover].
  rewrite (cell_row _ _ _ Ht), Hto. cbn [bind].
  rewrite (setCell_row _ _ _ _ Hf). cbn [bind].
  rewrite (setCell_row _ _ _ _ Ht). cbn [bind].
  rewrite Hcapt. unfold capturedAfter, spawnPiece.
  destruct (boardState s !! (toZ mv, toX mv)) as [t|] eqn:Htgt.
  - rewrite (setCell_row _ _ _ _ Ht). cbn [bind]. rewrite piece_eta.
    eexists. split; [exact Hs1|]. split; [reflexivity|].
    cbn [boardState currentPlayer captured gameState]. repeat split; auto.
    + apply map_eq. intros k. rewrite !lookup_put.
      repeat case_decide; subst; auto; try congruence.
    + apply setCapturedBy_pop.
  - cbn [bind]. eexists. split; [exact Hs1|]. split; [reflexivity|].
    cbn [boardState currentPlayer captured gameState]. repeat split; auto.
    apply map_eq. intros k. rewrite !lookup_put.
    repeat case_decide; subst; auto; try congruence.
Qed.

(** Promotions are not taken back: the pawn returns to its square as a
    queen. *)
Example promotion_survives_undo :
  (let* s1 := performMove
                (mkState promotion white playing [] (mkCaptured [] [])
                   "Game in Progress") (mkMove 0 1 0 0) in
   let* s2 := undoMove s1 in
   Ret (boardState s2 !! (1, 0), promotion !! (1, 0)))
  = Ret (Some (mkPiece queen white), Some (mkPiece pawn white)).
Proof. vm_compute. reflexivity. Qed.

Lemma legal_move_round_trip (s : State) (mv : Move) :
  onBoard mv ->
  isLegalMove (boardState s) mv (currentPlayer s) = Ret true ->
  gameState s = playing ->
  (forall p, boardState s !! (fromZ mv, fromX mv) = Some p ->
             promoted p (toZ mv) = p) ->
  roundTrip s mv.
Proof.
  intros Hm Hl Hphase Hprom.
  destruct (legal_move_shape _ _ _ Hm Hl) as (Hne & p & Hp & _).
  destruct Hm as [Hf Ht].
  apply (undo_inverts_perform s mv p); eauto using isInside_hasRow.
Qed.

(** ** Check detection and the generator *)

Lemma anyM_spec {A : Type} (f : A -> result bool) (l : list A) :
  (forall a, In a l -> exists b, f a = Ret b) ->
  exists r, anyM f l = Ret r
            /\ (r = true <-> exists a, In a l /\ f a = Ret true).
Proof.
  induction l as [|a l IH]; intros Htot.
  - exists false. split; [reflexivity|]. split; [discriminate|].
    intros (a & [] & _).
  - destruct (Htot a (or_introl eq_refl)) as (b & Hb).
    destruct IH as (r & Hr & Hiff).
    { intros a' Ha'. apply Htot. now right. }
    cbn [anyM]. rewrite Hb. cbn [bind]. destruct b.
    + exists true. split; [reflexivity|]. split; [|reflexivity].
      intros _. exists a. split; [now left|exact Hb].
    + exists r. split; [exact Hr|]. rewrite Hiff. split.
      * intros (a' & Ha' & Hf). exists a'. split; [now right|exact Hf].
      * intros (a' & [<-|Ha'] & Hf); [congruence|]. exists a'. now split.
Qed.

Lemma isKingOf_spec (player : Color) (q : option Piece) :
  isKingOf player q = true <-> q = Some (mkPiece king player).
Proof.
  destruct q as [[t c]|]; cbn [isKingOf type color].
  - rewrite andb_true_iff, !bool_decide_eq_true. split.
    + now intros [-> ->].
    + intros H. injection H as -> ->. now split.
  - split; discriminate.
Qed.

Lemma findKing_fold (bs : board) (player : Color) (l : list (Z * Z)) :
  Forall (fun k => hasRow k.1 = true) l ->
  forall init,
    foldM (fun '(kx, kz) '(z, x) =>
             let* c := cell bs z x in
             match c with
             | Some p =>
                 if bool_decide (type p = king) && bool_decide (color p = player)
                 then Ret (x, z) else Ret (kx, kz)
             | None => Ret (kx, kz)
             end) l init
    = Ret (match last (List.filter (fun k => isKingOf player (bs !! k)) l) with
           | Some (z, x) => (x, z)
           | None => init
           end).
Proof.
  induction 1 as [|[z x] l Hrow _ IH]; intros [kx kz]; [reflexivity|].
  cbn [foldM List.filter]. cbn [fst] in Hrow.
  rewrite (cell_row _ _ _ Hrow). cbn [bind].
  unfold isKingOf at 1.
  destruct (bs !! (z, x)) as [p|].
  - destruct (bool_decide (type p = king) && bool_decide (color p = player)).
    + cbn [bind]. rewrite IH, last_cons.
      now destruct (last (List.filter _ l)) as [[z' x']|].
    + cbn [bind]. now rewrite IH.
  - cbn [bind]. now rewrite IH.
Qed.

Lemma squares_rows : Forall (fun k : Z * Z => hasRow k.1 = true) squares.
Proof.
  apply List.Forall_forall. intros [z x] Hin. apply In_squares in Hin.
  cbn [fst]. eauto using isInside_hasRow.
Qed.

Lemma findKing_last (bs : board) (player : Color) :
  findKing bs player
  = Ret (match last (kingSquares bs player) with
         | Some (z, x) => (x, z)
         | None => (-1, -1)
         end).
Proof. exact (findKing_fold bs player squares squares_rows (-1, -1)). Qed.

Lemma In_kingSquares (bs : board) (player : Color) (z x : Z) :
  In (z, x) (kingSquares bs player)
  <-> isInside x z = true /\ bs !! (z, x) = Some (mkPiece king player).
Proof.
  unfold kingSquares. rewrite filter_In, isKingOf_spec.
  split; intros [H1 H2]; (split; [|exact H2]).
  - now apply In_squares.
  - now apply In_squares.
Qed.

Lemma last_In {A : Type} (l : list A) (a : A) : last l = Some a -> In a l.
Proof.
  intros H. apply last_Some in H as (l' & ->). apply in_or_app. right. now left.
Qed.

(** With a piece of another color on the destination, the attack-probe flag
    makes no difference. *)
Lemma isPseudoLegal_probe (bs : board) (mv : Move) (p : Piece) :
  cellGuarded bs (fromZ mv) (fromX mv) = Some p ->
  sameColor (cellGuarded bs (toZ mv) (toX mv)) p = false ->
  isPseudoLegal mv bs true = isPseudoLegal mv bs false.
Proof.
  intros Hp Hs. unfold isPseudoLegal. rewrite Hp, Hs. reflexivity.
Qed.

Lemma opponent_spec (player c : Color) :
  c = (if bool_decide (player = white) then black else white) <-> c <> player.
Proof. destruct player, c; vm_compute; split; congruence. Qed.

Lemma isKingInCheck_attacked (bs : board) (player : Color) :
  exists b,
    isKingInCheck bs player = Ret b
    /\ (b = true <->
        match last (kingSquares bs player) with
        | None => True
        | Some (kz, kx) => attacked bs player kx kz
        end).
Proof.
  rewrite isKingInCheck_unfold, findKing_last.
  destruct (last (kingSquares bs player)) as [[kz kx]|] eqn:Hlast.
  2:{ exists true. split; [reflexivity|]. tauto. }
  apply last_In, In_kingSquares in Hlast as [Hk Hking].
  cbn [bind].
  assert (Hkx : (kx =? -1) = false).
  { apply isInside_spec in Hk. apply Z.eqb_neq. lia. }
  rewrite Hkx.
  set (f := fun '(z, x) => _).
  assert (Hf : forall z x, isInside x z = true ->
             f (z, x) = match bs !! (z, x) with
                        | Some p =>
                            if bool_decide (color p <> player)
                            then isPseudoLegal (mkMove x z kx kz) bs false
                            else Ret false
                        | None => Ret false
                        end).
  { intros z x Hi. subst f. cbv beta iota. rewrite (cell_inside _ _ _ Hi).
    cbn [bind]. destruct (bs !! (z, x)) as [p|] eqn:Hp; [|reflexivity].
    destruct (decide (color p <> player)) as [Hc|Hc].
    - rewrite (bool_decide_eq_true_2 _ (proj2 (opponent_spec _ _) Hc)).
      rewrite (bool_decide_eq_true_2 _ Hc).
      apply (isPseudoLegal_probe bs (mkMove x z kx kz) p); cbn [fromZ fromX toZ toX].
      + rewrite cellGuarded_row by eauto using isInside_hasRow. exact Hp.
      + rewrite cellGuarded_row by eauto using isInside_hasRow.
        rewrite Hking. cbn [sameColor color]. apply bool_decide_eq_false_2.
        congruence.
    - rewrite (bool_decide_eq_false_2 _ Hc).
      rewrite bool_decide_eq_false_2; [reflexivity|].
      intros E. apply opponent_spec in E. contradiction. }
  destruct (anyM_spec f squares) as (r & Hr & Hiff).
  { intros [z x] Hin. apply In_squares in Hin. rewrite (Hf z x Hin).
    destruct (bs !! (z, x)) as [p|]; [|eauto].
    destruct (bool_decide (color p <> player)); [|eauto].
    apply isPseudoLegal_total; cbn [fromZ toZ]; eauto using isInside_hasRow. }
  exists r. split; [exact Hr|]. rewrite Hiff. unfold attacked. split.
  - intros ([z x] & Hin & Hfa). apply In_squares in Hin.
    rewrite (Hf z x Hin) in Hfa.
    destruct (bs !! (z, x)) as [p|] eqn:Hp; [|discriminate Hfa].
    destruct (bool_decide (color p <> player)) eqn:Hc; [|discriminate Hfa].
    apply bool_decide_eq_true in Hc.
    destruct (generate_iff_predicate bs x z kx kz p Hin Hk Hp) as (l & Hl & Hin').
    exists x, z, p, l. repeat split; auto. now apply Hin'.
  - intros (x & z & p & l & Hi & Hp & Hc & Hl & Hin).
    exists (z, x). split; [now apply In_squares|].
    rewrite (Hf z x Hi), Hp, (bool_decide_eq_true_2 _ Hc).
    destruct (generate_iff_predicate bs x z kx kz p Hi Hk Hp) as (l' & Hl' & Hin').
    assert (l' = l) by congruence. subst l'. now apply Hin'.
Qed.

(** ** The rules read the 64 squares only *)

Lemma foldM_ext {A S : Type} (f g : S -> A -> result S) (l : list A) :
  (forall s a, In a l -> f s a = g s a) ->
  forall s, foldM f l s = foldM g l s.
Proof.
  induction l as [|a l IH]; intros H s; [reflexivity|].
  cbn [foldM]. rewrite (H s a (or_introl eq_refl)).
  destruct (g s a); cbn [bind]; try reflexivity.
  apply IH. intros s' a' Ha'. apply H. now right.
Qed.

Lemma anyM_ext {A : Type} (f g : A -> result bool) (l : list A) :
  (forall a, In a l -> f a = g a) -> anyM f l = anyM g l.
Proof.
  induction l as [|a l IH]; intros H; [reflexivity|].
  cbn [anyM]. rewrite (H a (or_introl eq_refl)), IH; [reflexivity|].
  intros a' Ha'. apply H. now right.
Qed.

Lemma isPathClear_same (b1 b2 : board) (fX fZ tX tZ : Z) :
  sameSquares b1 b2 ->
  isInside fX fZ = true -> isInside tX tZ = true ->
  (tX - fX = 0 \/ tZ - fZ = 0 \/ Z.abs (tX - fX) = Z.abs (tZ - fZ)) ->
  isPathClear b1 fX fZ tX tZ = isPathClear b2 fX fZ tX tZ.
Proof.
  intros Hs Hf Ht Hal.
  destruct (isPathClear_aligned b1 fX fZ tX tZ) as (r1 & -> & H1);
    eauto using isInside_hasRow.
  destruct (isPathClear_aligned b2 fX fZ tX tZ) as (r2 & -> & H2);
    eauto using isInside_hasRow.
  f_equal. apply eq_true_iff_eq. rewrite H1, H2.
  apply isInside_spec in Hf, Ht. unfold pathEmpty.
  assert (Hin : forall j,
             1 <= j < Z.max (Z.abs (tX - fX)) (Z.abs (tZ - fZ)) ->
             isInside (fX + j * Z.sgn (tX - fX)) (fZ + j * Z.sgn (tZ - fZ))
             = true).
  { intros j Hj. apply isInside_spec.
    sign_cases (tX - fX) (tZ - fZ); lia. }
  split; intros H j Hj; [rewrite <- Hs|rewrite Hs]; auto.
Qed.

Lemma isPseudoLegal_same (b1 b2 : board) (mv : Move) (forCheck : bool) :
  sameSquares b1 b2 -> onBoard mv ->
  isPseudoLegal mv b1 forCheck = isPseudoLegal mv b2 forCheck.
Proof.
  intros Hs [Hf Ht]. unfold isPseudoLegal.
  rewrite !cellGuarded_row by eauto using isInside_hasRow.
  rewrite <- (Hs _ _ Hf), <- (Hs _ _ Ht).
  destruct (b1 !! (fromZ mv, fromX mv)) as [p|]; [|reflexivity].
  destruct (negb forCheck && sameColor _ p); [reflexivity|].
  destruct (type p).
  - destruct (toX mv - fromX mv =? 0); [|reflexivity].
    destruct (_ && negb _); [reflexivity|].
    destruct ((toZ mv - fromZ mv =? _) && (fromZ mv =? _) && _) eqn:E;
      [|reflexivity].
    assert (Hi : isInside (fromX mv)
                   (fromZ mv + (if bool_decide (color p = white) then -1 else 1))
                 = true).
    { bprop. apply isInside_spec in Hf. apply isInside_spec.
      destruct (bool_decide (color p = white)); lia. }
    rewrite !(cell_inside _ _ _ Hi), (Hs _ _ Hi). reflexivity.
  - reflexivity.
  - destruct (negb _) eqn:E; [reflexivity|].
    apply isPathClear_same; auto. bprop. lia.
  - destruct (negb _ && negb _) eqn:E; [reflexivity|].
    apply isPathClear_same; auto.
    repeat (bprop; try match goal with H : _ \/ _ |- _ => destruct H end); lia.
  - destruct (_ || _ || _) eqn:E; [|reflexivity].
    apply isPathClear_same; auto.
    repeat (bprop; try match goal with H : _ \/ _ |- _ => destruct H end); lia.
  - reflexivity.
Qed.

Lemma kingSquares_same (b1 b2 : board) (player : Color) :
  sameSquares b1 b2 -> kingSquares b1 player = kingSquares b2 player.
Proof.
  intros Hs. unfold kingSquares. apply filter_ext_in.
  intros [z x] Hin. apply In_squares in Hin. now rewrite (Hs _ _ Hin).
Qed.

Lemma isKingInCheck_same (b1 b2 : board) (player : Color) :
  sameSquares b1 b2 -> isKingInCheck b1 player = isKingInCheck b2 player.
Proof.
  intros Hs. rewrite !isKingInCheck_unfold, !findKing_last.
  rewrite <- (kingSquares_same b1 b2 player Hs).
  destruct (last (kingSquares b1 player)) as [[kz kx]|] eqn:Hlast;
    [|reflexivity].
  apply last_In, In_kingSquares in Hlast as [Hk _].
  cbn [bind]. destruct (kx =? -1); [reflexivity|].
  apply anyM_ext. intros [z x] Hin. apply In_squares in Hin.
  rewrite !(cell_inside _ _ _ Hin), (Hs _ _ Hin). cbn [bind].
  destruct (b2 !! (z, x)) as [p|]; [|reflexivity].
  destruct (bool_decide _); [|reflexivity].
  apply isPseudoLegal_same; [exact Hs|]. split; assumption.
Qed.

Lemma cloneBoard_same (b1 b2 : board) :
  sameSquares b1 b2 -> cloneBoard b1 = cloneBoard b2.
Proof.
  intros Hs.
  destruct (cloneBoard_ret b1) as (c1 & -> & H1).
  destruct (cloneBoard_ret b2) as (c2 & -> & H2).
  f_equal. apply map_eq. intros [z x]. rewrite H1, H2.
  destruct (isInside x z) eqn:E; [now apply Hs|reflexivity].
Qed.

Lemma isLegalMove_same (b1 b2 : board) (mv : Move) (player : Color) :
  sameSquares b1 b2 -> onBoard mv ->
  isLegalMove b1 mv player = isLegalMove b2 mv player.
Proof.
  intros Hs Hm. unfold isLegalMove.
  rewrite !(cell_inside _ _ _ (proj1 Hm)), (Hs _ _ (proj1 Hm)).
  rewrite (isPseudoLegal_same b1 b2 mv false Hs Hm).
  now rewrite (cloneBoard_same b1 b2 Hs).
Qed.

Lemma collectM_ext {A B : Type} (f g : A -> result (list B)) (l : list A) :
  (forall a, In a l -> f a = g a) -> collectM f l = collectM g l.
Proof.
  induction l as [|a l IH]; intros H; [reflexivity|].
  cbn [collectM]. rewrite (H a (or_introl eq_refl)), IH; [reflexivity|].
  intros a' Ha'. apply H. now right.
Qed.

Lemma pushIfFree_same (b1 b2 : board) (c : Color) (nx nz : Z) :
  sameSquares b1 b2 -> pushIfFree b1 c nx nz = pushIfFree b2 c nx nz.
Proof.
  intros Hs. unfold pushIfFree. destruct (isInside nx nz) eqn:Hi; [|reflexivity].
  now rewrite !(cell_inside _ _ _ Hi), (Hs _ _ Hi).
Qed.

Lemma slide_same (b1 b2 : board) (c : Color) (dx dz : Z) :
  sameSquares b1 b2 ->
  forall fuel nx nz, slide fuel b1 c dx dz nx nz = slide fuel b2 c dx dz nx nz.
Proof.
  intros Hs. induction fuel as [|fuel IH]; intros nx nz; cbn [slide].
  - reflexivity.
  - destruct (isInside nx nz) eqn:Hi; [|reflexivity].
    rewrite !(cell_inside _ _ _ Hi), (Hs _ _ Hi). cbn [bind].
    now rewrite IH.
Qed.

Lemma generatePseudoMoves_same (b1 b2 : board) (x z : Z) :
  sameSquares b1 b2 -> isInside x z = true ->
  generatePseudoMoves x z b1 = generatePseudoMoves x z b2.
Proof.
  intros Hs Hi. unfold generatePseudoMoves.
  rewrite !(cell_inside _ _ _ Hi), (Hs _ _ Hi). cbn [bind].
  destruct (b2 !! (z, x)) as [p|]; [|reflexivity].
  destruct (type p).
  - set (dir := if bool_decide (color p = white) then -1 else 1).
    set (start := if bool_decide (color p = white) then 6 else 1).
    assert (H1 : (if isInside x (z + dir)
                  then let* q := cell b1 (z + dir) x in
                       if negb (isSome q) then Ret [(x, z + dir)] else Ret []
                  else Ret [])
                 = (if isInside x (z + dir)
                    then let* q := cell b2 (z + dir) x in
                         if negb (isSome q) then Ret [(x, z + dir)] else Ret []
                    else Ret [])).
    { destruct (isInside x (z + dir)) eqn:E; [|reflexivity].
      now rewrite !(cell_inside _ _ _ E), (Hs _ _ E). }
    rewrite H1. clear H1.
    assert (H2 : (if z =? start
                  then let* q1 := cell b1 (z + dir) x in
                       if negb (isSome q1)
                       then let* q2 := cell b1 (z + 2 * dir) x in
                            if negb (isSome q2) then Ret [(x, z + 2 * dir)]
                            else Ret []
                       else Ret []
                  else Ret [])
                 = (if z =? start
                    then let* q1 := cell b2 (z + dir) x in
                         if negb (isSome q1)
                         then let* q2 := cell b2 (z + 2 * dir) x in
                              if negb (isSome q2) then Ret [(x, z + 2 * dir)]
                              else Ret []
                         else Ret []
                    else Ret [])).
    { destruct (z =? start) eqn:E; [|reflexivity]. apply Z.eqb_eq in E.
      assert (E1 : isInside x (z + dir) = true).
      { apply isInside_spec in Hi. apply isInside_spec. subst dir start.
        destruct (bool_decide (color p = white)); lia. }
      assert (E2 : isInside x (z + 2 * dir) = true).
      { apply isInside_spec in Hi. apply isInside_spec. subst dir start.
        destruct (bool_decide (color p = white)); lia. }
      now rewrite !(cell_inside _ _ _ E1), !(cell_inside _ _ _ E2),
            (Hs _ _ E1), (Hs _ _ E2). }
    rewrite H2. clear H2.
    erewrite (collectM_ext _ _ [(x - 1, z + dir); (x + 1, z + dir)]);
      [reflexivity|].
    intros [nx nz] _. destruct (isInside nx nz) eqn:E; [|reflexivity].
    now rewrite !(cell_inside _ _ _ E), (Hs _ _ E).
  - apply collectM_ext. intros [dx dz] _. now apply pushIfFree_same.
  - apply collectM_ext. intros [dx dz] _. now apply slide_same.
  - apply collectM_ext. intros [dx dz] _. now apply slide_same.
  - apply collectM_ext. intros [dx dz] _. now apply slide_same.
  - apply collectM_ext. intros dx _. apply collectM_ext. intros dz _.
    destruct ((dx =? 0) && (dz =? 0)); [reflexivity|].
    now apply pushIfFree_same.
Qed.

Lemma legal_fold_same (b1 b2 : board) (player : Color) (x z : Z)
      (pseudo : list (Z * Z)) (moves : list Move) :
  sameSquares b1 b2 -> isInside x z = true ->
  (forall tx tz, In (tx, tz) pseudo -> isInside tx tz = true) ->
  foldM (fun moves '(mtoX, mtoZ) =>
           let m := mkMove x z mtoX mtoZ in
           let* ok := isLegalMove b1 m player in
           if ok then Ret (moves ++ [m]) else Ret moves) pseudo moves
  = foldM (fun moves '(mtoX, mtoZ) =>
             let m := mkMove x z mtoX mtoZ in
             let* ok := isLegalMove b2 m player in
             if ok then Ret (moves ++ [m]) else Ret moves) pseudo moves.
Proof.
  intros Hs Hi Hin. apply foldM_ext. intros acc [tx tz] Ht. cbv zeta.
  rewrite (isLegalMove_same b1 b2 (mkMove x z tx tz) player Hs); [reflexivity|].
  split; cbn [fromX fromZ toX toZ]; auto.
Qed.

Lemma allLegalMovesFor_same (b1 b2 : board) (player : Color) :
  sameSquares b1 b2 -> allLegalMovesFor b1 player = allLegalMovesFor b2 player.
Proof.
  intros Hs. unfold allLegalMovesFor. apply foldM_ext.
  intros moves [z x] Hin. apply In_squares in Hin.
  rewrite !(cell_inside _ _ _ Hin), (Hs _ _ Hin). cbn [bind].
  destruct (b2 !! (z, x)) as [p|]; [|reflexivity].
  destruct (bool_decide (color p <> player)); [reflexivity|].
  rewrite (generatePseudoMoves_same b1 b2 x z Hs Hin).
  destruct (generate_ret b2 x z Hin) as (l & -> & Hl). cbn [bind].
  now apply legal_fold_same.
Qed.

(** The replies kept for one simulated position depend on the live board
    through its 64 squares only. *)
Lemma collectOppMoves_same (b1 b2 clone : board) :
  sameSquares b1 b2 -> collectOppMoves b1 clone = collectOppMoves b2 clone.
Proof.
  intros Hs. unfold collectOppMoves. apply foldM_ext.
  intros acc [z x] Hin. apply In_squares in Hin.
  rewrite (cell_inside _ _ _ Hin). cbn [bind].
  destruct (clone !! (z, x)) as [p|]; [|reflexivity].
  destruct (bool_decide (color p = white)); [|reflexivity].
  destruct (generate_ret clone x z Hin) as (l & -> & Hl). cbn [bind].
  exact (legal_fold_same b1 b2 white x z l acc Hs Hin Hl).
Qed.

Lemma worstAfter_same (b1 b2 : board) (m : Move) :
  sameSquares b1 b2 -> worstAfter b1 m = worstAfter b2 m.
Proof.
  intros Hs. unfold worstAfter. rewrite (cloneBoard_same b1 b2 Hs).
  destruct (cloneBoard b2) as [c| |]; cbn [bind]; [|reflexivity|reflexivity].
  destruct (applyMoveOnClone c m) as [c'| |]; cbn [bind];
    [|reflexivity|reflexivity]. rewrite (collectOppMoves_same b1 b2 c' Hs). reflexivity.
Qed.

Lemma searchBest_same (b1 b2 : board) (moves : list Move) :
  sameSquares b1 b2 -> searchBest b1 moves = searchBest b2 moves.
Proof.
  intros Hs. unfold searchBest. apply foldM_ext. intros [best score] m _.
  rewrite (worstAfter_same b1 b2 m Hs). reflexivity.
Qed.

Lemma bestAIMove_same (s1 s2 : State) :
  sameSquares (boardState s1) (boardState s2) -> bestAIMove s1 = bestAIMove s2.
Proof.
  intros Hs. unfold bestAIMove.
  rewrite (allLegalMovesFor_same _ _ black Hs).
  destruct (allLegalMovesFor (boardState s2) black) as [moves| |];
    cbn [bind]; [|reflexivity|reflexivity].
  destruct (length moves =? 0)%nat; [reflexivity|].
  rewrite (searchBest_same _ _ moves Hs). reflexivity.
Qed.

(** ** The board that performMove leaves *)

(** The board [performMove] leaves and the simulated board hold the same
    pieces. *)
Lemma performMove_simulated (s s' : State) (mv : Move) (p : Piece) :
  onBoard mv ->
  (fromZ mv, fromX mv) <> (toZ mv, toX mv) ->
  boardState s !! (fromZ mv, fromX mv) = Some p ->
  performMove s mv = Ret s' ->
  exists copy after,
    cloneBoard (boardState s) = Ret copy
    /\ applyMoveOnClone copy mv = Ret after
    /\ sameSquares (boardState s') after.
Proof.
  intros [Hf Ht] Hne Hp Hperf.
  destruct (performMove_ret s mv p) as (s1 & Hs1 & Hto & Hfrom & Hrest & _);
    eauto using isInside_hasRow.
  assert (s1 = s') by congruence. subst s1.
  destruct (cloneBoard_ret (boardState s)) as (copy & Hc & Hcopy).
  assert (Hcp : copy !! (fromZ mv, fromX mv) = Some p).
  { now rewrite Hcopy, Hf. }
  destruct (applyMoveOnClone_ret copy mv p) as (after & Ha & Hato & Hafrom & Harest);
    eauto using isInside_hasRow.
  exists copy, after. split; [exact Hc|]. split; [exact Ha|].
  intros x z Hi.
  destruct (decide ((z, x) = (toZ mv, toX mv))) as [->|Hn1]; [congruence|].
  destruct (decide ((z, x) = (fromZ mv, fromX mv))) as [->|Hn2]; [congruence|].
  rewrite Hrest, Harest by assumption. now rewrite Hcopy, Hi.
Qed.

Lemma opposite_involutive (c : Color) : opposite (opposite c) = c.
Proof. now destruct c. Qed.

Lemma legal_leaves_king_safe (s s' : State) (mv : Move) :
  onBoard mv ->
  isLegalMove (boardState s) mv (currentPlayer s) = Ret true ->
  performMove s mv = Ret s' ->
  isKingInCheck (boardState s') (currentPlayer s) = Ret false.
Proof.
  intros Hm Hl Hperf.
  destruct (legal_move_shape _ _ _ Hm Hl) as (Hne & p & Hp & _).
  destruct (isLegalMove_on_board (boardState s) mv (currentPlayer s))
    as (b & Hb & Hiff); try apply Hm.
  assert (b = true) by congruence. subst b.
  destruct (proj1 Hiff eq_refl) as (_ & _ & c & c' & Hc & Hc' & Hchk).
  destruct (performMove_simulated s s' mv p Hm Hne Hp Hperf)
    as (copy & after & Hcopy & Hafter & Hsame).
  assert (copy = c) by congruence. subst copy.
  assert (after = c') by congruence. subst after.
  now rewrite (isKingInCheck_same _ _ _ Hsame).
Qed.

(** ** Regular positions *)

Lemma NoDup_squares : List.NoDup squares.
Proof.
  apply NoDup_ListNoDup. apply (bool_decide_unpack _). vm_compute. reflexivity.
Qed.

Lemma NoDup_singleton {A : Type} (l : list A) (k : A) :
  List.NoDup l -> (forall a, In a l <-> a = k) -> l = [k].
Proof.
  intros Hnd Hin. destruct l as [|a l].
  - exfalso. now apply (proj2 (Hin k) eq_refl).
  - assert (a = k) by (apply Hin; now left). subst a.
    destruct l as [|b l]; [reflexivity|].
    assert (b = k) by (apply Hin; right; now left). subst b.
    apply List.NoDup_cons_iff in Hnd as [Hnot _]. exfalso. apply Hnot. now left.
Qed.

Lemma oneKing_spec (bs : board) (c : Color) :
  oneKing bs c
  <-> exists x z,
        isInside x z = true
        /\ forall x' z', isInside x' z' = true ->
             (bs !! (z', x') = Some (mkPiece king c) <-> (z', x') = (z, x)).
Proof.
  unfold oneKing. split.
  - intros ([z x] & Hk).
    assert (Hin : In (z, x) (kingSquares bs c)) by (rewrite Hk; now left).
    apply In_kingSquares in Hin as [Hi Hp].
    exists x, z. split; [exact Hi|]. intros x' z' Hi'. split.
    + intros Hp'. assert (Hin' : In (z', x') (kingSquares bs c))
        by (apply In_kingSquares; now split).
      rewrite Hk in Hin'. destruct Hin' as [<-|[]]. reflexivity.
    + intros E. injection E as -> ->. exact Hp.
  - intros (x & z & Hi & Hu). exists (z, x).
    apply NoDup_singleton.
    + unfold kingSquares. apply List.NoDup_filter, NoDup_squares.
    + intros [z' x']. rewrite In_kingSquares. split.
      * intros [Hi' Hp']. now apply (Hu x' z' Hi').
      * intros E. injection E as -> ->. split; [exact Hi|]. now apply Hu.
Qed.

Lemma pseudoLegal_target (bs : board) (mv : Move) (p : Piece) :
  hasRow (fromZ mv) = true -> hasRow (toZ mv) = true ->
  bs !! (fromZ mv, fromX mv) = Some p ->
  isPseudoLegal mv bs false = Ret true ->
  sameColor (bs !! (toZ mv, toX mv)) p = false.
Proof.
  intros Hf Ht Hp H. unfold isPseudoLegal in H.
  rewrite !cellGuarded_row, Hp in H by assumption.
  destruct (sameColor _ p); [discriminate H|reflexivity].
Qed.

Lemma promoted_not_king (p : Piece) (tz : Z) (c : Color) :
  p <> mkPiece king c -> promoted p tz <> mkPiece king c.
Proof.
  intros Hp. unfold promoted.
  destruct (bool_decide (type p = pawn) && _); [discriminate|exact Hp].
Qed.

Lemma promoted_king (c : Color) (tz : Z) :
  promoted (mkPiece king c) tz = mkPiece king c.
Proof. reflexivity. Qed.

Lemma oneKing_after (bs bs' : board) (mv : Move) (p : Piece) (c : Color) :
  onBoard mv ->
  (fromZ mv, fromX mv) <> (toZ mv, toX mv) ->
  bs !! (fromZ mv, fromX mv) = Some p ->
  bs' !! (toZ mv, toX mv) = Some (promoted p (toZ mv)) ->
  bs' !! (fromZ mv, fromX mv) = None ->
  (forall k, k <> (toZ mv, toX mv) -> k <> (fromZ mv, fromX mv) ->
             bs' !! k = bs !! k) ->
  bs !! (toZ mv, toX mv) <> Some (mkPiece king c) ->
  oneKing bs c -> oneKing bs' c.
Proof.
  intros [Hf Ht] Hne Hp Hto Hfrom Hrest Hnot.
  rewrite !oneKing_spec. intros (x & z & Hi & Hu).
  destruct (decide (p = mkPiece king c)) as [->|Hpk].
  - assert (HK : (fromZ mv, fromX mv) = (z, x)) by now apply Hu.
    exists (toX mv), (toZ mv). split; [exact Ht|]. intros x' z' Hi'.
    destruct (decide ((z', x') = (toZ mv, toX mv))) as [E|Hn1].
    { rewrite E, Hto. tauto. }
    destruct (decide ((z', x') = (fromZ mv, fromX mv))) as [E|Hn2].
    { rewrite E, Hfrom. split; [discriminate|congruence]. }
    rewrite Hrest, (Hu x' z' Hi') by assumption.
    split; [congruence|tauto].
  - assert (HKf : (z, x) <> (fromZ mv, fromX mv)).
    { intros E. apply Hpk. rewrite <- E in Hp.
      assert (Hk : bs !! (z, x) = Some (mkPiece king c)) by now apply Hu.
      congruence. }
    assert (HKt : (z, x) <> (toZ mv, toX mv)).
    { intros E. apply Hnot. rewrite <- E. now apply Hu. }
    exists x, z. split; [exact Hi|]. intros x' z' Hi'.
    destruct (decide ((z', x') = (toZ mv, toX mv))) as [E|Hn1].
    { rewrite E, Hto. split; [|congruence].
      intros E'. injection E' as E'. now apply promoted_not_king in E'. }
    destruct (decide ((z', x') = (fromZ mv, fromX mv))) as [E|Hn2].
    { rewrite E, Hfrom. split; [discriminate|congruence]. }
    rewrite Hrest by assumption. now apply Hu.
Qed.

(** A piece that could take the king gives check. *)
Lemma king_capture_is_check (bs : board) (mv : Move) (p : Piece) (c : Color) :
  onBoard mv ->
  bs !! (fromZ mv, fromX mv) = Some p -> color p <> c ->
  isPseudoLegal mv bs false = Ret true ->
  bs !! (toZ mv, toX mv) = Some (mkPiece king c) ->
  oneKing bs c ->
  isKingInCheck bs c = Ret true.
Proof.
  intros [Hf Ht] Hp Hc Hpl Hk ([z x] & Hone).
  destruct (isKingInCheck_attacked bs c) as (b & Hb & Hiff).
  rewrite Hb. f_equal. apply Hiff. rewrite Hone. cbn [last].
  assert (Hin : In (toZ mv, toX mv) (kingSquares bs c))
    by (apply In_kingSquares; now split).
  rewrite Hone in Hin. destruct Hin as [E|[]]. injection E as -> ->.
  destruct (generate_iff_predicate bs (fromX mv) (fromZ mv) (toX mv) (toZ mv) p
              Hf Ht Hp) as (l & Hl & Hin).
  exists (fromX mv), (fromZ mv), p, l. repeat split; auto.
  apply Hin. now destruct mv.
Qed.

Lemma legal_move_keeps_regular (s s' : State) (mv : Move) :
  regular s -> onBoard mv ->
  isLegalMove (boardState s) mv (currentPlayer s) = Ret true ->
  performMove s mv = Ret s' ->
  regular s'.
Proof.
  intros (Hw & Hb & Hsafe) Hm Hl Hperf.
  destruct (legal_move_shape _ _ _ Hm Hl) as (Hne & p & Hp & Hcol).
  destruct (isLegalMove_on_board (boardState s) mv (currentPlayer s)
              (proj1 Hm) (proj2 Hm)) as (b & Hb' & Hiff).
  assert (b = true) by (rewrite Hl in Hb'; now injection Hb'). subst b.
  destruct (proj1 Hiff eq_refl) as (_ & Hpl & _).
  assert (Hrf : hasRow (fromZ mv) = true)
    by exact (isInside_hasRow _ _ (proj1 Hm)).
  assert (Hrt : hasRow (toZ mv) = true)
    by exact (isInside_hasRow _ _ (proj2 Hm)).
  destruct (performMove_ret s mv p Hrf Hrt Hne Hp)
    as (s1 & Hs1 & Hto & Hfrom & Hrest & Hturn & _).
  assert (s1 = s') by (rewrite Hperf in Hs1; now injection Hs1). subst s1.
  pose proof (pseudoLegal_target _ _ _ Hrf Hrt Hp Hpl) as Hown.
  assert (Hkeep : forall c, oneKing (boardState s) c ->
                            oneKing (boardState s') c).
  { intros c. apply (oneKing_after (boardState s) (boardState s') mv p c
                       Hm Hne Hp Hto Hfrom Hrest).
    intros Hk. destruct (decide (c = currentPlayer s)) as [->|Hc].
    - rewrite Hk in Hown. cbn [sameColor color] in Hown.
      apply bool_decide_eq_false in Hown. apply Hown. now rewrite Hcol.
    - assert (Hopp : opposite (currentPlayer s) = c).
      { destruct c, (currentPlayer s); try reflexivity; now elim Hc. }
      assert (Hchk : isKingInCheck (boardState s) c = Ret true).
      { apply (king_capture_is_check (boardState s) mv p c Hm Hp).
        - now rewrite Hcol.
        - exact Hpl.
        - exact Hk.
        - destruct c; assumption. }
      rewrite Hopp in Hsafe. rewrite Hsafe in Hchk. discriminate Hchk. }
  split; [exact (Hkeep white Hw)|]. split; [exact (Hkeep black Hb)|].
  rewrite Hturn, opposite_involutive.
  exact (legal_leaves_king_safe s s' mv Hm Hl Hperf).
Qed.

Lemma attempt_keeps_regular (s : State) (mv : Move) :
  regular s -> onBoard mv ->
  exists s' ok, attemptMove s mv = Ret (s', ok) /\ regular s'.
Proof.
  intros Hreg Hm. unfold attemptMove.
  destruct (bool_decide (gameState s <> playing)); [eauto|].
  destruct (isLegalMove_total (boardState s) mv (currentPlayer s) Hm)
    as ([|] & Hok); rewrite Hok; cbn [bind]; [|eauto].
  destruct (legal_move_shape _ _ _ Hm Hok) as (Hne & p & Hp & _).
  destruct (performMove_ret s mv p (isInside_hasRow _ _ (proj1 Hm))
              (isInside_hasRow _ _ (proj2 Hm)) Hne Hp) as (s' & Hs' & _).
  rewrite Hs'. cbn [bind]. exists s', true. split; [reflexivity|].
  exact (legal_move_keeps_regular s s' mv Hreg Hm Hok Hs').
Qed.

Lemma playAttempts_regular (moves : list Move) :
  Forall onBoard moves ->
  forall s0, regular s0 ->
             exists s, playAttempts s0 moves = Ret s /\ regular s.
Proof.
  induction 1 as [|m moves Hm _ IH]; intros s0 Hreg.
  - exists s0. split; [reflexivity|exact Hreg].
  - destruct (attempt_keeps_regular s0 m Hreg Hm) as (s1 & ok & Hs1 & Hreg1).
    destruct (IH s1 Hreg1) as (s & Hs & Hregs).
    exists s. split; [|exact Hregs].
    unfold playAttempts in *. cbn [foldM]. rewrite Hs1. cbn [bind]. exact Hs.
Qed.

Lemma resetGame_regular : exists s0, resetGame = Ret s0 /\ regular s0.
Proof.
  assert (K : (let* s0 := resetGame in
               let* chk := isKingInCheck (boardState s0)
                             (opposite (currentPlayer s0)) in
               Ret (kingSquares (boardState s0) white,
                    kingSquares (boardState s0) black, chk))
              = Ret ([(7, 4)], [(0, 4)], false)) by (vm_compute; reflexivity).
  destruct resetGame as [s0| |]; [|discriminate K|discriminate K].
  cbn [bind] in K.
  destruct (isKingInCheck (boardState s0) (opposite (currentPlayer s0)))
    as [chk| |] eqn:Hchk; [|discriminate K|discriminate K].
  cbn [bind] in K. injection K as Hw Hb ->.
  exists s0. split; [reflexivity|].
  split; [now exists (7, 4)|]. split; [now exists (0, 4)|exact Hchk].
Qed.

(** ** What a clear path is *)



(** ** Undo, bounds, the generator, the automated side and the material *)

(** [performMove] followed by [undoMove], promotion included: everything
    comes back but the kind of a promoted pawn. *)
Lemma perform_then_undo (s : State) (mv : Move) (p : Piece) :
  hasRow (fromZ mv) = true -> hasRow (toZ mv) = true ->
  (fromZ mv, fromX mv) <> (toZ mv, toX mv) ->
  boardState s !! (fromZ mv, fromX mv) = Some p ->
  exists s1 s2,
    performMove s mv = Ret s1 /\ undoMove s1 = Ret s2
    /\ boardState s2
       = <[(fromZ mv, fromX mv) := promoted p (toZ mv)]> (boardState s)
    /\ currentPlayer s2 = currentPlayer s
    /\ captured s2 = captured s
    /\ moveHistory s2 = moveHistory s
    /\ gameState s2 = playing
    /\ statusBox s2 = "Game in Progress".
Proof.
  intros Hf Ht Hne Hp.
  destruct (performMove_ret s mv p Hf Ht Hne Hp)
    as (s1 & Hs1 & Hto & Hfrom & Hrest & Hturn & Hhist & Hcapt).
  exists s1. unfold undoMove. rewrite Hhist, last_snoc, removelast_last.
  cbn [h_move h_captured h_mover].
  rewrite (cell_row _ _ _ Ht), Hto. cbn [bind].
  rewrite (setCell_row _ _ _ _ Hf). cbn [bind].
  rewrite (setCell_row _ _ _ _ Ht). cbn [bind].
  rewrite Hcapt. unfold capturedAfter, spawnPiece.
  assert (Hmap : forall (v : option Piece) (b : board),
             (forall k, k <> (toZ mv, toX mv) -> b !! k
                = partial_alter (fun _ => None) (toZ mv, toX mv)
                    (partial_alter (fun _ => Some (promoted p (toZ mv)))
                       (fromZ mv, fromX mv) (boardState s1)) !! k) ->
             b !! (toZ mv, toX mv) = boardState s !! (toZ mv, toX mv) ->
             b = <[(fromZ mv, fromX mv) := promoted p (toZ mv)]> (boardState s)).
  { intros v b Hb1 Hb2. apply map_eq. intros k.
    destruct (decide (k = (toZ mv, toX mv))) as [->|Hk1].
    - rewrite Hb2, lookup_insert_ne by assumption. reflexivity.
    - rewrite (Hb1 k Hk1), !lookup_put.
      destruct (decide ((toZ mv, toX mv) = k)) as [E|_]; [congruence|].
      destruct (decide ((fromZ mv, fromX mv) = k)) as [<-|Hk2].
      + now rewrite lookup_insert_eq.
      + rewrite lookup_insert_ne by assumption. apply Hrest; congruence. }
  destruct (boardState s !! (toZ mv, toX mv)) as [t|] eqn:Htgt.
  - rewrite (setCell_row _ _ _ _ Ht). cbn [bind]. rewrite piece_eta.
    eexists. split; [exact Hs1|]. split; [reflexivity|].
    cbn [boardState currentPlayer captured gameState moveHistory statusBox].
    split; [|repeat split; auto using setCapturedBy_pop].
    apply (Hmap None).
    + intros k Hk. rewrite (lookup_put _ (toZ mv, toX mv) k).
      destruct (decide ((toZ mv, toX mv) = k)) as [E|_]; [congruence|].
      reflexivity.
    + rewrite lookup_put. destruct (decide _) as [_|E]; [reflexivity|congruence].
  - cbn [bind]. eexists. split; [exact Hs1|]. split; [reflexivity|].
    cbn [boardState currentPlayer captured gameState moveHistory statusBox].
    split; [|repeat split; auto].
    apply (Hmap None).
    + intros k Hk. reflexivity.
    + rewrite lookup_put. destruct (decide _) as [_|E]; [reflexivity|congruence].
Qed.

Lemma isLegalMove_off_rows (bs : board) (mv : Move) (player : Color) (p : Piece) :
  isInside (fromX mv) (fromZ mv) = true ->
  hasRow (toZ mv) = false ->
  bs !! (fromZ mv, fromX mv) = Some p -> color p = player ->
  isPseudoLegal mv bs false = Ret true ->
  isLegalMove bs mv player = Throw.
Proof.
  intros Hf Ht Hp Hc Hpl. unfold isLegalMove.
  rewrite (cell_inside _ _ _ Hf), Hp. cbn [bind].
  rewrite bool_decide_eq_false_2 by (intros E; now apply E).
  rewrite Hpl. cbn [bind negb].
  destruct (cloneBoard_ret bs) as (c & -> & Hcopy). cbn [bind].
  unfold applyMoveOnClone. rewrite (cell_inside _ _ _ Hf). cbn [bind].
  unfold setCell at 1. rewrite Ht. reflexivity.
Qed.

Lemma isLegalMove_off_columns (bs : board) (mv : Move) (player : Color)
      (p : Piece) :
  isInside (fromX mv) (fromZ mv) = true ->
  hasRow (toZ mv) = true -> isInside (toX mv) (toZ mv) = false ->
  bs !! (fromZ mv, fromX mv) = Some p -> color p = player ->
  isPseudoLegal mv bs false = Ret true ->
  exists copy after chk,
    cloneBoard bs = Ret copy
    /\ applyMoveOnClone copy mv = Ret after
    /\ (forall x z, isInside x z = true ->
          after !! (z, x)
          = if decide ((z, x) = (fromZ mv, fromX mv)) then None
            else bs !! (z, x))
    /\ isKingInCheck after player = Ret chk
    /\ isLegalMove bs mv player = Ret (negb chk).
Proof.
  intros Hf Ht Hout Hp Hc Hpl.
  assert (Hne : (fromZ mv, fromX mv) <> (toZ mv, toX mv)).
  { intros E. injection E as E1 E2. rewrite <- E1, <- E2, Hf in Hout.
    discriminate Hout. }
  destruct (cloneBoard_ret bs) as (copy & Hcopy & Hcells).
  assert (Hcp : copy !! (fromZ mv, fromX mv) = Some p)
    by now rewrite Hcells, Hf.
  destruct (applyMoveOnClone_ret copy mv p (isInside_hasRow _ _ Hf) Ht Hne Hcp)
    as (after & Hafter & _ & Hfrom & Hrest).
  destruct (isKingInCheck_total after player) as (chk & Hchk).
  exists copy, after, chk. split; [exact Hcopy|]. split; [exact Hafter|].
  split; [|split; [exact Hchk|]].
  - intros x z Hi. destruct (decide ((z, x) = (fromZ mv, fromX mv))) as [->|Hk].
    + exact Hfrom.
    + rewrite Hrest, Hcells, Hi; [reflexivity| |exact Hk].
      intros E. injection E as -> ->. rewrite Hi in Hout. discriminate Hout.
  - unfold isLegalMove. rewrite (cell_inside _ _ _ Hf), Hp. cbn [bind].
    rewrite bool_decide_eq_false_2 by (intros E; now apply E).
    rewrite Hpl. cbn [bind negb]. rewrite Hcopy. cbn [bind].
    rewrite Hafter. cbn [bind]. rewrite Hchk. reflexivity.
Qed.

Lemma generated_destinations (bs : board) (x z : Z) (p : Piece) :
  isInside x z = true -> bs !! (z, x) = Some p ->
  exists l,
    generatePseudoMoves x z bs = Ret l
    /\ forall tx tz, In (tx, tz) l ->
         isInside tx tz = true /\ (tx, tz) <> (x, z)
         /\ freeFor (bs !! (tz, tx)) (color p) = true.
Proof.
  intros Hi Hp. destruct (generate_ret bs x z Hi) as (l & Hl & Hin).
  exists l. split; [exact Hl|]. intros tx tz Ht.
  pose proof (Hin tx tz Ht) as Hti.
  destruct (generate_iff_predicate bs x z tx tz p Hi Hti Hp) as (l' & Hl' & Hiff).
  assert (l' = l) by (rewrite Hl in Hl'; now injection Hl'). subst l'.
  apply Hiff in Ht. split; [exact Hti|]. split.
  - pose proof (isPseudoLegal_true_moves bs _ Ht) as Hne.
    cbn [fromX fromZ toX toZ] in Hne. congruence.
  - rewrite freeFor_sameColor.
    pose proof (pseudoLegal_target bs (mkMove x z tx tz) p
                  (isInside_hasRow _ _ Hi) (isInside_hasRow _ _ Hti) Hp Ht)
      as Hown.
    cbn [toX toZ] in Hown. now rewrite Hown.
Qed.

Lemma makeBestAIMove_plays_black (s : State) :
  exists moves,
    allLegalMovesFor (boardState s) black = Ret moves
    /\ match moves with
       | [] => makeBestAIMove s = Ret s
       | _ :: _ =>
           exists m p s',
             In m moves
             /\ boardState s !! (fromZ m, fromX m) = Some p /\ color p = black
             /\ makeBestAIMove s = Ret s' /\ performMove s m = Ret s'
             /\ currentPlayer s' = opposite (currentPlayer s)
             /\ last (moveHistory s')
                = Some (mkEntry m (boardState s !! (toZ m, toX m))
                          (currentPlayer s))
       end.
Proof.
  destruct (bestAIMove_total s) as (best & Hbest).
  destruct (bestAIMove_first_minimum s best Hbest) as (moves & Hmoves & Hshape).
  exists moves. split; [exact Hmoves|].
  unfold makeBestAIMove. rewrite Hbest. cbn [bind].
  destruct best as [m|].
  - destruct Hshape as (i & v & Hi & _).
    assert (Hin : In m moves).
    { apply list_elem_of_In. eapply list_elem_of_lookup_2. exact Hi. }
    destruct (allLegalMovesFor_spec (boardState s) black) as (l & Hl & Hspec).
    assert (l = moves) by (rewrite Hmoves in Hl; now injection Hl). subst l.
    apply Hspec in Hin as Hlegal. destruct Hlegal as [Hm Hlegal].
    destruct (legal_move_shape _ _ _ Hm Hlegal) as (Hne & p & Hp & Hc).
    destruct (performMove_ret s m p (isInside_hasRow _ _ (proj1 Hm))
                (isInside_hasRow _ _ (proj2 Hm)) Hne Hp)
      as (s' & Hs' & _ & _ & _ & Hturn & Hhist & _).
    destruct moves as [|m0 moves]; [destruct Hin|].
    exists m, p, s'. repeat split; auto.
    rewrite Hhist. apply last_snoc.
  - subst moves. reflexivity.
Qed.

Lemma material_fold (bs : board) (l : list (Z * Z)) :
  Forall (fun k => hasRow k.1 = true) l ->
  forall acc,
    foldM (fun score '(z, x) =>
             let* p := cell bs z x in
             match p with
             | Some p =>
                 Ret (score
                      + (if bool_decide (color p = white) then 1 else -1)
                        * PIECE_VALUES (type p))
             | None => Ret score
             end) l acc
    = Ret (acc + material bs l).
Proof.
  induction 1 as [|[z x] l Hrow _ IH]; intros acc.
  - cbn. f_equal. lia.
  - cbn [foldM material foldr]. cbn [fst] in Hrow.
    rewrite (cell_row _ _ _ Hrow). cbn [bind].
    destruct (bs !! (z, x)) as [p|]; cbn [bind pieceValue]; rewrite IH;
      f_equal; fold (material bs l); lia.
Qed.

Lemma evaluateMaterial_sum (bs : board) :
  evaluateMaterial bs = Ret (material bs squares).
Proof.
  unfold evaluateMaterial. rewrite (material_fold bs squares squares_rows 0).
  reflexivity.
Qed.

Lemma material_ext (b1 b2 : board) (l : list (Z * Z)) :
  (forall k, In k l -> b1 !! k = b2 !! k) -> material b1 l = material b2 l.
Proof.
  induction l as [|k l IH]; intros H; [reflexivity|].
  cbn [material foldr]. fold (material b1 l). fold (material b2 l).
  rewrite (H k (or_introl eq_refl)), IH; [reflexivity|].
  intros k' Hk'. apply H. now right.
Qed.

Lemma material_put (bs : board) (k : Z * Z) (v : option Piece)
      (l : list (Z * Z)) :
  List.NoDup l -> In k l ->
  material (partial_alter (fun _ => v) k bs) l
  = material bs l - pieceValue (bs !! k) + pieceValue v.
Proof.
  induction 1 as [|a l Hnot Hnd IH]; intros Hin; [destruct Hin|].
  cbn [material foldr].
  fold (material (partial_alter (fun _ => v) k bs) l). fold (material bs l).
  rewrite lookup_put. destruct (decide (k = a)) as [->|Hka].
  - rewrite (material_ext (partial_alter (fun _ => v) a bs) bs l); [lia|].
    intros k' Hk'. rewrite lookup_put.
    destruct (decide (a = k')) as [->|_]; [contradiction|reflexivity].
  - destruct Hin as [E|Hin]; [congruence|]. rewrite (IH Hin). lia.
Qed.

Lemma material_after_move (bs : board) (mv : Move) (p : Piece) :
  onBoard mv ->
  (fromZ mv, fromX mv) <> (toZ mv, toX mv) ->
  bs !! (fromZ mv, fromX mv) = Some p ->
  exists copy after v,
    cloneBoard bs = Ret copy
    /\ applyMoveOnClone copy mv = Ret after
    /\ evaluateMaterial bs = Ret v
    /\ evaluateMaterial after
       = Ret (v - pieceValue (bs !! (toZ mv, toX mv))
              + (pieceValue (Some (promoted p (toZ mv))) - pieceValue (Some p))).
Proof.
  intros [Hf Ht] Hne Hp.
  destruct (cloneBoard_ret bs) as (copy & Hcopy & Hcells).
  assert (Hcp : copy !! (fromZ mv, fromX mv) = Some p)
    by now rewrite Hcells, Hf.
  destruct (applyMoveOnClone_ret copy mv p (isInside_hasRow _ _ Hf)
              (isInside_hasRow _ _ Ht) Hne Hcp)
    as (after & Hafter & Hto & Hfrom & Hrest).
  exists copy, after, (material bs squares).
  split; [exact Hcopy|]. split; [exact Hafter|].
  split; [apply evaluateMaterial_sum|]. rewrite evaluateMaterial_sum. f_equal.
  set (b1 := partial_alter (fun _ => None) (fromZ mv, fromX mv) bs).
  set (b2 := partial_alter (fun _ => Some (promoted p (toZ mv)))
               (toZ mv, toX mv) b1).
  rewrite (material_ext after b2 squares).
  - subst b2. rewrite material_put;
      [|exact NoDup_squares|now apply In_squares].
    subst b1. rewrite material_put;
      [|exact NoDup_squares|now apply In_squares].
    rewrite lookup_put. destruct (decide _) as [E|_]; [contradiction|].
    rewrite Hp. cbn [pieceValue]. lia.
  - intros [z x] Hin. apply In_squares in Hin. subst b2 b1.
    rewrite !lookup_put.
    destruct (decide ((toZ mv, toX mv) = (z, x))) as [<-|Hk1]; [exact Hto|].
    destruct (decide ((fromZ mv, fromX mv) = (z, x))) as [<-|Hk2];
      [exact Hfrom|].
    rewrite Hrest by congruence. now rewrite Hcells, Hin.
Qed.

Lemma cloneBoard_copy (bs : board) :
  exists copy,
    cloneBoard bs = Ret copy
    /\ sameSquares copy bs
    /\ (forall x z, isInside x z = false -> copy !! (z, x) = None)
    /\ cloneBoard copy = Ret copy.
Proof.
  destruct (cloneBoard_ret bs) as (copy & Hcopy & Hcells).
  exists copy. split; [exact Hcopy|]. split; [|split].
  - intros x z Hi. now rewrite Hcells, Hi.
  - intros x z Hi. now rewrite Hcells, Hi.
  - destruct (cloneBoard_ret copy) as (c2 & Hc2 & Hcells2). rewrite Hc2.
    f_equal. apply map_eq. intros [z x]. rewrite Hcells2, Hcells.
    now destruct (isInside x z).
Qed.

(** ** The camera *)

Lemma coherent_top (c : Camera) : coherent (setTopCameraTarget c).
Proof. repeat split; cbn; try lia; discriminate. Qed.

Lemma coherent_dblclick (c : Camera) :
  coherent c -> coherent (onCanvasDblClick c).
Proof.
  destruct c as [d r i t l]. unfold coherent, onCanvasDblClick, presetOf.
  cbn [is3D autoRotate orientationIndex cameraTarget cameraLookTarget].
  intros (Hrot & Htop & Hidx & Htgt & Hlook). destruct d; cbn [negb] in *.
  - cbn [is3D autoRotate orientationIndex cameraTarget cameraLookTarget negb].
    repeat split; auto; lia.
  - unfold setNeutral3DTarget.
    cbn [is3D autoRotate orientationIndex cameraTarget cameraLookTarget negb
         Z.eqb].
    repeat split; auto; lia.
Qed.

Lemma click_cycles (c : Camera) :
  coherent c -> is3D c = true ->
  coherent (onCanvasClick c false).1
  /\ is3D (onCanvasClick c false).1 = true
  /\ autoRotate (onCanvasClick c false).1 = autoRotate c
  /\ orientationIndex (onCanvasClick c false).1
     = Z.rem (orientationIndex c + 1) 3.
Proof.
  destruct c as [d r i t l]. unfold coherent, onCanvasClick, presetOf.
  cbn [is3D autoRotate orientationIndex cameraTarget cameraLookTarget].
  intros (Hrot & Htop & Hidx & Htgt & Hlook) ->. cbn [negb fst].
  assert (Hcases : i = 0 \/ i = 1 \/ i = 2) by lia.
  destruct Hcases as [ -> | [ -> | -> ] ];
    [change (Z.rem (0 + 1) 3) with 1|change (Z.rem (1 + 1) 3) with 2
    |change (Z.rem (2 + 1) 3) with 0];
    cbn; repeat split; auto; try lia; discriminate.
Qed.

Lemma three_clicks (c : Camera) :
  coherent c -> is3D c = true ->
  (onCanvasClick (onCanvasClick (onCanvasClick c false).1 false).1 false).1 = c.
Proof.
  destruct c as [d r i t l]. unfold coherent, presetOf.
  cbn [is3D autoRotate orientationIndex cameraTarget cameraLookTarget].
  intros (Hrot & Htop & Hidx & Htgt & Hlook) ->. cbn [negb] in Htgt.
  assert (Hcases : i = 0 \/ i = 1 \/ i = 2) by lia.
  destruct Hcases as [ -> | [ -> | -> ] ]; cbn in Htgt; subst t l; reflexivity.
Qed.

(** ** The properties of the specification *)

(** C1. For a move between squares of the board and any color, [isLegalMove]
    returns, and it returns [true] exactly when (a) the from-square of the
    live board holds a piece of that color, (b) the move is pseudo-legal on
    the live board, and (c) after applying the move to a copy of the board
    the king of that color is not attacked on the copy. *)
Theorem isLegalMove_iff_conditions (live : board) (move : Move) (player : Color) :
  isInside (fromX move) (fromZ move) = true ->
  isInside (toX move) (toZ move) = true ->
  exists b,
    isLegalMove live move player = Ret b
    /\ (b = true <->
        (exists p, live !! (fromZ move, fromX move) = Some p /\ color p = player)
        /\ isPseudoLegal move live false = Ret true
        /\ exists copy after,
             cloneBoard live = Ret copy
             /\ applyMoveOnClone copy move = Ret after
             /\ isKingInCheck after player = Ret false).
Proof. exact (isLegalMove_on_board live move player). Qed.

Lemma isLegalMove_iff_conditions_witness :
  isInside 3 0 = true /\ isInside 3 4 = true
  /\ exists b,
       isLegalMove hangingQueen (mkMove 3 0 3 4) black = Ret b
       /\ (b = true <-> legalConditions hangingQueen (mkMove 3 0 3 4) black).
Proof.
  split; [reflexivity|]. split; [reflexivity|].
  unfold legalConditions.
  exact (isLegalMove_iff_conditions hangingQueen (mkMove 3 0 3 4) black
           eq_refl eq_refl).
Defined.

(** C2. From the position of a new game, and from the position after
    1. e4 d5 2. exd5 in which a capture is pending, [performMove] of any
    legal move followed by [undoMove] gives back the board contents, the
    side to move, both captured lists and the game phase. *)
Theorem perform_undo_round_trip :
  (exists s, resetGame = Ret s
             /\ forall m, onBoard m ->
                  isLegalMove (boardState s) m (currentPlayer s) = Ret true ->
                  roundTrip s m)
  /\ (exists s, midGame = Ret s /\ pendingCapture s
                /\ forall m, onBoard m ->
                     isLegalMove (boardState s) m (currentPlayer s) = Ret true ->
                     roundTrip s m).
Proof.
  split.
  - assert (H : allRoundTripb resetGame = true) by (vm_compute; reflexivity).
    destruct resetGame as [s| |] eqn:E; [|discriminate H|discriminate H].
    exists s. split; [reflexivity|]. now apply (allRoundTripb_sound (Ret s)).
  - assert (H : allRoundTripb midGame = true) by (vm_compute; reflexivity).
    assert (K : (let* s := midGame in
                 let* ok := isLegalMove (boardState s) (mkMove 3 0 3 3)
                              (currentPlayer s) in
                 Ret (ok, isSome (boardState s !! (3, 3)))) = Ret (true, true))
      by (vm_compute; reflexivity).
    destruct midGame as [s| |] eqn:E; [|discriminate H|discriminate H].
    exists s. split; [reflexivity|]. split.
    + cbn [bind] in K. exists (mkMove 3 0 3 3).
      destruct (isLegalMove _ _ _) as [ok| |]; [|discriminate K|discriminate K].
      cbn [bind] in K. injection K as -> Hsome.
      split; [split; reflexivity|]. split; [reflexivity|].
      cbn [toZ toX]. destruct (boardState s !! (3, 3)); [eauto|discriminate].
    + now apply (allRoundTripb_sound (Ret s)).
Qed.

Lemma perform_undo_round_trip_witness :
  exists s, resetGame = Ret s /\ roundTrip s (mkMove 4 6 4 4).
Proof.
  destruct (proj1 perform_undo_round_trip) as (s & Hs & H).
  exists s. split; [exact Hs|]. apply H.
  - split; reflexivity.
  - assert (K : (let* s := resetGame in
                 isLegalMove (boardState s) (mkMove 4 6 4 4) (currentPlayer s))
                = Ret true) by (vm_compute; reflexivity).
    rewrite Hs in K. exact K.
Defined.

(** C3. The search does not enumerate the opponent's replies on the
    position that results from the simulated move: it generates them there
    but tests them with [isLegalMove] on the live board.  After
    1. e4 d5 2. Nc3 the code gives the capture dxe4 the score -100 and plays
    it, because the recapture Nxe4, legal in the resulting position, is not
    among the replies it keeps; scored as the specification says, dxe4 is
    worth 0 and the move chosen is d4. *)
Theorem search_tests_replies_on_live_board :
  (let* s := opening in Ret (currentPlayer s)) = Ret black
  /\ (let* s := opening in bestAIMove s) = Ret (Some (mkMove 3 3 4 4))
  /\ (let* s := opening in spec_bestMove (boardState s))
     = Ret (Some (mkMove 3 3 3 4))
  /\ (let* s := opening in worstAfter (boardState s) (mkMove 3 3 4 4))
     = Ret (Finite (-100))
  /\ (let* s := opening in spec_score (boardState s) (mkMove 3 3 4 4)) = Ret 0
  /\ (let* s := opening in
      let* after := spec_simulate (boardState s) (mkMove 3 3 4 4) in
      let* kept := collectOppMoves (boardState s) after in
      let* legalAfter := isLegalMove after (mkMove 2 5 4 4) white in
      let* legalLive := isLegalMove (boardState s) (mkMove 2 5 4 4) white in
      Ret (legalAfter, legalLive, bool_decide (mkMove 2 5 4 4 ∈ kept)))
     = Ret (true, false, false).
Proof. repeat split; vm_compute; reflexivity. Qed.

(** The same defect makes the search give away the queen: with a white pawn
    on d4 protected by the pawn on c3, the code plays Qxd4 (its score -800),
    while the score of that move after the recapture is +100 and the search
    of the specification plays Qc8. *)
Example search_hangs_the_queen :
  bestAIMove (mkState hangingQueen black playing [] (mkCaptured [] []) "")
  = Ret (Some (mkMove 3 0 3 4))
  /\ worstAfter hangingQueen (mkMove 3 0 3 4) = Ret (Finite (-800))
  /\ spec_score hangingQueen (mkMove 3 0 3 4) = Ret 100
  /\ spec_bestMove hangingQueen = Ret (Some (mkMove 3 0 2 0)).
Proof. repeat split; vm_compute; reflexivity. Qed.

(** C4. When [performMove] returns, the turn has been flipped and the
    position classified for the new side to move, whose legal moves are the
    moves between squares of the board that [isLegalMove] accepts: with no
    legal move the phase is [ended], and the status names that side as
    checkmated when its king is attacked and says stalemate otherwise; with
    a legal move the phase is left as it was. *)
Theorem game_phase_after_move (s : State) (move : Move) (s' : State) :
  performMove s move = Ret s' ->
  exists legal inCheck,
    allLegalMovesFor (boardState s') (currentPlayer s') = Ret legal
    /\ (forall m, In m legal <->
                  onBoard m
                  /\ isLegalMove (boardState s') m (currentPlayer s') = Ret true)
    /\ isKingInCheck (boardState s') (currentPlayer s') = Ret inCheck
    /\ currentPlayer s' = opposite (currentPlayer s)
    /\ (legal = [] ->
        gameState s' = ended
        /\ statusBox s' =
           (if inCheck
            then capitalize (colorName (currentPlayer s')) +:+ " is checkmated!"
            else "Stalemate"))
    /\ (legal <> [] ->
        gameState s' = gameState s /\ statusBox s' = "Game in Progress").
Proof.
  intros H. apply performMove_evaluates in H as (s1 & Hev & Hturn & Hphase).
  destruct (evaluateGameState_spec s1) as (legal & inCheck & Hl & Hc & Hev').
  rewrite Hev' in Hev. injection Hev as <-.
  exists legal, inCheck.
  assert (Hb : boardState (classified s1 legal inCheck) = boardState s1)
    by (destruct legal; reflexivity).
  assert (Hp : currentPlayer (classified s1 legal inCheck) = currentPlayer s1)
    by (destruct legal; reflexivity).
  rewrite Hb, Hp.
  split; [exact Hl|]. split.
  { destruct (allLegalMovesFor_spec (boardState s1) (currentPlayer s1))
      as (legal' & Hl' & Hin).
    assert (legal' = legal) by congruence. subst legal'. exact Hin. }
  split; [exact Hc|]. split; [exact Hturn|]. split.
  - intros ->. split; reflexivity.
  - intros Hne. destruct legal; [congruence|]. split; [exact Hphase|reflexivity].
Qed.

Lemma game_phase_after_move_witness :
  exists s s',
    beforeMate = Ret s /\ performMove s (mkMove 3 0 7 4) = Ret s'
    /\ gameState s' = ended /\ statusBox s' = "White is checkmated!".
Proof.
  assert (K : (let* s := beforeMate in
               let* s' := performMove s (mkMove 3 0 7 4) in
               let* legal := allLegalMovesFor (boardState s') (currentPlayer s') in
               let* chk := isKingInCheck (boardState s') (currentPlayer s') in
               Ret (legal, chk, currentPlayer s')) = Ret ([], true, white))
    by (vm_compute; reflexivity).
  destruct beforeMate as [s| |] eqn:E; [|discriminate K|discriminate K].
  cbn [bind] in K.
  destruct (performMove s (mkMove 3 0 7 4)) as [s'| |] eqn:E';
    [|discriminate K|discriminate K].
  cbn [bind] in K.
  destruct (game_phase_after_move s (mkMove 3 0 7 4) s' E')
    as (legal & inCheck & Hl & _ & Hc & _ & Hend & _).
  rewrite Hl, Hc in K. cbn [bind] in K. injection K as -> -> Hw.
  destruct (Hend eq_refl) as [Hg Hs]. rewrite Hw in Hs.
  exists s, s'. repeat split; assumption.
Defined.

(** The other ending: after Qg3-g6 black has no move and is not in check,
    and the status says so. *)
Example stalemate_is_told_apart :
  (let* s' := performMove beforeStalemate (mkMove 6 5 6 2) in
   let* legal := allLegalMovesFor (boardState s') (currentPlayer s') in
   let* inCheck := isKingInCheck (boardState s') (currentPlayer s') in
   Ret (currentPlayer s', legal, inCheck, gameState s', statusBox s'))
  = Ret (black, [], false, ended, "Stalemate").
Proof. vm_compute. reflexivity. Qed.

(** C5. A legal move of a pawn to the last rank of its color leaves a queen
    of the mover's color on the destination square, both when [performMove]
    carries it out on the live board and when [applyMoveOnClone] simulates
    it on a copy. *)
Theorem promotion_yields_queen (s : State) (move : Move) (p : Piece) :
  onBoard move ->
  isLegalMove (boardState s) move (currentPlayer s) = Ret true ->
  boardState s !! (fromZ move, fromX move) = Some p ->
  type p = pawn ->
  toZ move = terminalRank (color p) ->
  (exists s',
      performMove s move = Ret s'
      /\ boardState s' !! (toZ move, toX move)
         = Some (mkPiece queen (currentPlayer s)))
  /\ (exists copy after,
         cloneBoard (boardState s) = Ret copy
         /\ applyMoveOnClone copy move = Ret after
         /\ after !! (toZ move, toX move)
            = Some (mkPiece queen (currentPlayer s))).
Proof.
  intros Hm Hl Hp Hpawn Hrank.
  destruct (legal_move_shape _ _ _ Hm Hl) as (Hne & q & Hq & Hcolor).
  assert (q = p) by congruence. subst q.
  assert (Hprom : promoted p (toZ move) = mkPiece queen (currentPlayer s)).
  { unfold promoted. rewrite (bool_decide_eq_true_2 _ Hpawn), Hrank, Hcolor.
    destruct (currentPlayer s); reflexivity. }
  destruct Hm as [Hf Ht]. split.
  - destruct (performMove_ret s move p) as (s' & Hs' & Hto & _);
      eauto using isInside_hasRow.
    exists s'. split; [exact Hs'|]. now rewrite Hto, Hprom.
  - destruct (simulate_ret (boardState s) move p (conj Hf Ht) Hne Hp)
      as (copy & after & Hc & Ha & Hto).
    exists copy, after. repeat split; auto. now rewrite Hto, Hprom.
Qed.

Lemma promotion_yields_queen_witness :
  let s := mkState promotion white playing [] (mkCaptured [] [])
             "Game in Progress" in
  (exists s',
      performMove s (mkMove 0 1 0 0) = Ret s'
      /\ boardState s' !! (0, 0) = Some (mkPiece queen white))
  /\ (exists copy after,
         cloneBoard promotion = Ret copy
         /\ applyMoveOnClone copy (mkMove 0 1 0 0) = Ret after
         /\ after !! (0, 0) = Some (mkPiece queen white)).
Proof.
  intros s.
  apply (promotion_yields_queen s (mkMove 0 1 0 0) (mkPiece pawn white)).
  - split; reflexivity.
  - vm_compute. reflexivity.
  - vm_compute. reflexivity.
  - reflexivity.
  - reflexivity.
Defined.

(** C6. For an attempt between squares of the board the legality check
    returns a boolean and raises nothing, and unless it returns [true] the
    attempt is rejected and hands back the state it was given: board, side
    to move, history, captured lists, phase and status are those of before.
    The same holds with the pieces kept as objects behind references: the
    check returns the same boolean and the live board has the contents it
    had, the simulation writing only to the objects of its own copy. *)
Theorem rejected_attempt_leaves_state (s : State) (move : Move) :
  onBoard move ->
  (exists ok, isLegalMove (boardState s) move (currentPlayer s) = Ret ok)
  /\ (isLegalMove (boardState s) move (currentPlayer s) <> Ret true ->
      attemptMove s move = Ret (s, false))
  /\ (forall (st : store) (live : refBoard),
         noDangling st live -> view st live = boardState s ->
         exists st' ok,
           ref_isLegalMove st live move (currentPlayer s) = Ret (st', ok)
           /\ isLegalMove (boardState s) move (currentPlayer s) = Ret ok
           /\ view st' live = boardState s).
Proof.
  intros Hm.
  destruct (isLegalMove_total (boardState s) move (currentPlayer s) Hm)
    as (ok & Hok).
  split; [eauto|]. split.
  - intros Hno. unfold attemptMove.
    destruct (bool_decide (gameState s <> playing)); [reflexivity|].
    rewrite Hok. cbn [bind]. destruct ok; [congruence|reflexivity].
  - intros st live Hwf <-.
    destruct (ref_isLegalMove_keeps_live_board st live move (currentPlayer s)
                Hwf Hm) as (st' & b & H1 & H2 & H3 & _).
    exists st', b. auto.
Qed.

Lemma rejected_attempt_leaves_state_witness :
  let s := mkState hangingQueen black playing [] (mkCaptured [] [])
             "Game in Progress" in
  onBoard (mkMove 3 0 3 5)
  /\ isLegalMove hangingQueen (mkMove 3 0 3 5) black = Ret false
  /\ attemptMove s (mkMove 3 0 3 5) = Ret (s, false).
Proof.
  intros s.
  assert (Hm : onBoard (mkMove 3 0 3 5)) by (split; reflexivity).
  assert (Hl : isLegalMove hangingQueen (mkMove 3 0 3 5) black = Ret false)
    by (vm_compute; reflexivity).
  split; [exact Hm|]. split; [exact Hl|].
  apply (proj1 (proj2 (rejected_attempt_leaves_state s (mkMove 3 0 3 5) Hm))).
  cbn [boardState currentPlayer s]. rewrite Hl. discriminate.
Defined.

(** C7. On a board whose 64 squares hold no king of the given color,
    [isKingInCheck] returns [true] and raises nothing. *)
Theorem isKingInCheck_without_king (bs : board) (player : Color) :
  (forall x z p, isInside x z = true -> bs !! (z, x) = Some p ->
                 ~ (type p = king /\ color p = player)) ->
  isKingInCheck bs player = Ret true.
Proof.
  intros Hno. rewrite isKingInCheck_unfold.
  rewrite (findKing_absent bs player Hno). reflexivity.
Qed.

Lemma isKingInCheck_without_king_witness :
  isKingInCheck (place [(4, 7, mkPiece king white); (3, 0, mkPiece queen black)])
                black = Ret true.
Proof.
  apply isKingInCheck_without_king. intros x z p _ Hp [Hk Hc].
  unfold place in Hp. cbn [foldl] in Hp.
  apply lookup_insert_Some in Hp as [[_ <-]|[_ Hp]]; [discriminate Hk|].
  apply lookup_insert_Some in Hp as [[_ <-]|[_ Hp]]; [discriminate Hc|].
  rewrite lookup_empty in Hp. discriminate Hp.
Defined.

(** C8. [undoMove] on an empty history returns the state unchanged; on a
    history whose last entry lies on existing rows it pops that entry, gives
    the turn to the entry's mover and sets the phase to [playing], whatever
    the position it arrives at. *)
Theorem undoMove_turn_and_phase (s : State) :
  (moveHistory s = [] -> undoMove s = Ret s)
  /\ (forall h e,
         moveHistory s = h ++ [e] ->
         hasRow (fromZ (h_move e)) = true -> hasRow (toZ (h_move e)) = true ->
         exists s',
           undoMove s = Ret s'
           /\ currentPlayer s' = h_mover e
           /\ gameState s' = playing
           /\ moveHistory s' = h).
Proof.
  split.
  - intros H. unfold undoMove. now rewrite H.
  - intros h e H Hf Ht. unfold undoMove. rewrite H, last_snoc, removelast_last.
    rewrite (cell_row _ _ _ Ht). cbn [bind].
    rewrite (setCell_row _ _ _ _ Hf). cbn [bind].
    rewrite (setCell_row _ _ _ _ Ht). cbn [bind].
    destruct (h_captured e) as [cap|].
    + unfold spawnPiece. rewrite (setCell_row _ _ _ _ Ht). cbn [bind].
      eexists. split; [reflexivity|]. repeat split.
    + cbn [bind]. eexists. split; [reflexivity|]. repeat split.
Qed.

Lemma undoMove_turn_and_phase_witness :
  exists s',
    undoMove afterMate = Ret s'
    /\ currentPlayer s' = white /\ gameState s' = playing
    /\ exists s'', evaluateGameState s' = Ret s''
                   /\ gameState s'' = ended
                   /\ statusBox s'' = "White is checkmated!".
Proof.
  destruct (proj2 (undoMove_turn_and_phase afterMate) []
              (mkEntry (mkMove 0 6 0 5) None white) eq_refl eq_refl eq_refl)
    as (s' & Hs' & Hturn & Hphase & _).
  exists s'. repeat split; try assumption.
  assert (K : (let* s' := undoMove afterMate in
               let* s'' := evaluateGameState s' in
               Ret (gameState s'', statusBox s''))
              = Ret (ended, "White is checkmated!"))
    by (vm_compute; reflexivity).
  rewrite Hs' in K. cbn [bind] in K.
  destruct (evaluateGameState s') as [s''| |]; [|discriminate K|discriminate K].
  cbn [bind] in K. injection K as Hg Hst. exists s''. repeat split; assumption.
Defined.

(** C9. The move computed for the automated side is a function of the
    pieces on the 64 squares and of nothing else: two states that hold the
    same piece on every square of the board give the same result, whatever
    their side to move, history, captured lists, phase and status, and
    whatever their boards carry outside the squares.  That result is a move
    or none, never an exception, and the enumeration order fixes it: it is
    the first of black's legal moves, in the order of [allLegalMovesFor],
    whose score is the least, and it is none exactly when black has no
    legal move. *)
Theorem search_is_deterministic (s1 s2 : State) :
  (forall x z, isInside x z = true ->
               boardState s1 !! (z, x) = boardState s2 !! (z, x)) ->
  exists best moves,
    bestAIMove s1 = Ret best /\ bestAIMove s2 = Ret best
    /\ allLegalMovesFor (boardState s1) black = Ret moves
    /\ allLegalMovesFor (boardState s2) black = Ret moves
    /\ match best with
       | None => moves = []
       | Some m =>
           exists (i : nat) v,
             moves !! i = Some m
             /\ worstAfter (boardState s1) m = Ret (Finite v)
             /\ worstAfter (boardState s2) m = Ret (Finite v)
             /\ forall (j : nat) m' w,
                  moves !! j = Some m' ->
                  worstAfter (boardState s1) m' = Ret (Finite w) ->
                  v <= w /\ ((j < i)%nat -> v < w)
       end.
Proof.
  intros Hsame.
  destruct (bestAIMove_total s1) as (best & Hbest).
  destruct (bestAIMove_first_minimum s1 best Hbest) as (moves & Hmoves & Hshape).
  exists best, moves.
  split; [exact Hbest|].
  split; [now rewrite <- (bestAIMove_same s1 s2 Hsame)|].
  split; [exact Hmoves|].
  split; [now rewrite <- (allLegalMovesFor_same _ _ black Hsame)|].
  destruct best as [m|]; [|exact Hshape].
  destruct Hshape as (i & v & Hi & Hv & Hmin). exists i, v.
  split; [exact Hi|]. split; [exact Hv|].
  split; [now rewrite <- (worstAfter_same _ _ m Hsame)|exact Hmin].
Qed.

Lemma search_is_deterministic_witness :
  let s1 := mkState hangingQueen black playing [] (mkCaptured [] [])
              "Game in Progress" in
  let s2 := mkState hangingQueenBeside white ended
              [mkEntry (mkMove 0 6 0 5) None white]
              (mkCaptured [rook] [pawn]) "Stalemate" in
  boardState s1 <> boardState s2
  /\ exists best, bestAIMove s1 = Ret best /\ bestAIMove s2 = Ret best.
Proof.
  intros s1 s2. split.
  - intros E. apply (f_equal (fun b : board => b !! (0, 8))) in E.
    vm_compute in E. discriminate E.
  - destruct (search_is_deterministic s1 s2) as (best & moves & H1 & H2 & _).
    + intros x z Hi. cbn [boardState s1 s2]. unfold hangingQueenBeside.
      rewrite lookup_insert_ne; [reflexivity|].
      intros E. injection E as <- <-. discriminate Hi.
    + exists best. split; assumption.
Defined.

(** C10. The generator and the predicate agree: from a square of the board
    that holds a piece, a destination on the board is among the moves of
    [generatePseudoMoves] exactly when [isPseudoLegal], called without the
    attack-probe flag, returns [true]. *)
Theorem generator_agrees_with_predicate
        (bs : board) (x z tx tz : Z) (p : Piece) :
  isInside x z = true ->
  bs !! (z, x) = Some p ->
  isInside tx tz = true ->
  exists moves,
    generatePseudoMoves x z bs = Ret moves
    /\ (In (tx, tz) moves <->
        isPseudoLegal (mkMove x z tx tz) bs false = Ret true).
Proof.
  intros Hs Hp Ht. exact (generate_iff_predicate bs x z tx tz p Hs Ht Hp).
Qed.

Lemma generator_agrees_with_predicate_witness :
  exists moves,
    generatePseudoMoves 3 0 hangingQueen = Ret moves
    /\ (In (3, 4) moves <->
        isPseudoLegal (mkMove 3 0 3 4) hangingQueen false = Ret true).
Proof.
  apply (generator_agrees_with_predicate hangingQueen 3 0 3 4
           (mkPiece queen black)); reflexivity.
Defined.

(** ** Further properties of the code *)

(** X1. [isKingInCheck] always returns, and what it reports is an attack
    on the last king of the color in scan order: it is [true] exactly when
    there is no such king on the 64 squares, or a piece of the other color
    stands on a square from which [generatePseudoMoves] yields the square
    of that last king.  Further kings of the color are not looked at. *)
Theorem check_means_last_king_attacked (bs : board) (player : Color) :
  exists b,
    isKingInCheck bs player = Ret b
    /\ (b = true <->
        match last (kingSquares bs player) with
        | None => True
        | Some (kz, kx) => attacked bs player kx kz
        end).
Proof. exact (isKingInCheck_attacked bs player). Qed.

(** X2. The rules read the 64 squares and nothing else of a board: on two
    boards that hold the same piece on every square, whatever else their
    rows carry, [generatePseudoMoves], [isKingInCheck], [isLegalMove] and
    [allLegalMovesFor] give the same outcome, value or exception. *)
Theorem rules_read_the_squares_only (b1 b2 : board) :
  (forall x z, isInside x z = true -> b1 !! (z, x) = b2 !! (z, x)) ->
  (forall x z, isInside x z = true ->
               generatePseudoMoves x z b1 = generatePseudoMoves x z b2)
  /\ (forall player, isKingInCheck b1 player = isKingInCheck b2 player)
  /\ (forall mv player, onBoard mv ->
                        isLegalMove b1 mv player = isLegalMove b2 mv player)
  /\ (forall player, allLegalMovesFor b1 player = allLegalMovesFor b2 player).
Proof.
  intros Hs. split; [|split; [|split]].
  - intros x z Hi. now apply generatePseudoMoves_same.
  - intros player. now apply isKingInCheck_same.
  - intros mv player Hm. now apply isLegalMove_same.
  - intros player. now apply allLegalMovesFor_same.
Qed.

Lemma rules_read_the_squares_only_witness :
  hangingQueen <> hangingQueenBeside
  /\ allLegalMovesFor hangingQueen black
     = allLegalMovesFor hangingQueenBeside black.
Proof.
  split.
  - intros E. apply (f_equal (fun b : board => b !! (0, 8))) in E.
    vm_compute in E. discriminate E.
  - apply (rules_read_the_squares_only hangingQueen hangingQueenBeside).
    intros x z Hi. unfold hangingQueenBeside.
    rewrite lookup_insert_ne; [reflexivity|].
    intros E. injection E as <- <-. discriminate Hi.
Defined.

(** X3. What [performMove] does to the board is what the simulation
    predicted: for a move between two different squares of the board, from
    an occupied one, [performMove] returns, and the board it leaves holds on
    every square the piece that [applyMoveOnClone] puts there on a copy made
    by [cloneBoard]. *)
Theorem performMove_matches_simulation (s : State) (mv : Move) (p : Piece) :
  onBoard mv ->
  (fromZ mv, fromX mv) <> (toZ mv, toX mv) ->
  boardState s !! (fromZ mv, fromX mv) = Some p ->
  exists s' copy after,
    performMove s mv = Ret s'
    /\ cloneBoard (boardState s) = Ret copy
    /\ applyMoveOnClone copy mv = Ret after
    /\ forall x z, isInside x z = true ->
                   boardState s' !! (z, x) = after !! (z, x).
Proof.
  intros Hm Hne Hp.
  destruct (performMove_ret s mv p (isInside_hasRow _ _ (proj1 Hm))
              (isInside_hasRow _ _ (proj2 Hm)) Hne Hp) as (s' & Hs' & _).
  destruct (performMove_simulated s s' mv p Hm Hne Hp Hs')
    as (copy & after & Hc & Ha & Hsame).
  exists s', copy, after. auto.
Qed.

Lemma performMove_matches_simulation_witness :
  let s := mkState promotion white playing [] (mkCaptured [] [])
             "Game in Progress" in
  exists s' copy after,
    performMove s (mkMove 0 1 0 0) = Ret s'
    /\ cloneBoard promotion = Ret copy
    /\ applyMoveOnClone copy (mkMove 0 1 0 0) = Ret after
    /\ forall x z, isInside x z = true ->
                   boardState s' !! (z, x) = after !! (z, x).
Proof.
  intros s.
  apply (performMove_matches_simulation s (mkMove 0 1 0 0)
           (mkPiece pawn white)).
  - split; reflexivity.
  - discriminate.
  - vm_compute. reflexivity.
Defined.

(** X4. A legal move never leaves the mover's own king attacked on the
    live board: when [isLegalMove] accepts a move between squares of the
    board for the side to move, [performMove] returns and [isKingInCheck]
    answers [false] for the mover on the resulting board. *)
Theorem legal_move_leaves_own_king_safe (s : State) (mv : Move) :
  onBoard mv ->
  isLegalMove (boardState s) mv (currentPlayer s) = Ret true ->
  exists s',
    performMove s mv = Ret s'
    /\ isKingInCheck (boardState s') (currentPlayer s) = Ret false.
Proof.
  intros Hm Hl.
  destruct (legal_move_shape _ _ _ Hm Hl) as (Hne & p & Hp & _).
  destruct (performMove_ret s mv p (isInside_hasRow _ _ (proj1 Hm))
              (isInside_hasRow _ _ (proj2 Hm)) Hne Hp) as (s' & Hs' & _).
  exists s'. split; [exact Hs'|].
  exact (legal_leaves_king_safe s s' mv Hm Hl Hs').
Qed.

Lemma legal_move_leaves_own_king_safe_witness :
  let s := mkState hangingQueen black playing [] (mkCaptured [] [])
             "Game in Progress" in
  exists s',
    performMove s (mkMove 3 0 3 4) = Ret s'
    /\ isKingInCheck (boardState s') black = Ret false.
Proof.
  intros s. apply (legal_move_leaves_own_king_safe s (mkMove 3 0 3 4)).
  - split; reflexivity.
  - vm_compute. reflexivity.
Defined.

(** X5. Play keeps the position regular.  From a state in which each side
    has exactly one king on the board and the side that is not to move is
    not in check, an attempt between squares of the board returns, accepted
    or not, and the state it gives is again such a state: kings are never
    captured and never left in check by the side that moved. *)
Theorem attempts_keep_the_position_regular (s : State) (mv : Move) :
  regular s -> onBoard mv ->
  exists s' ok, attemptMove s mv = Ret (s', ok) /\ regular s'.
Proof. exact (attempt_keeps_regular s mv). Qed.

Lemma attempts_keep_the_position_regular_witness :
  let s := mkState hangingQueen black playing [] (mkCaptured [] [])
             "Game in Progress" in
  regular s
  /\ exists s' ok, attemptMove s (mkMove 3 0 3 4) = Ret (s', ok) /\ regular s'.
Proof.
  intros s.
  assert (Hreg : regular s).
  { split; [|split].
    - exists (7, 6). vm_compute. reflexivity.
    - exists (0, 4). vm_compute. reflexivity.
    - vm_compute. reflexivity. }
  split; [exact Hreg|].
  apply (attempts_keep_the_position_regular s (mkMove 3 0 3 4) Hreg).
  split; reflexivity.
Defined.

(** X6. The same holds for the move of the automated side when it is
    black's turn: [makeBestAIMove] returns, and from a regular position it
    gives a regular position. *)
Theorem machine_keeps_the_position_regular (s : State) :
  regular s -> currentPlayer s = black ->
  exists s', makeBestAIMove s = Ret s' /\ regular s'.
Proof.
  intros Hreg Hturn.
  destruct (makeBestAIMove_plays_black s) as (moves & Hmoves & Hshape).
  destruct moves as [|m0 moves]; [eauto|].
  destruct Hshape as (m & p & s' & Hin & _ & _ & Hmake & Hperf & _).
  exists s'. split; [exact Hmake|].
  destruct (allLegalMovesFor_spec (boardState s) black) as (l & Hl & Hspec).
  assert (l = m0 :: moves) by (rewrite Hmoves in Hl; now injection Hl).
  subst l. apply Hspec in Hin as [Hm Hlegal]. rewrite <- Hturn in Hlegal.
  exact (legal_move_keeps_regular s s' m Hreg Hm Hlegal Hperf).
Qed.

Lemma machine_keeps_the_position_regular_witness :
  let s := mkState hangingQueen black playing [] (mkCaptured [] [])
             "Game in Progress" in
  exists s', makeBestAIMove s = Ret s' /\ regular s'.
Proof.
  intros s. apply (machine_keeps_the_position_regular s); [|reflexivity].
  split; [|split].
  - exists (7, 6). vm_compute. reflexivity.
  - exists (0, 4). vm_compute. reflexivity.
  - vm_compute. reflexivity.
Defined.

(** X7. From an occupied square of the board [generatePseudoMoves] returns
    a list, raising nothing, and every destination in it is a square of the
    board other than the origin that is empty or holds a piece of the other
    color; from an empty square it returns no move. *)
Theorem generator_yields_free_squares (bs : board) (x z : Z) :
  isInside x z = true ->
  exists l,
    generatePseudoMoves x z bs = Ret l
    /\ match bs !! (z, x) with
       | None => l = []
       | Some p =>
           forall tx tz, In (tx, tz) l ->
             isInside tx tz = true /\ (tx, tz) <> (x, z)
             /\ freeFor (bs !! (tz, tx)) (color p) = true
       end.
Proof.
  intros Hi. destruct (bs !! (z, x)) as [p|] eqn:Hp.
  - exact (generated_destinations bs x z p Hi Hp).
  - exists []. split; [|reflexivity]. unfold generatePseudoMoves.
    now rewrite (cell_inside _ _ _ Hi), Hp.
Qed.

Lemma generator_yields_free_squares_witness :
  exists l,
    generatePseudoMoves 3 0 hangingQueen = Ret l
    /\ forall tx tz, In (tx, tz) l ->
         isInside tx tz = true /\ (tx, tz) <> (3, 0)
         /\ freeFor (hangingQueen !! (tz, tx)) black = true.
Proof.
  exact (generator_yields_free_squares hangingQueen 3 0 eq_refl).
Defined.


(** X9. The legality check has no bounds test.  When the destination row
    is not one of the eight rows and the move is otherwise acceptable (a
    piece of the player's on a square of the board, pseudo-legal), the call
    does not answer [false]: the simulation writes to the missing row and
    [isLegalMove] raises a TypeError. *)
Theorem off_board_row_raises (bs : board) (mv : Move) (player : Color)
        (p : Piece) :
  isInside (fromX mv) (fromZ mv) = true ->
  hasRow (toZ mv) = false ->
  bs !! (fromZ mv, fromX mv) = Some p -> color p = player ->
  isPseudoLegal mv bs false = Ret true ->
  isLegalMove bs mv player = Throw.
Proof. apply isLegalMove_off_rows. Qed.

Lemma off_board_row_raises_witness :
  isPseudoLegal (mkMove 4 7 4 8) promotion false = Ret true
  /\ isLegalMove promotion (mkMove 4 7 4 8) white = Throw.
Proof.
  split; [vm_compute; reflexivity|].
  apply (off_board_row_raises promotion (mkMove 4 7 4 8) white
           (mkPiece king white)).
  - reflexivity.
  - reflexivity.
  - vm_compute. reflexivity.
  - reflexivity.
  - vm_compute. reflexivity.
Defined.

(** X10. Nor is a destination beside the board rejected.  When the
    destination is on one of the eight rows but outside columns 0..7 and
    the move is pseudo-legal for a piece of the player's, [isLegalMove]
    returns, and its answer is whether that player's king is safe on the
    board from which the moved piece has simply gone: on the 64 squares the
    simulated board differs from the live one only by the emptied origin. *)
Theorem off_board_column_is_not_rejected (bs : board) (mv : Move)
        (player : Color) (p : Piece) :
  isInside (fromX mv) (fromZ mv) = true ->
  hasRow (toZ mv) = true -> isInside (toX mv) (toZ mv) = false ->
  bs !! (fromZ mv, fromX mv) = Some p -> color p = player ->
  isPseudoLegal mv bs false = Ret true ->
  exists copy after chk,
    cloneBoard bs = Ret copy
    /\ applyMoveOnClone copy mv = Ret after
    /\ (forall x z, isInside x z = true ->
          after !! (z, x)
          = if decide ((z, x) = (fromZ mv, fromX mv)) then None
            else bs !! (z, x))
    /\ isKingInCheck after player = Ret chk
    /\ isLegalMove bs mv player = Ret (negb chk).
Proof. apply isLegalMove_off_columns. Qed.

Lemma off_board_column_is_not_rejected_witness :
  isInside (-1) 4 = false
  /\ isLegalMove hangingQueen (mkMove 3 0 (-1) 4) black = Ret true
  /\ exists copy after chk,
       cloneBoard hangingQueen = Ret copy
       /\ applyMoveOnClone copy (mkMove 3 0 (-1) 4) = Ret after
       /\ (forall x z, isInside x z = true ->
             after !! (z, x)
             = if decide ((z, x) = (0, 3)) then None
               else hangingQueen !! (z, x))
       /\ isKingInCheck after black = Ret chk
       /\ isLegalMove hangingQueen (mkMove 3 0 (-1) 4) black
          = Ret (negb chk).
Proof.
  split; [reflexivity|]. split; [vm_compute; reflexivity|].
  apply (off_board_column_is_not_rejected hangingQueen (mkMove 3 0 (-1) 4)
           black (mkPiece queen black)).
  - reflexivity.
  - reflexivity.
  - reflexivity.
  - vm_compute. reflexivity.
  - reflexivity.
  - vm_compute. reflexivity.
Defined.

(** X11. The bookkeeping of [performMove].  For a move between two
    different squares on existing rows, from an occupied square, it returns
    a state whose history is the old one with one entry pushed, recording
    the move, the piece that stood on the destination (or none) and the
    mover; a capture appends the type of the captured piece to the mover's
    captured list, the other side's list is left as it was, and the turn
    passes to the other side. *)
Theorem performMove_records_the_move (s : State) (mv : Move) (p : Piece) :
  hasRow (fromZ mv) = true -> hasRow (toZ mv) = true ->
  (fromZ mv, fromX mv) <> (toZ mv, toX mv) ->
  boardState s !! (fromZ mv, fromX mv) = Some p ->
  exists s',
    performMove s mv = Ret s'
    /\ moveHistory s'
       = moveHistory s
         ++ [mkEntry mv (boardState s !! (toZ mv, toX mv)) (currentPlayer s)]
    /\ capturedBy (captured s') (currentPlayer s)
       = capturedBy (captured s) (currentPlayer s)
         ++ match boardState s !! (toZ mv, toX mv) with
            | Some t => [type t]
            | None => []
            end
    /\ capturedBy (captured s') (opposite (currentPlayer s))
       = capturedBy (captured s) (opposite (currentPlayer s))
    /\ currentPlayer s' = opposite (currentPlayer s).
Proof.
  intros Hf Ht Hne Hp.
  destruct (performMove_ret s mv p Hf Ht Hne Hp)
    as (s' & Hs' & _ & _ & _ & Hturn & Hhist & Hcapt).
  exists s'. split; [exact Hs'|]. split; [exact Hhist|].
  rewrite Hcapt. unfold capturedAfter.
  destruct (boardState s !! (toZ mv, toX mv)) as [t|].
  - destruct (captured s) as [w b], (currentPlayer s); cbn; auto.
  - rewrite app_nil_r. auto.
Qed.

Lemma performMove_records_the_move_witness :
  let s := mkState hangingQueen black playing [] (mkCaptured [] [])
             "Game in Progress" in
  exists s',
    performMove s (mkMove 3 0 3 4) = Ret s'
    /\ moveHistory s'
       = [mkEntry (mkMove 3 0 3 4) (Some (mkPiece pawn white)) black]
    /\ captured s' = mkCaptured [] [pawn]
    /\ currentPlayer s' = white.
Proof.
  intros s.
  destruct (performMove_records_the_move s (mkMove 3 0 3 4)
              (mkPiece queen black))
    as (s' & Hs' & Hhist & Hown & Hother & Hturn);
    [reflexivity|reflexivity|discriminate|vm_compute; reflexivity|].
  exists s'. split; [exact Hs'|]. split; [exact Hhist|].
  split; [|exact Hturn].
  destruct (captured s') as [w b]. cbn in Hown, Hother. now subst.
Defined.

(** X12. [undoMove] takes back any move that does not promote, in every
    state: after [performMove] of a move between two different squares on
    existing rows, from a square whose piece is not a pawn reaching rank 0
    or 7, [undoMove] gives back the board, the side to move, both captured
    lists and the history, with the phase [playing]. *)
Theorem undo_takes_back_a_plain_move (s : State) (mv : Move) (p : Piece) :
  hasRow (fromZ mv) = true -> hasRow (toZ mv) = true ->
  (fromZ mv, fromX mv) <> (toZ mv, toX mv) ->
  boardState s !! (fromZ mv, fromX mv) = Some p ->
  type p <> pawn \/ (toZ mv <> 0 /\ toZ mv <> 7) ->
  exists s1 s2,
    performMove s mv = Ret s1 /\ undoMove s1 = Ret s2
    /\ boardState s2 = boardState s
    /\ currentPlayer s2 = currentPlayer s
    /\ captured s2 = captured s
    /\ moveHistory s2 = moveHistory s
    /\ gameState s2 = playing.
Proof.
  intros Hf Ht Hne Hp Hplain.
  destruct (perform_then_undo s mv p Hf Ht Hne Hp)
    as (s1 & s2 & H1 & H2 & Hb & Hturn & Hcapt & Hhist & Hphase & _).
  exists s1, s2. repeat split; auto.
  rewrite Hb. apply insert_id. rewrite Hp. f_equal. unfold promoted.
  destruct Hplain as [Hk|[H0 H7]].
  - now rewrite (bool_decide_eq_false_2 _ Hk).
  - apply Z.eqb_neq in H0, H7. rewrite H0, H7.
    now destruct (bool_decide (type p = pawn)).
Qed.

Lemma undo_takes_back_a_plain_move_witness :
  let s := mkState hangingQueen black ended [] (mkCaptured [rook] [pawn])
             "Stalemate" in
  exists s1 s2,
    performMove s (mkMove 3 0 3 4) = Ret s1 /\ undoMove s1 = Ret s2
    /\ boardState s2 = hangingQueen
    /\ currentPlayer s2 = black
    /\ captured s2 = mkCaptured [rook] [pawn]
    /\ moveHistory s2 = []
    /\ gameState s2 = playing.
Proof.
  intros s.
  apply (undo_takes_back_a_plain_move s (mkMove 3 0 3 4) (mkPiece queen black)).
  - reflexivity.
  - reflexivity.
  - discriminate.
  - vm_compute. reflexivity.
  - left. discriminate.
Defined.

(** X13. A promotion is not taken back.  After [performMove] of a pawn
    move to rank 0 or 7 and [undoMove], the origin holds a queen of the
    pawn's color, not the pawn; every other cell of the board, the side to
    move, the captured lists and the history are those of before. *)
Theorem undo_keeps_the_promoted_queen (s : State) (mv : Move) (p : Piece) :
  hasRow (fromZ mv) = true -> hasRow (toZ mv) = true ->
  (fromZ mv, fromX mv) <> (toZ mv, toX mv) ->
  boardState s !! (fromZ mv, fromX mv) = Some p ->
  type p = pawn -> toZ mv = 0 \/ toZ mv = 7 ->
  exists s1 s2,
    performMove s mv = Ret s1 /\ undoMove s1 = Ret s2
    /\ boardState s2 !! (fromZ mv, fromX mv) = Some (mkPiece queen (color p))
    /\ (forall k, k <> (fromZ mv, fromX mv) ->
                  boardState s2 !! k = boardState s !! k)
    /\ currentPlayer s2 = currentPlayer s
    /\ captured s2 = captured s
    /\ moveHistory s2 = moveHistory s.
Proof.
  intros Hf Ht Hne Hp Hpawn Hrank.
  destruct (perform_then_undo s mv p Hf Ht Hne Hp)
    as (s1 & s2 & H1 & H2 & Hb & Hturn & Hcapt & Hhist & _).
  exists s1, s2. repeat split; auto.
  - rewrite Hb, lookup_insert_eq. f_equal. unfold promoted.
    rewrite (bool_decide_eq_true_2 _ Hpawn).
    destruct Hrank as [-> | ->]; reflexivity.
  - intros k Hk. rewrite Hb. now apply lookup_insert_ne.
Qed.

Lemma undo_keeps_the_promoted_queen_witness :
  let s := mkState promotion white playing [] (mkCaptured [] [])
             "Game in Progress" in
  exists s1 s2,
    performMove s (mkMove 0 1 0 0) = Ret s1 /\ undoMove s1 = Ret s2
    /\ boardState s2 !! (1, 0) = Some (mkPiece queen white)
    /\ promotion !! (1, 0) = Some (mkPiece pawn white).
Proof.
  intros s.
  destruct (undo_keeps_the_promoted_queen s (mkMove 0 1 0 0)
              (mkPiece pawn white))
    as (s1 & s2 & H1 & H2 & Hq & _);
    [reflexivity|reflexivity|discriminate|vm_compute; reflexivity|reflexivity
    |now left|].
  exists s1, s2. repeat split; auto.
Defined.

(** X14. The replies that the search keeps for a simulated position, on
    every pair of boards: exactly the moves between squares of the board,
    from a white piece of the simulated position, that are pseudo-legal
    there and that [isLegalMove] accepts on the live board. *)
Theorem search_keeps_replies_legal_on_the_live_board (live clone : board) :
  exists kept,
    collectOppMoves live clone = Ret kept
    /\ forall m,
         In m kept <->
         onBoard m
         /\ (exists p, clone !! (fromZ m, fromX m) = Some p /\ color p = white)
         /\ isPseudoLegal m clone false = Ret true
         /\ isLegalMove live m white = Ret true.
Proof. exact (collectOppMoves_spec live clone). Qed.

(** X15. The score of a candidate.  For a legal move of black between
    squares of the board the search returns a finite score: the material of
    the simulated position when it keeps no reply, and otherwise the
    greatest material over the kept replies, each applied to a fresh copy
    of the simulated position. *)
Theorem candidate_score_is_worst_kept_reply (live : board) (m : Move) :
  onBoard m -> isLegalMove live m black = Ret true ->
  exists copy clone opp w,
    worstAfter live m = Ret (Finite w)
    /\ cloneBoard live = Ret copy
    /\ applyMoveOnClone copy m = Ret clone
    /\ collectOppMoves live clone = Ret opp
    /\ match opp with
       | [] => evaluateMaterial clone = Ret w
       | _ :: _ =>
           (exists om, In om opp /\ replyValue clone om = Ret w)
           /\ forall om', In om' opp ->
                exists v', replyValue clone om' = Ret v' /\ v' <= w
       end.
Proof.
  intros Hm Hl. destruct (worstAfter_total live m Hm Hl) as (w & Hw).
  destruct (worstAfter_spec live m w Hw)
    as (copy & clone & opp & Hc & Ha & Ho & Hshape).
  destruct opp as [|om0 opp].
  - destruct Hshape as (v & Hv & ->). exists copy, clone, [], v. auto.
  - destruct Hshape as (om & v & Hin & Hv & -> & Hmax).
    exists copy, clone, (om0 :: opp), v. repeat split; eauto.
Qed.

Lemma candidate_score_is_worst_kept_reply_witness :
  exists copy clone opp w,
    worstAfter hangingQueen (mkMove 3 0 3 4) = Ret (Finite w)
    /\ cloneBoard hangingQueen = Ret copy
    /\ applyMoveOnClone copy (mkMove 3 0 3 4) = Ret clone
    /\ collectOppMoves hangingQueen clone = Ret opp
    /\ match opp with
       | [] => evaluateMaterial clone = Ret w
       | _ :: _ =>
           (exists om, In om opp /\ replyValue clone om = Ret w)
           /\ forall om', In om' opp ->
                exists v', replyValue clone om' = Ret v' /\ v' <= w
       end.
Proof.
  apply (candidate_score_is_worst_kept_reply hangingQueen (mkMove 3 0 3 4)).
  - split; reflexivity.
  - vm_compute. reflexivity.
Defined.

(** X16. [makeBestAIMove] acts for black whoever is to move.  It always
    returns; when black has no legal move the state is left as it was;
    otherwise it performs one of black's legal moves, so the piece that
    moves is black, while the entry pushed on the history names as mover
    the side whose turn it was, and the turn is flipped from that side. *)
Theorem machine_moves_a_black_piece (s : State) :
  exists moves,
    allLegalMovesFor (boardState s) black = Ret moves
    /\ match moves with
       | [] => makeBestAIMove s = Ret s
       | _ :: _ =>
           exists m p s',
             In m moves
             /\ boardState s !! (fromZ m, fromX m) = Some p /\ color p = black
             /\ makeBestAIMove s = Ret s' /\ performMove s m = Ret s'
             /\ currentPlayer s' = opposite (currentPlayer s)
             /\ last (moveHistory s')
                = Some (mkEntry m (boardState s !! (toZ m, toX m))
                          (currentPlayer s))
       end.
Proof. exact (makeBestAIMove_plays_black s). Qed.

(** X17. What a simulated move does to the material.  For a move between
    two different squares of the board, from an occupied one, the sum that
    [evaluateMaterial] returns on the simulated board is the sum on the
    board before, less the signed value of the piece on the destination,
    plus the gain of a promotion (the signed value of a queen less that of
    the pawn). *)
Theorem material_after_a_simulated_move (bs : board) (mv : Move) (p : Piece) :
  onBoard mv ->
  (fromZ mv, fromX mv) <> (toZ mv, toX mv) ->
  bs !! (fromZ mv, fromX mv) = Some p ->
  exists copy after v,
    cloneBoard bs = Ret copy
    /\ applyMoveOnClone copy mv = Ret after
    /\ evaluateMaterial bs = Ret v
    /\ evaluateMaterial after
       = Ret (v - pieceValue (bs !! (toZ mv, toX mv))
              + (pieceValue (Some (promoted p (toZ mv))) - pieceValue (Some p))).
Proof. apply material_after_move. Qed.

Lemma material_after_a_simulated_move_witness :
  exists copy after,
    cloneBoard hangingQueen = Ret copy
    /\ applyMoveOnClone copy (mkMove 3 0 3 4) = Ret after
    /\ evaluateMaterial hangingQueen = Ret (-700)
    /\ evaluateMaterial after = Ret (-800).
Proof.
  destruct (material_after_a_simulated_move hangingQueen (mkMove 3 0 3 4)
              (mkPiece queen black))
    as (copy & after & v & Hc & Ha & Hv & Hv');
    [split; reflexivity|discriminate|vm_compute; reflexivity|].
  assert (E : evaluateMaterial hangingQueen = Ret (-700))
    by (vm_compute; reflexivity).
  rewrite E in Hv. injection Hv as <-.
  exists copy, after. repeat split; auto.
Defined.

(** X18. [cloneBoard] returns on every board; the copy holds on each of
    the 64 squares the piece of the original, holds nothing outside them,
    and copying the copy gives the copy again. *)
Theorem cloneBoard_copies_the_squares (bs : board) :
  exists copy,
    cloneBoard bs = Ret copy
    /\ (forall x z, isInside x z = true -> copy !! (z, x) = bs !! (z, x))
    /\ (forall x z, isInside x z = false -> copy !! (z, x) = None)
    /\ cloneBoard copy = Ret copy.
Proof. exact (cloneBoard_copy bs). Qed.

(** X19. The view state stays coherent: from the top view set at startup
    and by [resetGame], and under every double click and click, the board
    spins only in the 3D view, the top view has orientation 0, the
    orientation is 0, 1 or 2, and the camera heads for the preset of the
    current view.  A click on a square or a piece, or in the top view,
    changes nothing; a click on the empty area in the 3D view steps the
    orientation by one modulo 3. *)
Theorem view_stays_coherent (c : Camera) :
  coherent (setTopCameraTarget c)
  /\ (coherent c ->
      coherent (onCanvasDblClick c)
      /\ (forall onObject, coherent (onCanvasClick c onObject).1)
      /\ (forall onObject, is3D c = false \/ onObject = true ->
                           onCanvasClick c onObject = (c, None))
      /\ (is3D c = true ->
          orientationIndex (onCanvasClick c false).1
          = Z.rem (orientationIndex c + 1) 3
          /\ is3D (onCanvasClick c false).1 = true
          /\ autoRotate (onCanvasClick c false).1 = autoRotate c)).
Proof.
  split; [apply coherent_top|]. intros Hc.
  assert (Hsame : forall onObject, is3D c = false \/ onObject = true ->
                                   onCanvasClick c onObject = (c, None)).
  { intros onObject H. unfold onCanvasClick.
    destruct (is3D c); [|reflexivity].
    destruct H as [H| ->]; [discriminate H|reflexivity]. }
  split; [now apply coherent_dblclick|]. split; [|split; [exact Hsame|]].
  - intros onObject. destruct (is3D c) eqn:E3.
    + destruct onObject.
      * rewrite Hsame by now right. exact Hc.
      * now apply click_cycles.
    + rewrite Hsame by now left. exact Hc.
  - intros E3. destruct (click_cycles c Hc E3) as (_ & H1 & H2 & H3). auto.
Qed.

Lemma view_stays_coherent_witness :
  let top := setTopCameraTarget (mkCamera true true 2 (0, 0, 0)%Q (0, 0, 0)%Q) in
  coherent top
  /\ onCanvasDblClick top = mkCamera true false 0 (8, 12, 8)%Q (0, 0, 0)%Q
  /\ coherent (onCanvasDblClick top)
  /\ onCanvasClick (onCanvasDblClick top) false
     = (mkCamera true false 1 (0, 10, 12)%Q (0, 0, 0)%Q, Some "White side").
Proof.
  intros top.
  destruct (view_stays_coherent (mkCamera true true 2 (0, 0, 0)%Q (0, 0, 0)%Q))
    as [Htop _].
  split; [exact Htop|]. split; [reflexivity|].
  split; [|reflexivity].
  exact (proj1 (proj2 (view_stays_coherent top) Htop)).
Defined.

(** X20. In the 3D view three clicks on the empty area bring back the view
    that was there: orientation, camera target and the rest. *)
Theorem three_clicks_restore_the_view (c : Camera) :
  coherent c -> is3D c = true ->
  (onCanvasClick (onCanvasClick (onCanvasClick c false).1 false).1 false).1 = c.
Proof. apply three_clicks. Qed.

Lemma three_clicks_restore_the_view_witness :
  let c := mkCamera true true 1 (0, 10, 12)%Q (0, 0, 0)%Q in
  (onCanvasClick c false).1 <> c
  /\ (onCanvasClick (onCanvasClick (onCanvasClick c false).1 false).1 false).1
     = c.
Proof.
  intros c. split; [discriminate|].
  apply (three_clicks_restore_the_view c); [|reflexivity].
  repeat split; cbn; try lia; discriminate.
Defined.

(** X21. A whole game stays regular.  From the position that [resetGame]
    sets up, any run of attempts between squares of the board, accepted or
    rejected, raises nothing and ends in a state in which each side still
    has exactly one king on the board and the side that has just moved is
    not in check. *)
Theorem games_stay_regular (moves : list Move) :
  Forall onBoard moves ->
  exists s0 s,
    resetGame = Ret s0 /\ playAttempts s0 moves = Ret s /\ regular s.
Proof.
  intros Hmoves. destruct resetGame_regular as (s0 & Hs0 & Hreg).
  destruct (playAttempts_regular moves Hmoves s0 Hreg) as (s & Hs & Hregs).
  exists s0, s. auto.
Qed.

Lemma games_stay_regular_witness :
  exists s0 s,
    resetGame = Ret s0
    /\ playAttempts s0 [mkMove 4 6 4 4; mkMove 4 6 4 3; mkMove 3 1 3 3;
                        mkMove 4 4 3 3] = Ret s
    /\ regular s.
Proof.
  apply games_stay_regular.
  repeat constructor.
Defined.
